(** * lib-jitsi-meet: modules/RTC/RTCUtils.js

    A shallow embedding of the media acquisition code of RTCUtils.js:
    the constraint builder ([getConstraints], [setResolutionConstraints]),
    the device availability tracker ([setAvailableDevices]), the capture
    wrappers ([getUM], [getUserMediaWithConstraints]), the per-device
    acquisition loop ([obtainDevices]), the stream normalizer
    ([handleLocalStream]) and the entry point
    ([obtainAudioAndVideoPermissions]).

    JavaScript objects are records whose absent keys are [None]; a property
    read on [undefined] is a thrown [TypeError]; mutation of [options], of the
    availability flags and of the promise is explicit state passing in a
    state-and-exception monad whose state survives a throw, as it does in
    JavaScript. *)

From Stdlib Require Import String List ZArith Bool Lia.
Import ListNotations.
Local Open Scope string_scope.
Local Open Scope list_scope.

Set Implicit Arguments.

(** ** JavaScript values *)

(** Truthiness of the values the module tests in [if] and [||]. *)
Class Truthy (A : Type) := truthy : A -> bool.

#[global] Instance Truthy_bool : Truthy bool := fun b => b.
#[global] Instance Truthy_Z : Truthy Z := fun z => negb (z =? 0)%Z.
#[global] Instance Truthy_string : Truthy string := fun s => negb (s =? "").
#[global] Instance Truthy_option {A} `{Truthy A} : Truthy (option A) :=
  fun o => match o with Some a => truthy a | None => false end.

(** [a || b] on possibly undefined values. *)
Definition js_or {A} `{Truthy A} (a b : option A) : option A :=
  if truthy a then a else b.

(** What a plain object (an object literal) inherits from
    [Object.prototype] under a key: a function under the name of each of its
    methods, and the prototype object itself under [__proto__]. *)
Inductive Inherited : Type :=
| InheritedFunction
| InheritedObject.

Definition Object_prototype (key : string) : option Inherited :=
  if existsb (String.eqb key)
       ["constructor"; "hasOwnProperty"; "isPrototypeOf";
        "propertyIsEnumerable"; "toLocaleString"; "toString"; "valueOf";
        "__defineGetter__"; "__defineSetter__"; "__lookupGetter__";
        "__lookupSetter__"]
  then Some InheritedFunction
  else if key =? "__proto__" then Some InheritedObject
  else None.

(** [Array.prototype.indexOf] on an array of strings. *)
Fixpoint indexOf_from (i : Z) (um : list string) (x : string) : Z :=
  match um with
  | [] => (-1)%Z
  | y :: r => if y =? x then i else indexOf_from (i + 1)%Z r x
  end.

Definition indexOf (um : list string) (x : string) : Z := indexOf_from 0 um x.

(** [arr.splice(i, 1)] for [0 <= i]: the array without its i-th element. *)
Fixpoint splice1 (i : nat) (l : list string) : list string :=
  match l, i with
  | [], _ => []
  | _ :: r, O => r
  | x :: r, S j => x :: splice1 j r
  end.

(** Values that the module throws or that a backend reports. *)
Inductive Exn : Type :=
| TypeError (msg : string)
| Error (msg : string)
| GumError (name : string).

(** ** Exceptions and mutable state *)

Inductive result (A : Type) : Type :=
| Ok (a : A)
| Throw (e : Exn).
Arguments Ok {A} a.
Arguments Throw {A} e.

Definition M (S A : Type) : Type := S -> result A * S.

Definition ret {S A} (a : A) : M S A := fun s => (Ok a, s).
Definition throw {S A} (e : Exn) : M S A := fun s => (Throw e, s).
Definition bind {S A B} (m : M S A) (k : A -> M S B) : M S B :=
  fun s => match m s with
           | (Ok a, s') => k a s'
           | (Throw e, s') => (Throw e, s')
           end.
Definition gets {S A} (f : S -> A) : M S A := fun s => (Ok (f s), s).
Definition modify {S} (f : S -> S) : M S unit := fun s => (Ok tt, f s).
Definition lift_result {S A} (r : result A) : M S A := fun s => (r, s).
Definition when {S} (b : bool) (m : M S unit) : M S unit :=
  if b then m else ret tt.

Declare Scope js_scope.
Delimit Scope js_scope with js.
Notation "x <- c ;; k" := (bind c (fun x => k))
  (at level 61, c at next level, right associativity) : js_scope.
Notation "c ;; k" := (bind c (fun _ => k))
  (at level 61, right associativity) : js_scope.
Local Open Scope js_scope.

(** ** Constraint descriptors *)

(** The [mandatory] object of a track constraint. *)
Record Mandatory : Type := mkMandatory {
  minWidth : option Z;
  minHeight : option Z;
  maxWidth : option Z;
  maxHeight : option Z;
  minFrameRate : option Z;
  maxFrameRate : option Z;
  chromeMediaSource : option string;
  chromeMediaSourceId : option string;
  googLeakyBucket : option bool
}.

Definition empty_mandatory : Mandatory :=
  mkMandatory None None None None None None None None None.

Definition set_minWidth (v : option Z) (m : Mandatory) : Mandatory :=
  mkMandatory v (minHeight m) (maxWidth m) (maxHeight m) (minFrameRate m)
    (maxFrameRate m) (chromeMediaSource m) (chromeMediaSourceId m)
    (googLeakyBucket m).
Definition set_minHeight (v : option Z) (m : Mandatory) : Mandatory :=
  mkMandatory (minWidth m) v (maxWidth m) (maxHeight m) (minFrameRate m)
    (maxFrameRate m) (chromeMediaSource m) (chromeMediaSourceId m)
    (googLeakyBucket m).
Definition set_maxWidth (v : option Z) (m : Mandatory) : Mandatory :=
  mkMandatory (minWidth m) (minHeight m) v (maxHeight m) (minFrameRate m)
    (maxFrameRate m) (chromeMediaSource m) (chromeMediaSourceId m)
    (googLeakyBucket m).
Definition set_maxHeight (v : option Z) (m : Mandatory) : Mandatory :=
  mkMandatory (minWidth m) (minHeight m) (maxWidth m) v (minFrameRate m)
    (maxFrameRate m) (chromeMediaSource m) (chromeMediaSourceId m)
    (googLeakyBucket m).
Definition set_minFrameRate (v : option Z) (m : Mandatory) : Mandatory :=
  mkMandatory (minWidth m) (minHeight m) (maxWidth m) (maxHeight m) v
    (maxFrameRate m) (chromeMediaSource m) (chromeMediaSourceId m)
    (googLeakyBucket m).
Definition set_maxFrameRate (v : option Z) (m : Mandatory) : Mandatory :=
  mkMandatory (minWidth m) (minHeight m) (maxWidth m) (maxHeight m)
    (minFrameRate m) v (chromeMediaSource m) (chromeMediaSourceId m)
    (googLeakyBucket m).

(** One element of an [optional] array: an object with a single key. *)
Inductive OptEntry : Type :=
| opt_sourceId (id : option string)
| opt_flag (key : string) (v : bool)
| opt_bandwidth (bw : option Z).

(** The object stored under [constraints.audio] or [constraints.video]. *)
Record TrackConstraints : Type := mkTrackConstraints {
  mandatory : option Mandatory;
  optional : option (list OptEntry);
  deviceId : option string;
  mozMediaSource : option string;
  mediaSource : option string
}.

(** [{ mandatory: {}, optional: [] }] *)
Definition plain_track : TrackConstraints :=
  mkTrackConstraints (Some empty_mandatory) (Some []) None None None.

Definition set_mandatory (v : option Mandatory) (t : TrackConstraints) :=
  mkTrackConstraints v (optional t) (deviceId t) (mozMediaSource t)
    (mediaSource t).
Definition set_optional (v : option (list OptEntry)) (t : TrackConstraints) :=
  mkTrackConstraints (mandatory t) v (deviceId t) (mozMediaSource t)
    (mediaSource t).
Definition set_deviceId (v : option string) (t : TrackConstraints) :=
  mkTrackConstraints (mandatory t) (optional t) v (mozMediaSource t)
    (mediaSource t).

(** [t.optional.push(e1, ..., en)] on an object that has the array. *)
Definition push_optional (es : list OptEntry) (t : TrackConstraints) :=
  set_optional (option_map (fun l => l ++ es) (optional t)) t.

(** [constraints.audio] and [constraints.video] hold a boolean or an object. *)
Inductive ConstraintValue : Type :=
| CBool (b : bool)
| CObj (t : TrackConstraints).

#[global] Instance Truthy_ConstraintValue : Truthy ConstraintValue :=
  fun v => match v with CBool b => b | CObj _ => true end.

Record Constraints : Type := mkConstraints {
  audio : ConstraintValue;
  video : ConstraintValue;
  fake : option bool
}.

Definition set_audio (v : ConstraintValue) (c : Constraints) : Constraints :=
  mkConstraints v (video c) (fake c).
Definition set_video (v : ConstraintValue) (c : Constraints) : Constraints :=
  mkConstraints (audio c) v (fake c).
Definition set_fake (v : option bool) (c : Constraints) : Constraints :=
  mkConstraints (audio c) (video c) v.

(** ** The options record and the environment *)

Record Options : Type := mkOptions {
  resolution : option string;
  bandwidth : option Z;
  fps : option Z;
  minFps : option Z;
  maxFps : option Z;
  desktopStream : option string;
  cameraDeviceId : option string;
  micDeviceId : option string;
  firefox_fake_device : option bool
}.

Definition set_minFps (v : option Z) (o : Options) : Options :=
  mkOptions (resolution o) (bandwidth o) (fps o) v (maxFps o)
    (desktopStream o) (cameraDeviceId o) (micDeviceId o)
    (firefox_fake_device o).
Definition set_resolution (v : option string) (o : Options) : Options :=
  mkOptions v (bandwidth o) (fps o) (minFps o) (maxFps o)
    (desktopStream o) (cameraDeviceId o) (micDeviceId o)
    (firefox_fake_device o).

(** The answers of [RTCBrowserType]. *)
Record RTCBrowserType : Type := mkBrowser {
  isAndroid : bool;
  isReactNative : bool;
  isFirefox : bool;
  isChrome : bool;
  isTemasysPluginUsed : bool
}.

(** One entry of the [Resolutions] table. *)
Record Resolution : Type := mkResolution {
  width : Z;
  height : Z
}.

(** What [Resolutions[label]] finds: an entry of the table, or a member that
    the table, a plain object, inherits; such a member is truthy and has
    neither [width] nor [height]. *)
Inductive TableValue : Type :=
| TableEntry (r : Resolution)
| TableInherited (i : Inherited).

(** One element of what [MediaStreamTrack.getSources] reports. *)
Record SourceInfo : Type := mkSourceInfo {
  si_kind : string;
  si_facing : string;
  si_id : string
}.

(** What the module reads from its surroundings: [RTCBrowserType], the
    [Resolutions] table (its own entries, by label),
    [window.screen], the Temasys [screensharingKey],
    [screenObtainer.isSupported()], [MediaStreamTrack.getSources], and
    whether tracks and streams of this browser have a [stop] method. *)
Record Env : Type := mkEnv {
  browser : RTCBrowserType;
  Resolutions : string -> option Resolution;
  screen_width : Z;
  screen_height : Z;
  screensharingKey : string;
  screenObtainer_isSupported : bool;
  sourceInfos : list SourceInfo;
  track_has_stop : bool;
  stream_has_stop : bool
}.

(** ** The constraint builder *)

(** What the builder can change besides its return value: the [options]
    record it was handed, and the logger. *)
Record Builder : Type := mkBuilder {
  b_options : Options;
  b_log : list string
}.

Definition logger_error (msg : string) : M Builder unit :=
  modify (fun b => mkBuilder (b_options b) (b_log b ++ [msg])).

Definition put_options (o : Options) : M Builder unit :=
  modify (fun b => mkBuilder o (b_log b)).

Section Builder.

Variable env : Env.

(** [Resolutions[resolution]]: the label is the property key (an undefined
    label is the key "undefined"); an own entry of the table comes before
    what the table inherits. *)
Definition Resolutions_at (label : option string) : option TableValue :=
  let key := match label with Some l => l | None => "undefined" end in
  match Resolutions env key with
  | Some r => Some (TableEntry r)
  | None =>
      match Object_prototype key with
      | Some i => Some (TableInherited i)
      | None => None
      end
  end.

(** Every statement of [setResolutionConstraints] goes through
    [constraints.video.mandatory]; it throws when that object is missing. *)
Definition on_video_mandatory (constraints : Constraints)
    (f : Mandatory -> Mandatory) : result Constraints :=
  match video constraints with
  | CObj t =>
      match mandatory t with
      | Some m => Ok (set_video (CObj (set_mandatory (Some (f m)) t)) constraints)
      | None => Throw (TypeError "constraints.video.mandatory is undefined")
      end
  | CBool _ => Throw (TypeError "constraints.video.mandatory is undefined")
  end.

(** What [setResolutionConstraints] does to [constraints.video.mandatory]. *)
Definition resolution_update (resolution : option string) (m : Mandatory)
    : Mandatory :=
  let isAndroid := isAndroid (browser env) in
  let m :=
    match Resolutions_at resolution with
    | Some (TableEntry r) =>
        set_minHeight (Some (height r)) (set_minWidth (Some (width r)) m)
    | Some (TableInherited _) => set_minHeight None (set_minWidth None m)
    | None =>
        if isAndroid
        then set_maxFrameRate (Some 15%Z)
               (set_minHeight (Some 180%Z) (set_minWidth (Some 320%Z) m))
        else m
    end in
  let m := if truthy (minWidth m) then set_maxWidth (minWidth m) m else m in
  let m := if truthy (minHeight m) then set_maxHeight (minHeight m) m else m in
  m.

Definition setResolutionConstraints (constraints : Constraints)
    (resolution : option string) : result Constraints :=
  on_video_mandatory constraints (resolution_update resolution).

(** [constraints.video.optional.push(e)] *)
Definition video_optional_push (constraints : Constraints) (e : OptEntry)
    : result Constraints :=
  match video constraints with
  | CObj t =>
      match optional t with
      | Some l => Ok (set_video (CObj (set_optional (Some (l ++ [e])) t)) constraints)
      | None => Throw (TypeError "constraints.video.optional is undefined")
      end
  | CBool _ => Throw (TypeError "constraints.video.optional is undefined")
  end.

(** [if (!constraints.video) constraints.video = {mandatory: {}, optional: []}] *)
Definition ensure_video (constraints : Constraints) : Constraints :=
  if negb (truthy (video constraints))
  then set_video (CObj plain_track) constraints
  else constraints.

Definition has (um : list string) (kind : string) : bool :=
  (indexOf um kind >=? 0)%Z.

(** The camera block (source lines 67-83). *)
Definition camera_step (um : list string) (options : Options)
    (constraints : Constraints) : result Constraints :=
  if has um "video" then
    let v := plain_track in
    let v :=
      if truthy (cameraDeviceId options)
      then push_optional [opt_sourceId (cameraDeviceId options)]
             (set_deviceId (cameraDeviceId options) v)
      else v in
    let v := push_optional [opt_flag "googLeakyBucket" true] v in
    setResolutionConstraints (set_video (CObj v) constraints) (resolution options)
  else Ok constraints.

Definition audio_hints : list OptEntry :=
  [ opt_flag "googEchoCancellation" true;
    opt_flag "googAutoGainControl" true;
    opt_flag "googNoiseSupression" true;
    opt_flag "googHighpassFilter" true;
    opt_flag "googNoisesuppression2" true;
    opt_flag "googEchoCancellation2" true;
    opt_flag "googAutoGainControl2" true ].

(** The microphone block (source lines 84-122). *)
Definition microphone_step (um : list string) (options : Options)
    (constraints : Constraints) : Constraints :=
  if has um "audio" then
    if isReactNative (browser env) then
      set_audio (CBool true) constraints
    else if negb (isFirefox (browser env)) then
      let a := plain_track in
      let a :=
        if truthy (micDeviceId options)
        then push_optional [opt_sourceId (micDeviceId options)]
               (set_deviceId (micDeviceId options) a)
        else a in
      let a := push_optional audio_hints a in
      set_audio (CObj a) constraints
    else
      if truthy (micDeviceId options)
      then set_audio
             (CObj (mkTrackConstraints (Some empty_mandatory)
                      (Some [opt_sourceId (micDeviceId options)])
                      (micDeviceId options) None None))
             constraints
      else set_audio (CBool true) constraints
  else constraints.

(** The video object of a Chrome screen or desktop capture. *)
Definition chrome_capture (source : string) (sourceId : option string)
    : TrackConstraints :=
  mkTrackConstraints
    (Some (mkMandatory None None (Some (screen_width env))
             (Some (screen_height env)) None (Some 3%Z) (Some source)
             sourceId (Some true)))
    (Some []) None None None.

Definition screen_unsupported_msg : string :=
  "'screen' WebRTC media source is supported only in Chrome and with Temasys plugin".

(** The screen block (source lines 123-154). *)
Definition screen_step (um : list string) (constraints : Constraints)
    : M Builder Constraints :=
  if has um "screen" then
    if isChrome (browser env) then
      ret (set_video (CObj (chrome_capture "screen" None)) constraints)
    else if isTemasysPluginUsed (browser env) then
      ret (set_video
             (CObj (mkTrackConstraints None
                      (Some [opt_sourceId (Some (screensharingKey env))])
                      None None None))
             constraints)
    else if isFirefox (browser env) then
      ret (set_video
             (CObj (mkTrackConstraints None None None
                      (Some "window") (Some "window")))
             constraints)
    else
      logger_error screen_unsupported_msg ;;
      ret constraints
  else ret constraints.

(** The desktop block (source lines 155-167). *)
Definition desktop_step (um : list string) (options : Options)
    (constraints : Constraints) : Constraints :=
  if has um "desktop"
  then set_video (CObj (chrome_capture "desktop" (desktopStream options)))
         constraints
  else constraints.

(** The bandwidth block (source lines 169-175). *)
Definition bandwidth_step (options : Options) (constraints : Constraints)
    : result Constraints :=
  if truthy (bandwidth options)
  then video_optional_push (ensure_video constraints)
         (opt_bandwidth (bandwidth options))
  else Ok constraints.

(** The frame-rate block (source lines 177-191); it assigns
    [options.minFps]. *)
Definition fps_step (constraints : Constraints) : M Builder Constraints :=
  options <- gets b_options ;;
  if truthy (minFps options) || truthy (maxFps options) || truthy (fps options)
  then
    let constraints := ensure_video constraints in
    constraints <-
      (if truthy (minFps options) || truthy (fps options) then
         put_options (set_minFps (js_or (minFps options) (fps options)) options) ;;
         options <- gets b_options ;;
         lift_result
           (on_video_mandatory constraints (set_minFrameRate (minFps options)))
       else ret constraints) ;;
    options <- gets b_options ;;
    if truthy (maxFps options)
    then lift_result
           (on_video_mandatory constraints (set_maxFrameRate (maxFps options)))
    else ret constraints
  else ret constraints.

(** The fake-device block (source lines 196-202). *)
Definition fake_step (options : Options) (constraints : Constraints)
    : Constraints :=
  if isFirefox (browser env) && truthy (firefox_fake_device options)
  then set_fake (Some true) constraints
  else constraints.

Definition getConstraints (um : list string) : M Builder Constraints :=
  let constraints := mkConstraints (CBool false) (CBool false) None in
  options <- gets b_options ;;
  constraints <- lift_result (camera_step um options constraints) ;;
  let constraints := microphone_step um options constraints in
  constraints <- screen_step um constraints ;;
  let constraints := desktop_step um options constraints in
  constraints <- lift_result (bandwidth_step options constraints) ;;
  constraints <- fps_step constraints ;;
  options <- gets b_options ;;
  ret (fake_step options constraints).

(** A call of the builder on an options record: the value it returns or the
    exception it throws, and the record and the log as it leaves them. *)
Definition build (um : list string) (options : Options)
    : result Constraints * Builder :=
  getConstraints um (mkBuilder options []).

End Builder.

(** ** Streams, track descriptors and the device availability flags *)

Record Track : Type := mkTrack {
  track_id : string
}.

Record MediaStream : Type := mkMediaStream {
  getAudioTracks : list Track;
  getVideoTracks : list Track;
  jitsiObjectURL : option string
}.

Definition getTracks (s : MediaStream) : list Track :=
  getAudioTracks s ++ getVideoTracks s.

(** [new webkitMediaStream()] followed by [addTrack] of audio tracks. *)
Definition new_audio_stream (tracks : list Track) : MediaStream :=
  mkMediaStream tracks [] None.

(** [new webkitMediaStream()] followed by [addTrack] of video tracks. *)
Definition new_video_stream (tracks : list Track) : MediaStream :=
  mkMediaStream [] tracks None.

Inductive MediaType : Type := AUDIO | VIDEO.
Inductive VideoType : Type := CAMERA | DESKTOP.

(** One element of what [handleLocalStream] returns. [td_track] is [None]
    when the source reads [tracks[0]] of an empty array; [td_videoType] is
    [None] for [null]; [td_resolution] is [None] when the object has no
    [resolution] key or the key holds [undefined]. *)
Record TrackDescriptor : Type := mkTrackDescriptor {
  td_stream : MediaStream;
  td_track : option Track;
  td_mediaType : MediaType;
  td_videoType : option VideoType;
  td_resolution : option string
}.

(** A JavaScript object used as a map from device names to streams; keys
    keep their insertion order, as [Object.keys] reports them. *)
Definition StreamMap : Type := list (string * MediaStream).

Fixpoint smap_get (key : string) (m : StreamMap) : option MediaStream :=
  match m with
  | [] => None
  | (k, s) :: r => if k =? key then Some s else smap_get key r
  end.

Fixpoint smap_set (key : string) (s : MediaStream) (m : StreamMap) : StreamMap :=
  match m with
  | [] => [(key, s)]
  | (k, s') :: r =>
      if k =? key then (k, s) :: r else (k, s') :: smap_set key s r
  end.

Definition smap_keys (m : StreamMap) : list string := map fst m.

(** The module-level [devices] object. *)
Record DeviceAvailability : Type := mkDevices {
  audio_available : bool;
  video_available : bool
}.

Definition initial_devices : DeviceAvailability := mkDevices true true.

(** ** The stream normalizer *)

Definition handleLocalStream (streams : option StreamMap)
    (resolution : option string) : list TrackDescriptor :=
  let '(audioStream, videoStream, desktopStream) :=
    match streams with
    | Some streams =>
        let '(audioStream, videoStream) :=
          match smap_get "audioVideo" streams with
          | Some audioVideo =>
              let audioTracks := getAudioTracks audioVideo in
              let videoTracks := getVideoTracks audioVideo in
              ((if (0 <? length audioTracks)%nat
                then Some (new_audio_stream audioTracks) else None),
               (if (0 <? length videoTracks)%nat
                then Some (new_video_stream videoTracks) else None))
          | None => (smap_get "audio" streams, smap_get "video" streams)
          end in
        let desktopStream :=
          match smap_get "desktopStream" streams with
          | Some d => Some d
          | None => smap_get "desktop" streams
          end in
        (audioStream, videoStream, desktopStream)
    | None => (None, None, None)
    end in
  let res := [] in
  let res :=
    match desktopStream with
    | Some d => res ++ [mkTrackDescriptor d (hd_error (getVideoTracks d))
                          VIDEO (Some DESKTOP) None]
    | None => res
    end in
  let res :=
    match audioStream with
    | Some a => res ++ [mkTrackDescriptor a (hd_error (getAudioTracks a))
                          AUDIO None None]
    | None => res
    end in
  let res :=
    match videoStream with
    | Some v => res ++ [mkTrackDescriptor v (hd_error (getVideoTracks v))
                          VIDEO (Some CAMERA) resolution]
    | None => res
    end in
  res.

(** ** The acquisition orchestrator *)

(** An element of the array handed to [JitsiTrackErrors.parseError]: a device
    name, or the one-element array that [splice(0, 1)] returned. *)
Inductive DeviceArg : Type :=
| DevName (name : string)
| DevSplice (device : list string).

(** How a backend capture call ends: it calls the success callback, calls
    the error callback, throws, or never calls back. *)
Inductive Outcome : Type :=
| GSuccess (stream : MediaStream)
| GError (error : Exn)
| GThrow (e : Exn)
| GNoCallback.

Section Orchestrator.

(** [JitsiTrackErrors.parseError] is outside this file: any function from
    the backend error and the device array to the value it returns. *)
Variable TrackError : Type.
Variable parseError : Exn -> list DeviceArg -> TrackError.

Variable env : Env.

(** What a promise is rejected with. *)
Inductive Rejection : Type :=
| RejExn (e : Exn)
| RejTrackError (t : TrackError).

Inductive PromiseState : Type :=
| Pending
| Resolved (tracks : list TrackDescriptor)
| Rejected (reason : Rejection).

(** What the module does to the outside, in order. *)
Inductive Event : Type :=
| EGetUserMedia (constraints : Constraints)
| EObtainStream
| EGetSources
| EEmitAvailableDevicesChanged (snapshot : DeviceAvailability)
| EStopMediaStream (s : MediaStream)
| ETrackStop (t : Track)
| EStreamStop (s : MediaStream)
| ERevokeObjectURL (url : string)
| ELog (msg : string)
| EResolve (tracks : list TrackDescriptor)
| EReject (reason : Rejection)
| EUncaught (e : Exn).

(** The mutable state around one call of the entry point: the availability
    flags, the caller's [options], the promise being built, the answers the
    backend will give to the coming capture calls, and the effects so far. *)
Record World : Type := mkWorld {
  devices : DeviceAvailability;
  w_options : Options;
  promise : PromiseState;
  script : list Outcome;
  trace : list Event
}.

Definition emit (e : Event) : M World unit :=
  modify (fun w => mkWorld (devices w) (w_options w) (promise w) (script w)
                     (trace w ++ [e])).

Definition put_devices (d : DeviceAvailability) : M World unit :=
  modify (fun w => mkWorld d (w_options w) (promise w) (script w) (trace w)).

Definition put_w_options (o : Options) : M World unit :=
  modify (fun w => mkWorld (devices w) o (promise w) (script w) (trace w)).

Definition put_promise (p : PromiseState) : M World unit :=
  modify (fun w => mkWorld (devices w) (w_options w) p (script w) (trace w)).

(** The next answer of the backend; a backend with no answer left never
    calls back. *)
Definition next_outcome : M World Outcome :=
  fun w => match script w with
           | [] => (Ok GNoCallback, w)
           | o :: r => (Ok o, mkWorld (devices w) (w_options w) (promise w) r
                                (trace w))
           end.

(** A callback that the backend runs later: what it throws reaches nobody. *)
Definition async (m : M World unit) : M World unit :=
  fun w => match m w with
           | (Ok _, w') => (Ok tt, w')
           | (Throw e, w') => emit (EUncaught e) w'
           end.

Fixpoint forEach {A} (l : list A) (f : A -> M World unit) : M World unit :=
  match l with
  | [] => ret tt
  | a :: r => f a ;; forEach r f
  end.

Definition resolve (tracks : list TrackDescriptor) : M World unit :=
  emit (EResolve tracks) ;;
  p <- gets promise ;;
  match p with
  | Pending => put_promise (Resolved tracks)
  | _ => ret tt
  end.

Definition reject (reason : Rejection) : M World unit :=
  emit (EReject reason) ;;
  p <- gets promise ;;
  match p with
  | Pending => put_promise (Rejected reason)
  | _ => ret tt
  end.

(** *** The device availability tracker *)

Definition setAvailableDevices (um : list string) (available : bool)
    : M World unit :=
  d <- gets devices ;;
  let d := if negb (indexOf um "video" =? -1)%Z
           then mkDevices (audio_available d) available else d in
  let d := if negb (indexOf um "audio" =? -1)%Z
           then mkDevices available (video_available d) else d in
  put_devices d ;;
  emit (EEmitAvailableDevicesChanged d).

Definition getDeviceAvailability : M World DeviceAvailability := gets devices.

(** *** Stream release *)

Definition stopMediaStream (mediaStream : MediaStream) : M World unit :=
  emit (EStopMediaStream mediaStream) ;;
  forEach (getTracks mediaStream) (fun track =>
    when (negb (isTemasysPluginUsed (browser env)) && track_has_stop env)
      (emit (ETrackStop track))) ;;
  when (stream_has_stop env) (emit (EStreamStop mediaStream)) ;;
  match jitsiObjectURL mediaStream with
  | Some url => when (truthy url) (emit (ERevokeObjectURL url))
  | None => ret tt
  end.

(** *** Capture calls *)

Definition maybe_call (failure_callback : option (Exn -> M World unit))
    (e : Exn) : M World unit :=
  match failure_callback with
  | Some f => f e
  | None => ret tt
  end.

(** The local function [getUM] of [getUserMediaWithConstraints]. The call of
    [this.getUserMedia] sits in a [try]; the two callbacks run later. *)
Definition getUM (um : list string) (constraints : Constraints)
    (success_callback : MediaStream -> M World unit)
    (failure_callback : option (Exn -> M World unit)) : M World unit :=
  emit (EGetUserMedia constraints) ;;
  outcome <- next_outcome ;;
  match outcome with
  | GSuccess stream =>
      async (emit (ELog "onUserMediaSuccess") ;;
             setAvailableDevices um true ;;
             success_callback stream)
  | GError error =>
      async (setAvailableDevices um false ;;
             emit (ELog "Failed to get access to local media. Error ") ;;
             maybe_call failure_callback error)
  | GThrow e =>
      emit (ELog "GUM failed: ") ;;
      maybe_call failure_callback e
  | GNoCallback => ret tt
  end.

(** Modelled from the spec: [screenObtainer.obtainStream] of
    ScreenObtainer.js, which is not in this file; the capture primitive for
    the desktop kind, answering through one of its two callbacks. *)
Definition obtainStream (onSuccess : MediaStream -> M World unit)
    (onFailure : Exn -> M World unit) : M World unit :=
  emit EObtainStream ;;
  outcome <- next_outcome ;;
  match outcome with
  | GSuccess stream => async (onSuccess stream)
  | GError error => async (onFailure error)
  | GThrow e => throw e
  | GNoCallback => ret tt
  end.

(** Runs the builder on the caller's [options], keeping what it assigned
    and what it logged. *)
Definition call_getConstraints (um : list string) : M World Constraints :=
  fun w =>
    let '(r, b) := getConstraints env um (mkBuilder (w_options w) []) in
    (r, mkWorld (devices w) (b_options b) (promise w) (script w)
          (trace w ++ map ELog (b_log b))).

(** The id of the last front-facing video source. *)
Definition front_video_source (infos : list SourceInfo) : option string :=
  fold_left (fun videoSourceId sourceInfo =>
               if (si_kind sourceInfo =? "video")
                  && (si_facing sourceInfo =? "front")
               then Some (si_id sourceInfo) else videoSourceId)
            infos None.

Definition getUserMediaWithConstraints (um : list string)
    (success_callback : MediaStream -> M World unit)
    (failure_callback : option (Exn -> M World unit)) : M World unit :=
  if isReactNative (browser env) then
    emit EGetSources ;;
    async (
      let videoSourceId := front_video_source (sourceInfos env) in
      let constraints :=
        mkConstraints (CBool true)
          (CObj (mkTrackConstraints None (Some [opt_sourceId videoSourceId])
                   None None None))
          None in
      emit (ELog "Get media constraints") ;;
      getUM um constraints success_callback failure_callback)
  else
    constraints <- call_getConstraints um ;;
    getUM um constraints success_callback failure_callback.

(** A capture primitive as [obtainDevices] calls it. *)
Definition CapturePrimitive : Type :=
  (MediaStream -> M World unit) -> (Exn -> M World unit) -> M World unit.

(** [String(device)] for the array that [splice] returned. *)
Definition array_key (device : list string) : string := String.concat "," device.

(** [obtainDevices], by recursion on [options.devices]. [streams] is
    [options.streams], which may be undefined. *)
Fixpoint obtainDevices (devices : list string) (streams : option StreamMap)
    (deviceGUM : string -> option CapturePrimitive)
    (successCallback : StreamMap -> M World unit)
    (errorCallback : TrackError -> M World unit) {struct devices}
    : M World unit :=
  match devices with
  | [] =>
      successCallback (match streams with Some m => m | None => [] end)
  | d :: rest =>
      let device := [d] in
      let devices := [DevSplice device] in
      match deviceGUM (array_key device) with
      | None => throw (TypeError "options.deviceGUM[device] is not a function")
      | Some capture =>
          capture
            (fun stream =>
               let streams := match streams with Some m => m | None => [] end in
               let streams := smap_set (array_key device) stream streams in
               obtainDevices rest (Some streams) deviceGUM successCallback
                 errorCallback)
            (fun error =>
               match streams with
               | None => throw (TypeError "Cannot convert undefined to object")
               | Some m =>
                   forEach (smap_keys m) (fun device =>
                     match smap_get device m with
                     | Some s => stopMediaStream s
                     | None => throw (TypeError "mediaStream is undefined")
                     end) ;;
                   emit (ELog ("failed to obtain " ++ array_key device
                               ++ " stream - stop")) ;;
                   errorCallback (parseError error devices)
               end)
      end
  end.

(** *** The entry point *)

Definition has_tracks_for (devices : list string) (stream : MediaStream)
    : bool :=
  negb ((negb (indexOf devices "audio" =? -1)%Z
         && negb (0 <? length (getAudioTracks stream))%nat)
        || (negb (indexOf devices "video" =? -1)%Z
            && negb (0 <? length (getVideoTracks stream))%nat)).

(** [successCallback] of the executor; it reads [options.resolution] when
    it runs. *)
Definition successCallback (stream : StreamMap) : M World unit :=
  options <- gets w_options ;;
  resolve (handleLocalStream (Some stream) (resolution options)).

(** [GUM.bind(self, device)] *)
Definition GUM (device : list string) : CapturePrimitive :=
  fun s e => getUserMediaWithConstraints device s (Some e).

(** The function found at [deviceGUM[key]], if there is one. The object is
    a literal with [audio] and [video], and with [desktop] when the screen
    obtainer is supported; under any other key it has what a plain object
    inherits. A method of [Object.prototype], called on the object with the
    two callbacks, returns without calling either of them and without an
    exception, and makes no capture call; as no callback runs, the object
    is not indexed again, so what [__defineGetter__] or [__defineSetter__]
    adds to it is never read. [__proto__] holds an object, which cannot be
    called. *)
Definition deviceGUM (key : string) : option CapturePrimitive :=
  if key =? "audio" then Some (GUM ["audio"])
  else if key =? "video" then Some (GUM ["video"])
  else if (key =? "desktop") && screenObtainer_isSupported env
       then Some obtainStream
       else match Object_prototype key with
            | Some InheritedFunction => Some (fun _ _ => ret tt)
            | _ => None
            end.

(** The executor of the promise that [obtainAudioAndVideoPermissions]
    returns. [devices0] is [options.devices] as the caller passed it. *)
Definition executor (devices0 : option (list string)) : M World unit :=
  let devices := match devices0 with Some l => l | None => ["audio"; "video"] end in
  when (negb (screenObtainer_isSupported env)
        && negb (indexOf devices "desktop" =? -1)%Z)
    (reject (RejExn (Error "Desktop sharing is not supported!"))) ;;
  if isFirefox (browser env) || isReactNative (browser env)
     || isTemasysPluginUsed (browser env)
  then
    obtainDevices devices (Some []) deviceGUM successCallback
      (fun err => reject (RejTrackError err))
  else
    let hasDesktop := (indexOf devices "desktop" >? -1)%Z in
    let devices :=
      if hasDesktop then splice1 (Z.to_nat (indexOf devices "desktop")) devices
      else devices in
    options <- gets w_options ;;
    put_w_options (set_resolution (js_or (resolution options) (Some "360")) options) ;;
    if (0 <? length devices)%nat then
      getUserMediaWithConstraints devices
        (fun stream =>
           if negb (has_tracks_for devices stream) then
             stopMediaStream stream ;;
             reject (RejTrackError
                       (parseError (Error "Unable to get the audio and video tracks.")
                          (map DevName devices)))
           else if hasDesktop then
             obtainStream
               (fun desktopStream =>
                  successCallback [("audioVideo", stream);
                                   ("desktopStream", desktopStream)])
               (fun error =>
                  stopMediaStream stream ;;
                  reject (RejTrackError (parseError error (map DevName devices))))
           else successCallback [("audioVideo", stream)])
        (Some (fun error =>
                 reject (RejTrackError (parseError error (map DevName devices)))))
    else if hasDesktop then
      obtainStream
        (fun stream => successCallback [("desktopStream", stream)])
        (fun error =>
           reject (RejTrackError (parseError error [DevName "desktop"])))
    else ret tt.

(** [new Promise(executor)]: an exception that leaves the executor rejects
    the promise if it is still pending. *)
Definition obtainAudioAndVideoPermissions (devices0 : option (list string))
    (w : World) : World :=
  match executor devices0 w with
  | (Ok _, w') => w'
  | (Throw e, w') =>
      match promise w' with
      | Pending => mkWorld (devices w') (w_options w') (Rejected (RejExn e))
                     (script w') (trace w')
      | _ => w'
      end
  end.

End Orchestrator.

Arguments RejExn {TrackError} e.
Arguments Pending {TrackError}.
Arguments Resolved {TrackError} tracks.
Arguments EGetUserMedia {TrackError} constraints.
Arguments EObtainStream {TrackError}.
Arguments EGetSources {TrackError}.
Arguments EEmitAvailableDevicesChanged {TrackError} snapshot.
Arguments EStopMediaStream {TrackError} s.
Arguments ETrackStop {TrackError} t.
Arguments EStreamStop {TrackError} s.
Arguments ERevokeObjectURL {TrackError} url.
Arguments ELog {TrackError} msg.
Arguments EResolve {TrackError} tracks.
Arguments EUncaught {TrackError} e.
Arguments next_outcome {TrackError}.
Arguments deviceGUM {TrackError} env key.
Arguments getDeviceAvailability {TrackError}.

(** ** Sample surroundings *)

(** A table with two labels, for the worked examples. *)
Definition Resolutions_sample (label : string) : option Resolution :=
  if label =? "360" then Some (mkResolution 640 360)
  else if label =? "720" then Some (mkResolution 1280 720)
  else None.

Definition chrome : RTCBrowserType := mkBrowser false false false true false.
Definition firefox : RTCBrowserType := mkBrowser false false true false false.
Definition temasys : RTCBrowserType := mkBrowser false false false false true.
Definition opera : RTCBrowserType := mkBrowser false false false false false.
Definition react_native : RTCBrowserType := mkBrowser false true false false false.
Definition android_chrome : RTCBrowserType := mkBrowser true false false true false.

(** A 1920x1080 screen; [desktop] says whether [screenObtainer] is supported. *)
Definition env_of (b : RTCBrowserType) (desktop : bool) : Env :=
  mkEnv b Resolutions_sample 1920 1080 "screensharing-key" desktop [] true true.

Definition no_options : Options :=
  mkOptions None None None None None None None None None.

(** * Properties *)

Unset Implicit Arguments.

(** ** Arrays of kinds *)

Lemma indexOf_from_existsb (um : list string) (x : string) :
  forall i, (0 <= i)%Z ->
    (indexOf_from i um x >=? 0)%Z = existsb (fun y => y =? x) um.
Proof.
  induction um as [|y r IH]; intros i Hi; simpl.
  - reflexivity.
  - destruct (y =? x).
    + apply Z.geb_le. lia.
    + apply IH. lia.
Qed.

Lemma has_existsb (um : list string) (x : string) :
  has um x = existsb (fun y => y =? x) um.
Proof. unfold has, indexOf. apply indexOf_from_existsb. lia. Qed.

Lemma indexOf_from_range (um : list string) (x : string) :
  forall i, (0 <= i)%Z ->
    indexOf_from i um x = (-1)%Z \/ (i <= indexOf_from i um x)%Z.
Proof.
  induction um as [|y r IH]; intros i Hi; simpl.
  - now left.
  - destruct (y =? x).
    + right. lia.
    + destruct (IH (i + 1)%Z) as [H|H]; [lia | now left | right; lia].
Qed.

(** [indexOf(x) != -1], [indexOf(x) !== -1], [indexOf(x) > -1] and
    [indexOf(x) >= 0] are one test. *)
Lemma indexOf_neq_has (um : list string) (x : string) :
  negb (indexOf um x =? -1)%Z = has um x.
Proof.
  unfold has, indexOf.
  destruct (indexOf_from_range um x 0%Z) as [H|H]; [lia | rewrite H; reflexivity |].
  assert (E : (indexOf_from 0 um x =? -1)%Z = false) by (apply Z.eqb_neq; lia).
  rewrite E. symmetry. apply Z.geb_le. lia.
Qed.

Lemma indexOf_gt_has (um : list string) (x : string) :
  (indexOf um x >? -1)%Z = has um x.
Proof.
  unfold has. rewrite Z.gtb_ltb, Z.geb_leb.
  destruct (Z.ltb_spec (-1) (indexOf um x)); destruct (Z.leb_spec 0 (indexOf um x));
    try reflexivity; lia.
Qed.

Lemma has_without_video (um : list string) (k : string) :
  k <> "video" ->
  has (filter (fun y => negb (y =? "video")) um) k = has um k.
Proof.
  intros Hk. rewrite !has_existsb.
  induction um as [|y r IH]; simpl; [reflexivity|].
  destruct (y =? "video") eqn:Ey; simpl.
  - apply String.eqb_eq in Ey. subst y.
    destruct ("video" =? k) eqn:Ek.
    + apply String.eqb_eq in Ek. congruence.
    + exact IH.
  - now rewrite IH.
Qed.

Lemma has_video_without_video (um : list string) :
  has (filter (fun y => negb (y =? "video")) um) "video" = false.
Proof.
  rewrite has_existsb.
  induction um as [|y r IH]; simpl; [reflexivity|].
  destruct (y =? "video") eqn:Ey; simpl; [exact IH|].
  now rewrite Ey.
Qed.

(** ** The constraint builder, block by block *)

Section BuilderFacts.

Variable env : Env.

Lemma on_video_mandatory_ok (c : Constraints) (t : TrackConstraints)
    (m : Mandatory) (f : Mandatory -> Mandatory) :
  video c = CObj t -> mandatory t = Some m ->
  on_video_mandatory c f = Ok (set_video (CObj (set_mandatory (Some (f m)) t)) c).
Proof. intros Hv Hm. unfold on_video_mandatory. now rewrite Hv, Hm. Qed.

(** The camera block never throws, touches only [video], and leaves an
    object that has both [mandatory] and [optional]. *)
Lemma camera_step_video (um : list string) (o : Options) (c : Constraints) :
  has um "video" = true ->
  exists t l,
    camera_step env um o c = Ok (set_video (CObj t) c)
    /\ mandatory t = Some (resolution_update env (resolution o) empty_mandatory)
    /\ optional t = Some l
    /\ (truthy (cameraDeviceId o) = true ->
        deviceId t = cameraDeviceId o /\ In (opt_sourceId (cameraDeviceId o)) l).
Proof.
  intros Hv. unfold camera_step, setResolutionConstraints. rewrite Hv.
  destruct (truthy (cameraDeviceId o)) eqn:Hc; cbn.
  - eexists; eexists. split; [reflexivity|]. cbn.
    repeat split; auto. now left.
  - eexists; eexists. split; [reflexivity|]. cbn.
    repeat split; auto; discriminate.
Qed.

Lemma camera_step_no_video (um : list string) (o : Options) (c : Constraints) :
  has um "video" = false -> camera_step env um o c = Ok c.
Proof. intros Hv. unfold camera_step. now rewrite Hv. Qed.

Lemma microphone_step_video (um : list string) (o : Options) (c : Constraints) :
  video (microphone_step env um o c) = video c
  /\ fake (microphone_step env um o c) = fake c.
Proof.
  unfold microphone_step.
  destruct (has um "audio"), (isReactNative (browser env)),
    (isFirefox (browser env)), (truthy (micDeviceId o)); cbn; auto.
Qed.

(** The audio field that the microphone block leaves does not depend on the
    video field it was given. *)
Lemma microphone_step_set_video (um : list string) (o : Options)
    (c : Constraints) (v : ConstraintValue) :
  microphone_step env um o (set_video v c)
  = set_video v (microphone_step env um o c).
Proof.
  unfold microphone_step.
  destruct (has um "audio"), (isReactNative (browser env)),
    (isFirefox (browser env)), (truthy (micDeviceId o)); reflexivity.
Qed.

Lemma screen_step_no_screen (um : list string) (c : Constraints) (b : Builder) :
  has um "screen" = false -> screen_step env um c b = (Ok c, b).
Proof. intros H. unfold screen_step. now rewrite H. Qed.

Lemma desktop_step_no_desktop (um : list string) (o : Options) (c : Constraints) :
  has um "desktop" = false -> desktop_step env um o c = c.
Proof. intros H. unfold desktop_step. now rewrite H. Qed.

(** A video field on which the two override blocks cannot throw. *)
Definition overridable (v : ConstraintValue) : Prop :=
  v = CBool false
  \/ exists t m l, v = CObj t /\ mandatory t = Some m /\ optional t = Some l.

Lemma ensure_video_overridable (c : Constraints) :
  overridable (video c) ->
  exists t m l, video (ensure_video c) = CObj t
                /\ mandatory t = Some m /\ optional t = Some l
                /\ audio (ensure_video c) = audio c
                /\ fake (ensure_video c) = fake c.
Proof.
  intros [H | (t & m & l & H & Hm & Hl)]; unfold ensure_video; rewrite H; cbn.
  - exists plain_track, empty_mandatory, []. repeat split.
  - exists t, m, l. rewrite H. repeat split; assumption.
Qed.

Lemma bandwidth_step_overridable (o : Options) (c : Constraints) :
  overridable (video c) ->
  exists c', bandwidth_step o c = Ok c'
             /\ overridable (video c') /\ audio c' = audio c /\ fake c' = fake c.
Proof.
  intros H. unfold bandwidth_step.
  destruct (truthy (bandwidth o)); [|exists c; auto].
  destruct (ensure_video_overridable c H) as (t & m & l & Hv & Hm & Hl & Ha & Hf).
  unfold video_optional_push. rewrite Hv, Hl.
  eexists. split; [reflexivity|]. cbn. repeat split; auto.
  right. eexists; eexists; eexists. split; [reflexivity|]. cbn. split; eauto.
Qed.

Lemma fps_step_overridable (c : Constraints) (b : Builder) :
  overridable (video c) ->
  exists c' b', fps_step c b = (Ok c', b')
                /\ audio c' = audio c /\ fake c' = fake c.
Proof.
  intros H. unfold fps_step, bind, gets, put_options, modify, lift_result, ret.
  destruct (truthy (minFps (b_options b)) || truthy (maxFps (b_options b))
            || truthy (fps (b_options b))); [|eexists; eexists; eauto].
  destruct (ensure_video_overridable c H) as (t & m & l & Hv & Hm & Hl & Ha & Hf).
  destruct (truthy (minFps (b_options b)) || truthy (fps (b_options b))); cbn.
  - rewrite (on_video_mandatory_ok _ _ _ _ Hv Hm). cbn.
    destruct (truthy (maxFps (b_options b))).
    + eexists; eexists. split; [reflexivity|]. cbn. auto.
    + eexists; eexists. split; [reflexivity|]. cbn. auto.
  - destruct (truthy (maxFps (b_options b))).
    + rewrite (on_video_mandatory_ok _ _ _ _ Hv Hm).
      eexists; eexists. split; [reflexivity|]. cbn. auto.
    + eexists; eexists. split; [reflexivity|]. auto.
Qed.

Lemma fake_step_fields (o : Options) (c : Constraints) :
  audio (fake_step env o c) = audio c /\ video (fake_step env o c) = video c.
Proof.
  unfold fake_step.
  destruct (isFirefox (browser env) && truthy (firefox_fake_device o)); auto.
Qed.

(** The builder as the sequence of its blocks. *)
Lemma build_blocks (um : list string) (o : Options) :
  build env um o =
  match camera_step env um o (mkConstraints (CBool false) (CBool false) None) with
  | Throw e => (Throw e, mkBuilder o [])
  | Ok c1 =>
      match screen_step env um (microphone_step env um o c1) (mkBuilder o []) with
      | (Throw e, b3) => (Throw e, b3)
      | (Ok c3, b3) =>
          match bandwidth_step o (desktop_step env um o c3) with
          | Throw e => (Throw e, b3)
          | Ok c5 =>
              match fps_step c5 b3 with
              | (Throw e, b6) => (Throw e, b6)
              | (Ok c6, b6) => (Ok (fake_step env (b_options b6) c6), b6)
              end
          end
      end
  end.
Proof.
  unfold build, getConstraints, bind, gets, lift_result, ret.
  cbn [b_options].
  destruct (camera_step env um o _) as [c1|e]; [|reflexivity].
  destruct (screen_step env um _ _) as [[c3|e] b3]; [|reflexivity].
  destruct (bandwidth_step o _) as [c5|e]; [|reflexivity].
  destruct (fps_step c5 b3) as [[c6|e] b6]; reflexivity.
Qed.

(** Without a screen or desktop kind the builder returns a descriptor. *)
Lemma build_camera_microphone_ok (um : list string) (o : Options) :
  has um "screen" = false -> has um "desktop" = false ->
  exists c b, build env um o = (Ok c, b).
Proof.
  intros Hs Hd. rewrite build_blocks.
  assert (Hc : exists c1, camera_step env um o (mkConstraints (CBool false) (CBool false) None) = Ok c1
                          /\ overridable (video c1)).
  { destruct (has um "video") eqn:Hv.
    - destruct (camera_step_video um o (mkConstraints (CBool false) (CBool false) None) Hv)
        as (t & l & E & Hm & Hl & _).
      eexists. split; [exact E|]. right. exists t. eexists; eexists. cbn. eauto.
    - rewrite (camera_step_no_video _ _ _ Hv). eexists. split; [reflexivity|].
      now left. }
  destruct Hc as (c1 & E1 & Ov). rewrite E1.
  rewrite (screen_step_no_screen _ _ _ Hs), (desktop_step_no_desktop _ _ _ Hd).
  assert (Ov2 : overridable (video (microphone_step env um o c1))).
  { now rewrite (proj1 (microphone_step_video um o c1)). }
  destruct (bandwidth_step_overridable o _ Ov2) as (c5 & E5 & Ov5 & _).
  rewrite E5.
  destruct (fps_step_overridable c5 {| b_options := o; b_log := [] |} Ov5)
    as (c6 & b6 & E6 & _).
  rewrite E6. eauto.
Qed.

End BuilderFacts.

(** ** The builder and malformed combinations *)

(** C4. The claim says the builder returns a descriptor for every combination
    of kinds and options. It does not: on Firefox the screen block stores a
    video object without an [optional] array, and the bandwidth block then
    calls [push] on it, so the builder throws a [TypeError]. *)
Theorem getConstraints_screen_bandwidth_throws (env : Env) (um : list string)
    (o : Options) :
  has um "screen" = true ->
  has um "desktop" = false ->
  isChrome (browser env) = false ->
  isTemasysPluginUsed (browser env) = false ->
  isFirefox (browser env) = true ->
  truthy (bandwidth o) = true ->
  fst (build env um o)
  = Throw (TypeError "constraints.video.optional is undefined").
Proof.
  intros Hs Hd Hc Ht Hf Hb. rewrite build_blocks.
  assert (Hcam : exists c1, camera_step env um o
                   (mkConstraints (CBool false) (CBool false) None) = Ok c1).
  { destruct (has um "video") eqn:Hv.
    - destruct (camera_step_video env um o
                  (mkConstraints (CBool false) (CBool false) None) Hv)
        as (t & l & E & _). eauto.
    - rewrite (camera_step_no_video env um o _ Hv). eauto. }
  destruct Hcam as (c1 & E1). rewrite E1.
  unfold screen_step. rewrite Hs, Hc, Ht, Hf. unfold ret.
  rewrite (desktop_step_no_desktop env um o _ Hd).
  unfold bandwidth_step. rewrite Hb. reflexivity.
Qed.

Lemma getConstraints_screen_bandwidth_throws_witness :
  fst (build (env_of firefox true) ["screen"]
         (mkOptions None (Some 1000%Z) None None None None None None None))
  = Throw (TypeError "constraints.video.optional is undefined").
Proof.
  apply getConstraints_screen_bandwidth_throws; reflexivity.
Defined.

(** The same defect with a frame-rate override on the Temasys plugin, whose
    screen object has no [mandatory]; [options.minFps] was already assigned
    when the exception leaves the builder. *)
Example getConstraints_screen_fps_throws :
  build (env_of temasys true) ["screen"]
    (mkOptions None None (Some 30%Z) None None None None None None)
  = (Throw (TypeError "constraints.video.mandatory is undefined"),
     mkBuilder
       (mkOptions None None (Some 30%Z) (Some 30%Z) None None None None None)
       []).
Proof. reflexivity. Qed.

(** ** Resolution labels *)

Section ResolutionFacts.

Variable env : Env.

Lemma resolution_update_known (label : option string) (m : Mandatory)
    (r : Resolution) :
  Resolutions_at env label = Some (TableEntry r) ->
  width r <> 0%Z -> height r <> 0%Z ->
  let m' := resolution_update env label m in
  minWidth m' = Some (width r) /\ maxWidth m' = Some (width r)
  /\ minHeight m' = Some (height r) /\ maxHeight m' = Some (height r).
Proof.
  intros Hr Hw Hh. unfold resolution_update. rewrite Hr. cbn.
  assert (Tw : truthy (width r) = true).
  { unfold truthy, Truthy_Z. now apply negb_true_iff, Z.eqb_neq. }
  assert (Th : truthy (height r) = true).
  { unfold truthy, Truthy_Z. now apply negb_true_iff, Z.eqb_neq. }
  rewrite Tw. cbn. rewrite Th. cbn. auto.
Qed.

Lemma resolution_update_fallback (label : option string) (m : Mandatory) :
  Resolutions_at env label = None ->
  isAndroid (browser env) = true ->
  let m' := resolution_update env label m in
  minWidth m' = Some 320%Z /\ maxWidth m' = Some 320%Z
  /\ minHeight m' = Some 180%Z /\ maxHeight m' = Some 180%Z
  /\ maxFrameRate m' = Some 15%Z.
Proof.
  intros Hr Ha. unfold resolution_update. rewrite Hr, Ha. cbn. auto.
Qed.

(** A label that finds an inherited member: the minima are assigned
    [undefined], so no maximum follows, and the fallback is not taken. *)
Lemma resolution_update_inherited (label : option string) (m : Mandatory)
    (i : Inherited) :
  Resolutions_at env label = Some (TableInherited i) ->
  let m' := resolution_update env label m in
  minWidth m' = None /\ maxWidth m' = maxWidth m
  /\ minHeight m' = None /\ maxHeight m' = maxHeight m
  /\ maxFrameRate m' = maxFrameRate m.
Proof.
  intros Hr. unfold resolution_update. rewrite Hr. cbn. auto.
Qed.

(** The bandwidth block, on a video object with both sub-fields, only
    appends to [optional]. *)
Lemma bandwidth_step_object (o : Options) (c : Constraints)
    (t : TrackConstraints) (m : Mandatory) (l : list OptEntry) :
  video c = CObj t -> mandatory t = Some m -> optional t = Some l ->
  exists l',
    bandwidth_step o c
    = Ok (set_video (CObj (set_optional (Some (l ++ l')) t)) c).
Proof.
  intros Hv Hm Hl. unfold bandwidth_step.
  destruct (truthy (bandwidth o)).
  - unfold ensure_video, video_optional_push. rewrite Hv. cbn. rewrite Hv, Hl.
    eexists. reflexivity.
  - exists []. rewrite app_nil_r. destruct c as [a v f], t as [tm tl td tz ts].
    cbn in *. subst. reflexivity.
Qed.

(** The frame-rate block, on such an object, only assigns the two frame
    rates in [mandatory]. *)
Lemma fps_step_object (c : Constraints) (b : Builder)
    (t : TrackConstraints) (m : Mandatory) :
  video c = CObj t -> mandatory t = Some m ->
  exists m' b',
    fps_step c b = (Ok (set_video (CObj (set_mandatory (Some m') t)) c), b')
    /\ minWidth m' = minWidth m /\ maxWidth m' = maxWidth m
    /\ minHeight m' = minHeight m /\ maxHeight m' = maxHeight m
    /\ maxFrameRate m'
       = (if truthy (maxFps (b_options b)) then maxFps (b_options b)
          else maxFrameRate m).
Proof.
  intros Hv Hm.
  unfold fps_step, bind, gets, put_options, modify, lift_result, ret.
  assert (Heta : c = set_video (CObj (set_mandatory (Some m) t)) c).
  { destruct c as [a v f], t as [tm tl td tz ts]. cbn in *. subst. reflexivity. }
  assert (He : ensure_video c = c) by (unfold ensure_video; now rewrite Hv).
  destruct (truthy (minFps (b_options b))) eqn:E1;
    destruct (truthy (maxFps (b_options b))) eqn:E2;
    destruct (truthy (fps (b_options b))) eqn:E3; cbn;
    rewrite ?He, ?E2;
    repeat (erewrite on_video_mandatory_ok by (cbn; first [exact Hv | reflexivity | exact Hm]));
    cbn;
    try (eexists; eexists; split; [reflexivity|]; cbn; now auto).
  exists m, b. split; [now rewrite <- Heta|]. auto.
Qed.

End ResolutionFacts.

(** The labels on which the builder does what the spec says. When video
    is requested and no screen or desktop kind replaces the video field, the
    descriptor the builder returns has a video object whose [mandatory]
    holds, for a label that finds an entry of the [Resolutions] table (with
    non-zero dimensions), the table's width and height with the maxima equal
    to the minima, and for a label that finds nothing, on Android, 320x180
    with the maxima equal to the minima and a frame-rate cap (15, or
    [options.maxFps] when given). *)
Theorem resolution_label_exact_size (env : Env) (um : list string) (o : Options) :
  has um "video" = true ->
  has um "screen" = false ->
  has um "desktop" = false ->
  exists c b t m,
    build env um o = (Ok c, b)
    /\ video c = CObj t /\ mandatory t = Some m
    /\ (forall r, Resolutions_at env (resolution o) = Some (TableEntry r) ->
                  width r <> 0%Z -> height r <> 0%Z ->
                  minWidth m = Some (width r) /\ maxWidth m = minWidth m
                  /\ minHeight m = Some (height r) /\ maxHeight m = minHeight m)
    /\ (Resolutions_at env (resolution o) = None ->
        isAndroid (browser env) = true ->
        minWidth m = Some 320%Z /\ maxWidth m = minWidth m
        /\ minHeight m = Some 180%Z /\ maxHeight m = minHeight m
        /\ maxFrameRate m
           = (if truthy (maxFps o) then maxFps o else Some 15%Z)).
Proof.
  intros Hv Hs Hd. rewrite build_blocks.
  destruct (camera_step_video env um o (mkConstraints (CBool false) (CBool false) None) Hv)
    as (t & l & E & Hm & Hl & _).
  rewrite E, (screen_step_no_screen env um _ _ Hs),
    (desktop_step_no_desktop env um o _ Hd).
  rewrite microphone_step_set_video.
  set (c2 := microphone_step env um o _).
  destruct (bandwidth_step_object o (set_video (CObj t) c2) t _ l eq_refl Hm Hl)
    as (l' & E5).
  rewrite E5. cbn [set_video audio video fake].
  match goal with |- context [fps_step ?c ?b] =>
    destruct (fps_step_object c b (set_optional (Some (l ++ l')) t)
                (resolution_update env (resolution o) empty_mandatory)
                eq_refl Hm)
      as (m' & b' & E6 & W1 & W2 & H1 & H2 & F)
  end.
  rewrite E6. cbn [b_options] in F.
  eexists; eexists; eexists; exists m'.
  split; [reflexivity|].
  split; [rewrite (proj2 (fake_step_fields env _ _)); reflexivity|].
  split; [reflexivity|].
  split.
  - intros r Hr Hw Hh.
    destruct (resolution_update_known env (resolution o) empty_mandatory r Hr Hw Hh)
      as (A & B & C & D).
    rewrite W1, W2, H1, H2, A, B, C, D. auto.
  - intros Hr Ha.
    destruct (resolution_update_fallback env (resolution o) empty_mandatory Hr Ha)
      as (A & B & C & D & G).
    rewrite W1, W2, H1, H2, F, A, B, C, D, G. auto.
Qed.

Lemma resolution_label_exact_size_witness :
  exists c b t m,
    build (env_of android_chrome true) ["video"]
      (mkOptions (Some "360") None None None None None None None None)
    = (Ok c, b)
    /\ video c = CObj t /\ mandatory t = Some m
    /\ (forall r, Resolutions_at (env_of android_chrome true) (Some "360")
                  = Some (TableEntry r) ->
                  width r <> 0%Z -> height r <> 0%Z ->
                  minWidth m = Some (width r) /\ maxWidth m = minWidth m
                  /\ minHeight m = Some (height r) /\ maxHeight m = minHeight m)
    /\ (Resolutions_at (env_of android_chrome true) (Some "360") = None ->
        isAndroid (browser (env_of android_chrome true)) = true ->
        minWidth m = Some 320%Z /\ maxWidth m = minWidth m
        /\ minHeight m = Some 180%Z /\ maxHeight m = minHeight m
        /\ maxFrameRate m = Some 15%Z).
Proof.
  apply (resolution_label_exact_size (env_of android_chrome true) ["video"]
           (mkOptions (Some "360") None None None None None None None None));
    reflexivity.
Defined.

(** C5. The claim fails in the code for a label that names a member the
    [Resolutions] table inherits, such as "constructor": the lookup
    [Resolutions[resolution]] finds the member, which is truthy, so the
    fallback of Android is not taken, and the member has neither [width]
    nor [height]. When video is requested and no screen or desktop kind
    replaces the video field, the descriptor then has a video object that
    constrains no size at all, on Android as on every other backend; its
    only frame-rate cap is [options.maxFps]. *)
Theorem inherited_label_unconstrained (env : Env) (um : list string)
    (o : Options) (i : Inherited) :
  has um "video" = true ->
  has um "screen" = false ->
  has um "desktop" = false ->
  Resolutions_at env (resolution o) = Some (TableInherited i) ->
  exists c b t m,
    build env um o = (Ok c, b)
    /\ video c = CObj t /\ mandatory t = Some m
    /\ minWidth m = None /\ maxWidth m = None
    /\ minHeight m = None /\ maxHeight m = None
    /\ maxFrameRate m = (if truthy (maxFps o) then maxFps o else None).
Proof.
  intros Hv Hs Hd Hr. rewrite build_blocks.
  destruct (camera_step_video env um o (mkConstraints (CBool false) (CBool false) None) Hv)
    as (t & l & E & Hm & Hl & _).
  rewrite E, (screen_step_no_screen env um _ _ Hs),
    (desktop_step_no_desktop env um o _ Hd).
  rewrite microphone_step_set_video.
  set (c2 := microphone_step env um o _).
  destruct (bandwidth_step_object o (set_video (CObj t) c2) t _ l eq_refl Hm Hl)
    as (l' & E5).
  rewrite E5. cbn [set_video audio video fake].
  match goal with |- context [fps_step ?c ?b] =>
    destruct (fps_step_object c b (set_optional (Some (l ++ l')) t)
                (resolution_update env (resolution o) empty_mandatory)
                eq_refl Hm)
      as (m' & b' & E6 & W1 & W2 & H1 & H2 & F)
  end.
  rewrite E6. cbn [b_options] in F.
  destruct (resolution_update_inherited env (resolution o) empty_mandatory i Hr)
    as (A & B & C & D & G).
  eexists; eexists; eexists; exists m'.
  split; [reflexivity|].
  split; [rewrite (proj2 (fake_step_fields env _ _)); reflexivity|].
  split; [reflexivity|].
  rewrite W1, W2, H1, H2, F, A, B, C, D, G. cbn. auto.
Qed.

Lemma inherited_label_unconstrained_witness :
  exists c b t m,
    build (env_of android_chrome true) ["video"]
      (mkOptions (Some "constructor") None None None None None None None None)
    = (Ok c, b)
    /\ video c = CObj t /\ mandatory t = Some m
    /\ minWidth m = None /\ maxWidth m = None
    /\ minHeight m = None /\ maxHeight m = None
    /\ maxFrameRate m = None.
Proof.
  apply (inherited_label_unconstrained (env_of android_chrome true) ["video"]
           (mkOptions (Some "constructor") None None None None None None None
              None) InheritedFunction);
    reflexivity.
Defined.

(** The descriptor of that request on Android, beside the one of a label
    that finds nothing. *)
Example resolution_constructor_android :
  fst (build (env_of android_chrome true) ["video"]
         (mkOptions (Some "constructor") None None None None None None None None))
  = Ok (mkConstraints (CBool false)
          (CObj (mkTrackConstraints (Some empty_mandatory)
                   (Some [opt_flag "googLeakyBucket" true]) None None None))
          None).
Proof. reflexivity. Qed.

(** Two cases on the sample table: "360" is 640x360, and a label that
    finds nothing falls back to 320x180 at 15 frames on Android. *)
Example resolution_360 :
  fst (build (env_of chrome true) ["video"]
         (mkOptions (Some "360") None None None None None None None None))
  = Ok (mkConstraints (CBool false)
          (CObj (mkTrackConstraints
                   (Some (mkMandatory (Some 640%Z) (Some 360%Z) (Some 640%Z)
                            (Some 360%Z) None None None None None))
                   (Some [opt_flag "googLeakyBucket" true]) None None None))
          None).
Proof. reflexivity. Qed.

Example resolution_unknown_android :
  fst (build (env_of android_chrome true) ["video"]
         (mkOptions (Some "4k") None None None None None None None None))
  = Ok (mkConstraints (CBool false)
          (CObj (mkTrackConstraints
                   (Some (mkMandatory (Some 320%Z) (Some 180%Z) (Some 320%Z)
                            (Some 180%Z) None (Some 15%Z) None None None))
                   (Some [opt_flag "googLeakyBucket" true]) None None None))
          None).
Proof. reflexivity. Qed.

(** Runs the builder in a goal [exists c b, build ... = (Ok c, b) /\ _]. *)
Ltac run_build :=
  match goal with
  | |- exists c b, ?lhs = (Ok c, b) /\ _ =>
      let r := eval vm_compute in lhs in
      match r with
      | (Ok ?c, ?b) => exists c, b; split; [reflexivity|]
      end
  end.

(** ** Preferred device identifiers *)

(** A constraint that carries [id] in both forms: the [deviceId] field and a
    [{sourceId: id}] element of [optional]. *)
Definition carries_device_id (v : ConstraintValue) (id : string) : Prop :=
  exists t l, v = CObj t /\ deviceId t = Some id
              /\ optional t = Some l /\ In (opt_sourceId (Some id)) l.

Section DeviceIdFacts.

Variable env : Env.

Lemma on_video_mandatory_fields (c c' : Constraints) (f : Mandatory -> Mandatory) :
  on_video_mandatory c f = Ok c' ->
  audio c' = audio c
  /\ forall id, carries_device_id (video c) id -> carries_device_id (video c') id.
Proof.
  unfold on_video_mandatory. intros H.
  destruct (video c) as [bv|t] eqn:Hv; [discriminate|].
  destruct (mandatory t) as [m|]; [|discriminate].
  injection H as <-. cbn. split; [reflexivity|].
  intros id (t0 & l & E & Hd & Hl & Hin). injection E as <-.
  exists (set_mandatory (Some (f m)) t), l. cbn. auto.
Qed.

Lemma ensure_video_fields (c : Constraints) :
  audio (ensure_video c) = audio c
  /\ forall id, carries_device_id (video c) id ->
                carries_device_id (video (ensure_video c)) id.
Proof.
  unfold ensure_video. destruct (truthy (video c)) eqn:E; cbn; auto.
  split; [reflexivity|]. intros id (t & l & Hv & _). rewrite Hv in E. discriminate.
Qed.

Lemma bandwidth_step_fields (o : Options) (c c' : Constraints) :
  bandwidth_step o c = Ok c' ->
  audio c' = audio c
  /\ forall id, carries_device_id (video c) id -> carries_device_id (video c') id.
Proof.
  unfold bandwidth_step. destruct (truthy (bandwidth o)).
  - unfold video_optional_push. intros H.
    destruct (ensure_video_fields c) as (Ha & Hc).
    destruct (video (ensure_video c)) as [bv|t] eqn:Hv; [discriminate|].
    destruct (optional t) as [l|] eqn:Hl; [|discriminate].
    injection H as <-. cbn. split; [exact Ha|].
    intros id Hid. destruct (Hc id Hid) as (t0 & l0 & E & Hd & Hl0 & Hin).
    injection E as <-. rewrite Hl in Hl0. injection Hl0 as <-.
    eexists; eexists. split; [reflexivity|]. cbn.
    split; [exact Hd|]. split; [reflexivity|]. apply in_or_app. now left.
  - intros H. injection H as <-. auto.
Qed.

Lemma fps_step_fields (c c' : Constraints) (b b' : Builder) :
  fps_step c b = (Ok c', b') ->
  audio c' = audio c
  /\ forall id, carries_device_id (video c) id -> carries_device_id (video c') id.
Proof.
  unfold fps_step, bind, gets, put_options, modify, lift_result, ret.
  destruct (ensure_video_fields c) as (Ha & Hc).
  destruct (truthy (minFps (b_options b)) || truthy (maxFps (b_options b))
            || truthy (fps (b_options b)));
    [|intros H; injection H as <- <-; now auto].
  destruct (truthy (minFps (b_options b)) || truthy (fps (b_options b))); cbn.
  - destruct (on_video_mandatory (ensure_video c) _) as [c1|e] eqn:E1;
      [|discriminate].
    destruct (on_video_mandatory_fields _ _ _ E1) as (A1 & C1).
    destruct (truthy (maxFps (b_options b))).
    + destruct (on_video_mandatory c1 _) as [c2|e] eqn:E2; [|discriminate].
      destruct (on_video_mandatory_fields _ _ _ E2) as (A2 & C2).
      intros H. injection H as <- <-. split; [congruence | now auto].
    + intros H. injection H as <- <-. split; [congruence | now auto].
  - destruct (truthy (maxFps (b_options b))).
    + destruct (on_video_mandatory (ensure_video c) _) as [c1|e] eqn:E1;
        [|discriminate].
      destruct (on_video_mandatory_fields _ _ _ E1) as (A1 & C1).
      intros H. injection H as <- <-. split; [congruence | now auto].
    + intros H. injection H as <- <-. now auto.
Qed.

Lemma screen_step_audio (um : list string) (c c' : Constraints) (b b' : Builder) :
  screen_step env um c b = (Ok c', b') -> audio c' = audio c.
Proof.
  unfold screen_step, bind, logger_error, modify, ret.
  destruct (has um "screen"), (isChrome (browser env)),
    (isTemasysPluginUsed (browser env)), (isFirefox (browser env));
    intros H; injection H as <- _; reflexivity.
Qed.

(** On a browser with no screen vocabulary the screen block only logs. *)
Lemma screen_step_kept (um : list string) (c : Constraints) (b : Builder) :
  has um "screen" = false
  \/ (isChrome (browser env) = false
      /\ isTemasysPluginUsed (browser env) = false
      /\ isFirefox (browser env) = false) ->
  exists b', screen_step env um c b = (Ok c, b').
Proof.
  unfold screen_step, bind, logger_error, modify, ret.
  intros [H | (Hc & Ht & Hf)].
  - rewrite H. eauto.
  - rewrite Hc, Ht, Hf. destruct (has um "screen"); eauto.
Qed.

Lemma desktop_step_audio (um : list string) (o : Options) (c : Constraints) :
  audio (desktop_step env um o c) = audio c.
Proof. unfold desktop_step. destruct (has um "desktop"); reflexivity. Qed.

Lemma microphone_step_carries (um : list string) (o : Options)
    (c : Constraints) (id : string) :
  has um "audio" = true ->
  micDeviceId o = Some id -> id <> "" ->
  isReactNative (browser env) = false ->
  carries_device_id (audio (microphone_step env um o c)) id.
Proof.
  intros Ha Hm Hid Hrn. unfold microphone_step. rewrite Ha, Hrn, Hm.
  assert (T : truthy (Some id) = true).
  { cbn. unfold truthy, Truthy_string. now apply negb_true_iff, String.eqb_neq. }
  rewrite T. destruct (isFirefox (browser env)); cbn.
  - eexists; eexists. split; [reflexivity|]. cbn. repeat split. now left.
  - eexists; eexists. split; [reflexivity|]. cbn. repeat split. now left.
Qed.

End DeviceIdFacts.

(** C7, as the claim states it, fails on React Native: the audio constraint
    is the boolean [true] and the microphone identifier is dropped; and it
    fails for the camera when a desktop kind replaces the video field. *)
Lemma device_id_dropped :
  (exists c b,
     build (env_of react_native true) ["audio"]
       (mkOptions None None None None None None None (Some "mic-1") None)
     = (Ok c, b)
     /\ audio c = CBool true
     /\ ~ carries_device_id (audio c) "mic-1")
  /\ (exists c b,
        build (env_of chrome true) ["video"; "desktop"]
          (mkOptions None None None None None (Some "src") (Some "cam-1") None None)
        = (Ok c, b)
        /\ video c = CObj (chrome_capture (env_of chrome true) "desktop" (Some "src"))
        /\ ~ carries_device_id (video c) "cam-1").
Proof.
  split.
  - run_build. split; [reflexivity|].
    intros (t & l & E & _). discriminate.
  - run_build. split; [reflexivity|].
    intros (t & l & E & Hd & _). injection E as <-. discriminate.
Qed.

(** C7, amended. Whenever the builder returns a descriptor: a non-empty
    microphone identifier is carried by the audio constraint in both forms
    on every browser except React Native; a non-empty camera identifier is
    carried by the video constraint in both forms when no desktop kind, and
    no screen kind on a browser with a screen vocabulary, replaces the video
    field. *)
Theorem device_id_in_both_forms (env : Env) (um : list string) (o : Options)
    (c : Constraints) (b : Builder) (id : string) :
  build env um o = (Ok c, b) ->
  id <> "" ->
  (has um "audio" = true ->
   micDeviceId o = Some id ->
   isReactNative (browser env) = false ->
   carries_device_id (audio c) id)
  /\ (has um "video" = true ->
      cameraDeviceId o = Some id ->
      has um "desktop" = false ->
      has um "screen" = false
      \/ (isChrome (browser env) = false
          /\ isTemasysPluginUsed (browser env) = false
          /\ isFirefox (browser env) = false) ->
      carries_device_id (video c) id).
Proof.
  rewrite build_blocks. intros H Hid.
  destruct (camera_step env um o _) as [c1|e] eqn:E1; [|discriminate].
  destruct (screen_step env um _ _) as [[c3|e] b3] eqn:E3; [|discriminate].
  destruct (bandwidth_step o _) as [c5|e] eqn:E5; [|discriminate].
  destruct (fps_step c5 b3) as [[c6|e] b6] eqn:E6; [|discriminate].
  injection H as <- <-.
  destruct (fake_step_fields env (b_options b6) c6) as (Fa & Fv).
  destruct (fps_step_fields _ _ _ _ E6) as (A6 & C6).
  destruct (bandwidth_step_fields _ _ _ E5) as (A5 & C5).
  split.
  - intros Ha Hm Hrn.
    rewrite Fa, A6, A5, desktop_step_audio, (screen_step_audio env _ _ _ _ _ E3).
    now apply microphone_step_carries.
  - intros Hv Hcam Hd Hs.
    rewrite Fv. apply C6, C5.
    rewrite (desktop_step_no_desktop env um o _ Hd).
    destruct (screen_step_kept env um (microphone_step env um o c1)
                (mkBuilder o []) Hs) as (b' & E3').
    rewrite E3' in E3. injection E3 as <- _.
    rewrite (proj1 (microphone_step_video env um o c1)).
    destruct (camera_step_video env um o
                (mkConstraints (CBool false) (CBool false) None) Hv)
      as (t & l & E & _ & Hl & Hc).
    rewrite E in E1. injection E1 as <-. cbn.
    assert (T : truthy (cameraDeviceId o) = true).
    { rewrite Hcam. cbn. unfold truthy, Truthy_string.
      now apply negb_true_iff, String.eqb_neq. }
    destruct (Hc T) as (Hd' & Hin). rewrite Hcam in Hd', Hin.
    exists t, l. auto.
Qed.

Lemma device_id_in_both_forms_witness :
  exists c b,
    build (env_of firefox true) ["audio"; "video"]
      (mkOptions None None None None None None (Some "cam-1") (Some "mic-1") None)
    = (Ok c, b)
    /\ carries_device_id (audio c) "mic-1"
    /\ carries_device_id (video c) "cam-1".
Proof.
  pose (o := mkOptions None None None None None None (Some "cam-1")
               (Some "mic-1") None).
  let r := eval vm_compute in (build (env_of firefox true) ["audio"; "video"] o) in
  match r with
  | (Ok ?c, ?b) =>
      exists c, b; split; [reflexivity|]; split;
      [ apply (proj1 (device_id_in_both_forms (env_of firefox true)
                        ["audio"; "video"] o c b "mic-1" eq_refl
                        ltac:(discriminate)));
        reflexivity
      | apply (proj2 (device_id_in_both_forms (env_of firefox true)
                        ["audio"; "video"] o c b "cam-1" eq_refl
                        ltac:(discriminate)));
        [reflexivity | reflexivity | reflexivity | left; reflexivity] ]
  end.
Defined.

(** ** Purity and idempotence *)

(** The bandwidth block throws: the video object of a Firefox screen
    capture has no [optional] to push to. *)
Definition bandwidth_block_throws (env : Env) (um : list string) (o : Options)
    : bool :=
  has um "screen" && negb (has um "desktop")
  && negb (isChrome (browser env)) && negb (isTemasysPluginUsed (browser env))
  && isFirefox (browser env) && truthy (bandwidth o).

(** The call reaches the assignment of [options.minFps] and the
    assignment changes the record. *)
Definition assigns_minFps (env : Env) (um : list string) (o : Options) : bool :=
  negb (bandwidth_block_throws env um o)
  && (truthy (fps o) && negb (truthy (minFps o))).

(** The screen block finds no screen vocabulary and logs its error. *)
Definition logs_screen_error (env : Env) (um : list string) : bool :=
  has um "screen" && negb (isChrome (browser env))
  && negb (isTemasysPluginUsed (browser env)) && negb (isFirefox (browser env)).

Section PurityFacts.

Variable env : Env.

(** No block before the frame-rate block reads [options.minFps]. *)
Lemma camera_step_minFps (um : list string) (o : Options) (v : option Z)
    (c : Constraints) :
  camera_step env um (set_minFps v o) c = camera_step env um o c.
Proof. reflexivity. Qed.

Lemma microphone_step_minFps (um : list string) (o : Options) (v : option Z)
    (c : Constraints) :
  microphone_step env um (set_minFps v o) c = microphone_step env um o c.
Proof. reflexivity. Qed.

Lemma desktop_step_minFps (um : list string) (o : Options) (v : option Z)
    (c : Constraints) :
  desktop_step env um (set_minFps v o) c = desktop_step env um o c.
Proof. reflexivity. Qed.

Lemma bandwidth_step_minFps (o : Options) (v : option Z) (c : Constraints) :
  bandwidth_step (set_minFps v o) c = bandwidth_step o c.
Proof. reflexivity. Qed.

(** The screen block leaves [options] alone and logs at most one line. *)
Lemma screen_step_builder (um : list string) (c : Constraints) :
  exists r lg,
    (forall o', screen_step env um c (mkBuilder o' []) = (r, mkBuilder o' lg))
    /\ (lg = [] \/ lg = [screen_unsupported_msg]).
Proof.
  unfold screen_step, bind, logger_error, modify, ret.
  destruct (has um "screen"), (isChrome (browser env)),
    (isTemasysPluginUsed (browser env)), (isFirefox (browser env));
    cbn [b_log b_options app];
    eexists; eexists; (split; [intros o'; reflexivity | auto]).
Qed.

Lemma truthy_js_or_left (a b : option Z) :
  truthy a = true -> js_or a b = a.
Proof. intros H. unfold js_or. now rewrite H. Qed.

Lemma options_eta_minFps (o : Options) : set_minFps (minFps o) o = o.
Proof. destruct o. reflexivity. Qed.

(** The frame-rate block without the monad. *)
Lemma fps_step_eq (c : Constraints) (o : Options) (lg : list string) :
  fps_step c (mkBuilder o lg) =
  if truthy (minFps o) || truthy (maxFps o) || truthy (fps o) then
    if truthy (minFps o) || truthy (fps o) then
      let v := js_or (minFps o) (fps o) in
      match on_video_mandatory (ensure_video c) (set_minFrameRate v) with
      | Throw e => (Throw e, mkBuilder (set_minFps v o) lg)
      | Ok c2 =>
          if truthy (maxFps o)
          then (on_video_mandatory c2 (set_maxFrameRate (maxFps o)),
                mkBuilder (set_minFps v o) lg)
          else (Ok c2, mkBuilder (set_minFps v o) lg)
      end
    else
      if truthy (maxFps o)
      then (on_video_mandatory (ensure_video c) (set_maxFrameRate (maxFps o)),
            mkBuilder o lg)
      else (Ok (ensure_video c), mkBuilder o lg)
  else (Ok c, mkBuilder o lg).
Proof.
  unfold fps_step, bind, gets, put_options, modify, lift_result, ret.
  cbn [b_options b_log].
  destruct (truthy (minFps o) || truthy (maxFps o) || truthy (fps o));
    [|reflexivity].
  destruct (truthy (minFps o) || truthy (fps o)).
  - cbn [b_options b_log minFps maxFps set_minFps].
    destruct (on_video_mandatory (ensure_video c) _); [|reflexivity].
    destruct (truthy (maxFps o)); reflexivity.
  - cbn [b_options b_log]. destruct (truthy (maxFps o)); reflexivity.
Qed.

(** The frame-rate block leaves [options] as a second run would: it changes
    at most [minFps], to the value that a second run computes again, and it
    returns the same on the record it left. *)
Lemma fps_step_again (c : Constraints) (o : Options) (lg : list string) :
  exists r o',
    fps_step c (mkBuilder o lg) = (r, mkBuilder o' lg)
    /\ fps_step c (mkBuilder o' lg) = (r, mkBuilder o' lg)
    /\ (o' = o
        \/ (truthy (minFps o) = false /\ truthy (fps o) = true
            /\ o' = set_minFps (fps o) o)).
Proof.
  destruct (truthy (minFps o)) eqn:E1.
  - exists (fst (fps_step c (mkBuilder o lg))), o.
    assert (E : fps_step c (mkBuilder o lg)
                = (fst (fps_step c (mkBuilder o lg)), mkBuilder o lg)).
    { rewrite fps_step_eq, E1. cbn [orb].
      rewrite (truthy_js_or_left _ (fps o) E1), options_eta_minFps.
      destruct (on_video_mandatory _ _); [|reflexivity].
      destruct (truthy (maxFps o)); reflexivity. }
    split; [exact E|]. split; [exact E | now left].
  - destruct (truthy (fps o)) eqn:E3.
    + assert (J : js_or (minFps o) (fps o) = fps o)
        by (unfold js_or; now rewrite E1).
      exists (fst (fps_step c (mkBuilder o lg))), (set_minFps (fps o) o).
      assert (E : fps_step c (mkBuilder o lg)
                  = (fst (fps_step c (mkBuilder o lg)),
                     mkBuilder (set_minFps (fps o) o) lg)).
      { rewrite fps_step_eq, E1, E3, orb_true_r. cbn [orb]. rewrite J.
        destruct (on_video_mandatory _ _); [|reflexivity].
        destruct (truthy (maxFps o)); reflexivity. }
      assert (E' : fps_step c (mkBuilder (set_minFps (fps o) o) lg)
                   = fps_step c (mkBuilder o lg)).
      { rewrite !fps_step_eq. cbn [minFps maxFps fps set_minFps].
        rewrite E1, E3, !orb_true_r. cbn [orb].
        rewrite J, (truthy_js_or_left _ (fps o) E3). reflexivity. }
      split; [exact E|]. split; [|right; auto].
      rewrite E'. exact E.
    + exists (fst (fps_step c (mkBuilder o lg))), o.
      assert (E : fps_step c (mkBuilder o lg)
                  = (fst (fps_step c (mkBuilder o lg)), mkBuilder o lg)).
      { rewrite fps_step_eq, E1, E3, orb_false_r. cbn [orb].
        destruct (truthy (maxFps o)); reflexivity. }
      split; [exact E|]. split; [exact E | now left].
Qed.

(** One call and a second call on the record the first call left. *)
Lemma build_again (um : list string) (o : Options) :
  exists r o' lg,
    build env um o = (r, mkBuilder o' lg)
    /\ build env um o' = (r, mkBuilder o' lg)
    /\ (o' = o
        \/ (truthy (minFps o) = false /\ truthy (fps o) = true
            /\ o' = set_minFps (fps o) o))
    /\ (lg = [] \/ lg = [screen_unsupported_msg]).
Proof.
  rewrite build_blocks.
  destruct (camera_step env um o _) as [c1|e] eqn:E1.
  - destruct (screen_step_builder um (microphone_step env um o c1))
      as (r3 & lg & E3 & Hlg).
    rewrite (E3 o). destruct r3 as [c3|e].
    + destruct (bandwidth_step o (desktop_step env um o c3)) as [c5|e] eqn:E5.
      * destruct (fps_step_again c5 o lg) as (r6 & o' & F1 & F2 & Ho').
        rewrite F1.
        exists (match r6 with
                | Ok c6 => Ok (fake_step env o' c6)
                | Throw e => Throw e
                end), o', lg.
        split; [destruct r6; reflexivity|].
        split; [|auto].
        rewrite build_blocks.
        assert (Hs : o' = set_minFps (minFps o') o).
        { destruct Ho' as [-> | (_ & _ & ->)];
            [symmetry; apply options_eta_minFps | reflexivity]. }
        assert (Ec : forall c, camera_step env um o' c = camera_step env um o c)
          by (intros c; rewrite Hs; apply camera_step_minFps).
        assert (Em : forall c, microphone_step env um o' c
                               = microphone_step env um o c)
          by (intros c; rewrite Hs; apply microphone_step_minFps).
        assert (Ed : forall c, desktop_step env um o' c = desktop_step env um o c)
          by (intros c; rewrite Hs; apply desktop_step_minFps).
        assert (Eb : forall c, bandwidth_step o' c = bandwidth_step o c)
          by (intros c; rewrite Hs; apply bandwidth_step_minFps).
        rewrite Ec, E1, Em, (E3 o'), Ed, Eb, E5, F2.
        destruct r6; reflexivity.
      * exists (Throw e), o, lg. split; [reflexivity|]. split; [|auto].
        rewrite build_blocks, E1, (E3 o), E5. reflexivity.
    + exists (Throw e), o, lg. split; [reflexivity|]. split; [|auto].
      rewrite build_blocks, E1, (E3 o). reflexivity.
  - exists (Throw e), o, []. split; [reflexivity|]. split; [|auto].
    rewrite build_blocks, E1. reflexivity.
Qed.

(** The record after the frame-rate block, whether the block throws or
    not. *)
Lemma fps_step_options (c : Constraints) (o : Options) (lg : list string) :
  snd (fps_step c (mkBuilder o lg))
  = mkBuilder (if truthy (fps o) && negb (truthy (minFps o))
               then set_minFps (fps o) o else o) lg.
Proof.
  rewrite fps_step_eq. unfold js_or.
  destruct (truthy (minFps o)) eqn:E1, (truthy (maxFps o)) eqn:E2,
    (truthy (fps o)) eqn:E3; cbn [orb andb negb]; cbv zeta;
    rewrite ?options_eta_minFps;
    repeat match goal with
           | |- context [match ?x with Ok _ => _ | Throw _ => _ end] =>
               destruct x
           end; reflexivity.
Qed.

(** What a call leaves behind: the record and the log. *)
Lemma build_effects (um : list string) (o : Options) :
  snd (build env um o)
  = mkBuilder (if assigns_minFps env um o then set_minFps (fps o) o else o)
      (if logs_screen_error env um then [screen_unsupported_msg] else []).
Proof.
  rewrite build_blocks.
  assert (Hc : exists c1,
             camera_step env um o (mkConstraints (CBool false) (CBool false) None)
             = Ok c1 /\ overridable (video c1)).
  { destruct (has um "video") eqn:Hv.
    - destruct (camera_step_video env um o
                  (mkConstraints (CBool false) (CBool false) None) Hv)
        as (t & l & E & Hm & Hl & _).
      eexists. split; [exact E|]. right. exists t. eexists; eexists. cbn. eauto.
    - rewrite (camera_step_no_video env um o _ Hv). eexists.
      split; [reflexivity | now left]. }
  destruct Hc as (c1 & E1 & Ov). rewrite E1.
  assert (Ov2 : overridable (video (microphone_step env um o c1)))
    by now rewrite (proj1 (microphone_step_video env um o c1)).
  set (c2 := microphone_step env um o c1) in *.
  assert (Hfin : forall c4 lg,
             (exists c5, bandwidth_step o c4 = Ok c5) ->
             snd (match bandwidth_step o c4 with
                  | Throw e => (Throw e, mkBuilder o lg)
                  | Ok c5 =>
                      match fps_step c5 (mkBuilder o lg) with
                      | (Throw e, b6) => (Throw e, b6)
                      | (Ok c6, b6) => (Ok (fake_step env (b_options b6) c6), b6)
                      end
                  end)
             = mkBuilder (if truthy (fps o) && negb (truthy (minFps o))
                          then set_minFps (fps o) o else o) lg).
  { intros c4 lg (c5 & E). rewrite E.
    pose proof (fps_step_options c5 o lg) as H.
    destruct (fps_step c5 _) as [[c6|e] b6]; exact H. }
  assert (Hov : forall c4, overridable (video c4) ->
                  exists c5, bandwidth_step o c4 = Ok c5).
  { intros c4 H. destruct (bandwidth_step_overridable o c4 H) as (c5 & E5 & _).
    eauto. }
  assert (Hcap : forall source id c,
             overridable
               (video (set_video (CObj (chrome_capture env source id)) c))).
  { intros source id c. right. eexists; eexists; eexists. cbn.
    split; [reflexivity|]. split; reflexivity. }
  unfold assigns_minFps, bandwidth_block_throws, logs_screen_error,
    screen_step, desktop_step, bind, logger_error, modify, ret.
  destruct (has um "screen"), (isChrome (browser env)),
    (isTemasysPluginUsed (browser env)), (isFirefox (browser env)),
    (has um "desktop");
    cbn [andb negb orb b_options b_log app];
    try (apply Hfin, Hov; first [apply Hcap | exact Ov2]).
  all: unfold bandwidth_step.
  all: destruct (truthy (bandwidth o)) eqn:Eb; cbn [andb negb].
  all: cbn [ensure_video video_optional_push set_video video truthy
            Truthy_ConstraintValue negb optional snd].
  all: try reflexivity.
  all: match goal with |- context [fps_step ?c5 ?b] =>
         pose proof (fps_step_options c5 o (b_log b)) as H;
         cbn [b_log] in H;
         destruct (fps_step c5 b) as [[c6|e] b6]; exact H
       end.
Qed.

End PurityFacts.

(** C9, as the claim states it, fails: a call with [fps] and no [minFps]
    assigns [options.minFps], so the builder changes the record it was
    given. *)
Lemma getConstraints_mutates_options :
  b_options
    (snd (build (env_of chrome true) ["video"]
            (mkOptions None None (Some 30%Z) None None None None None None)))
  = mkOptions None None (Some 30%Z) (Some 30%Z) None None None None None
  /\ b_options
       (snd (build (env_of chrome true) ["video"]
               (mkOptions None None (Some 30%Z) None None None None None None)))
     <> mkOptions None None (Some 30%Z) None None None None None None.
Proof. split; [reflexivity | discriminate]. Qed.

(** C9, amended. The builder is deterministic and idempotent: a second call
    on the same kinds and on the options record as the first call left it
    returns (or throws) the same, leaves the record as it found it and logs
    the same. The builder is not free of effects, and these are all of
    them: it assigns [options.fps] to [options.minFps] exactly when [fps] is
    truthy, [minFps] is not, and the call gets as far as the frame-rate
    block, which it does unless the bandwidth block throws before (a screen
    kind without a desktop kind on Firefox, with [options.bandwidth]); the
    assignment stays when the frame-rate block throws after it. It logs one
    error line exactly for a screen kind on a backend that is neither
    Chrome, nor the Temasys plugin, nor Firefox. *)
Theorem getConstraints_idempotent (env : Env) (um : list string) (o : Options) :
  build env um (b_options (snd (build env um o))) = build env um o
  /\ b_options (snd (build env um o))
     = (if assigns_minFps env um o then set_minFps (fps o) o else o)
  /\ b_log (snd (build env um o))
     = (if logs_screen_error env um then [screen_unsupported_msg] else []).
Proof.
  destruct (build_again env um o) as (r & o' & lg & E & E' & _ & _).
  split; [rewrite E; cbn [snd b_options]; now rewrite E'|].
  rewrite (build_effects env um o). split; reflexivity.
Qed.

(** The two ways past the assignment: on Firefox a screen request with
    [bandwidth] throws in the bandwidth block and leaves [options] as they
    were; with the Temasys plugin the frame-rate block throws after it has
    assigned [options.minFps]. *)
Example minFps_assignment_and_throws :
  build (env_of firefox true) ["screen"]
    (mkOptions None (Some 1000%Z) (Some 30%Z) None None None None None None)
  = (Throw (TypeError "constraints.video.optional is undefined"),
     mkBuilder
       (mkOptions None (Some 1000%Z) (Some 30%Z) None None None None None None)
       [])
  /\ build (env_of temasys true) ["screen"]
       (mkOptions None None (Some 30%Z) None None None None None None)
     = (Throw (TypeError "constraints.video.mandatory is undefined"),
        mkBuilder
          (mkOptions None None (Some 30%Z) (Some 30%Z) None None None None None)
          []).
Proof. split; reflexivity. Qed.

(** ** Camera constraints under a screen or desktop kind *)

Definition without_video (um : list string) : list string :=
  filter (fun kind => negb (kind =? "video")) um.

Section OverrideFacts.

Variable env : Env.

Lemma microphone_step_without_video (um : list string) (o : Options)
    (c : Constraints) :
  microphone_step env (without_video um) o c = microphone_step env um o c.
Proof.
  unfold microphone_step, without_video.
  now rewrite has_without_video by discriminate.
Qed.

Lemma screen_step_without_video (um : list string) (c : Constraints)
    (b : Builder) :
  screen_step env (without_video um) c b = screen_step env um c b.
Proof.
  unfold screen_step, without_video.
  now rewrite has_without_video by discriminate.
Qed.

Lemma desktop_step_without_video (um : list string) (o : Options)
    (c : Constraints) :
  desktop_step env (without_video um) o c = desktop_step env um o c.
Proof.
  unfold desktop_step, without_video.
  now rewrite has_without_video by discriminate.
Qed.

(** Where a desktop kind, or a screen kind on a browser with a screen
    vocabulary, is requested, the two blocks forget the video field they
    were given. *)
Lemma screen_desktop_forget (um : list string) (o : Options) (c : Constraints)
    (v : ConstraintValue) (b : Builder) :
  has um "desktop" = true
  \/ (has um "screen" = true
      /\ isChrome (browser env) || isTemasysPluginUsed (browser env)
         || isFirefox (browser env) = true) ->
  exists c3 c3' b3,
    screen_step env um (set_video v c) b = (Ok c3, b3)
    /\ screen_step env um c b = (Ok c3', b3)
    /\ desktop_step env um o c3 = desktop_step env um o c3'.
Proof.
  unfold screen_step, desktop_step, bind, logger_error, modify, ret.
  intros [Hd | (Hs & Hb)].
  - rewrite Hd.
    destruct (has um "screen"), (isChrome (browser env)),
      (isTemasysPluginUsed (browser env)), (isFirefox (browser env));
      eexists; eexists; eexists; (split; [reflexivity|]);
      (split; [reflexivity|]); reflexivity.
  - rewrite Hs.
    destruct (has um "desktop"), (isChrome (browser env)),
      (isTemasysPluginUsed (browser env)), (isFirefox (browser env));
      try discriminate;
      eexists; eexists; eexists; (split; [reflexivity|]);
      (split; [reflexivity|]); reflexivity.
Qed.

End OverrideFacts.

(** C10, as the claim states it, fails for a screen kind on a browser that
    is neither Chrome, nor Firefox, nor the Temasys plugin: the screen block
    only logs an error and the camera constraints stay in the descriptor. *)
Lemma camera_constraints_kept_on_screen :
  exists c b,
    build (env_of opera true) ["video"; "screen"]
      (mkOptions (Some "360") None None None None None (Some "cam-1") None None)
    = (Ok c, b)
    /\ video c
       = CObj (mkTrackConstraints
                 (Some (mkMandatory (Some 640%Z) (Some 360%Z) (Some 640%Z)
                          (Some 360%Z) None None None None None))
                 (Some [opt_sourceId (Some "cam-1");
                        opt_flag "googLeakyBucket" true])
                 (Some "cam-1") None None)
    /\ carries_device_id (video c) "cam-1"
    /\ b_log b = [screen_unsupported_msg].
Proof.
  run_build. split; [reflexivity|]. split; [|reflexivity].
  eexists; eexists. split; [reflexivity|]. cbn. repeat split. now left.
Qed.

(** C10, amended. When the kinds contain a desktop kind, or a screen kind on
    Chrome, Firefox or the Temasys plugin, the builder returns exactly what
    it returns for the same kinds without video (same descriptor or same
    exception, same options, same log): nothing of the camera constraints
    survives. For a desktop kind with no bandwidth or frame-rate override the
    video field is the desktop capture object. *)
Theorem camera_constraints_discarded (env : Env) (um : list string) (o : Options) :
  has um "desktop" = true
  \/ (has um "screen" = true
      /\ isChrome (browser env) || isTemasysPluginUsed (browser env)
         || isFirefox (browser env) = true) ->
  build env um o = build env (without_video um) o
  /\ (has um "desktop" = true ->
      truthy (bandwidth o) = false ->
      truthy (minFps o) || truthy (maxFps o) || truthy (fps o) = false ->
      exists c b,
        build env um o = (Ok c, b)
        /\ video c = CObj (chrome_capture env "desktop" (desktopStream o))).
Proof.
  intros H. split.
  - rewrite !build_blocks.
    rewrite (camera_step_no_video env (without_video um) o _
               (has_video_without_video um)).
    rewrite microphone_step_without_video, screen_step_without_video.
    destruct (has um "video") eqn:Hv.
    + destruct (camera_step_video env um o
                  (mkConstraints (CBool false) (CBool false) None) Hv)
        as (t & l & E & _).
      rewrite E, microphone_step_set_video.
      destruct (screen_desktop_forget env um o
                  (microphone_step env um o
                     (mkConstraints (CBool false) (CBool false) None))
                  (CObj t) (mkBuilder o []) H)
        as (c3 & c3' & b3 & E3 & E3' & Ed).
      rewrite E3, E3', desktop_step_without_video, Ed. reflexivity.
    + rewrite (camera_step_no_video env um o _ Hv).
      destruct (screen_step env um _ _) as [[c3|e] b3]; [|reflexivity].
      rewrite desktop_step_without_video. reflexivity.
  - intros Hd Hb Hf. rewrite build_blocks.
    assert (Hcam : exists c1, camera_step env um o
                     (mkConstraints (CBool false) (CBool false) None) = Ok c1).
    { destruct (has um "video") eqn:Hv.
      - destruct (camera_step_video env um o
                    (mkConstraints (CBool false) (CBool false) None) Hv)
          as (t & l & E & _). eauto.
      - rewrite (camera_step_no_video env um o _ Hv). eauto. }
    destruct Hcam as (c1 & E1). rewrite E1.
    destruct (screen_step_builder env um (microphone_step env um o c1))
      as (r3 & lg & E3 & _).
    rewrite (E3 o).
    assert (Hr3 : exists c3, r3 = Ok c3).
    { specialize (E3 o). revert E3.
      unfold screen_step, bind, logger_error, modify, ret.
      destruct (has um "screen"), (isChrome (browser env)),
        (isTemasysPluginUsed (browser env)), (isFirefox (browser env));
        intros E3; injection E3 as <- _; eauto. }
    destruct Hr3 as (c3 & ->).
    unfold desktop_step, bandwidth_step. rewrite Hd, Hb.
    rewrite fps_step_eq, Hf.
    eexists; eexists. split; [reflexivity|].
    rewrite (proj2 (fake_step_fields env _ _)). reflexivity.
Qed.

Lemma camera_constraints_discarded_witness :
  build (env_of chrome true) ["audio"; "video"; "desktop"]
    (mkOptions (Some "720") None None None None (Some "src") (Some "cam-1")
       None None)
  = build (env_of chrome true) (without_video ["audio"; "video"; "desktop"])
      (mkOptions (Some "720") None None None None (Some "src") (Some "cam-1")
         None None)
  /\ exists c b,
       build (env_of chrome true) ["audio"; "video"; "desktop"]
         (mkOptions (Some "720") None None None None (Some "src") (Some "cam-1")
            None None)
       = (Ok c, b)
       /\ video c = CObj (chrome_capture (env_of chrome true) "desktop" (Some "src")).
Proof.
  pose proof (camera_constraints_discarded (env_of chrome true)
                ["audio"; "video"; "desktop"]
                (mkOptions (Some "720") None None None None (Some "src")
                   (Some "cam-1") None None)
                (or_introl eq_refl)) as [H1 H2].
  split; [exact H1|]. apply H2; reflexivity.
Defined.

(** ** The stream normalizer *)






(** A combined stream next to a desktop stream: desktop first, then audio,
    then camera. *)
Example handleLocalStream_combined :
  handleLocalStream
    (Some [("audioVideo",
            mkMediaStream [mkTrack "a1"; mkTrack "a2"] [mkTrack "v1"] None);
           ("desktopStream", mkMediaStream [] [mkTrack "d1"] None)])
    (Some "360")
  = [ mkTrackDescriptor (mkMediaStream [] [mkTrack "d1"] None)
        (Some (mkTrack "d1")) VIDEO (Some DESKTOP) None;
      mkTrackDescriptor (mkMediaStream [mkTrack "a1"; mkTrack "a2"] [] None)
        (Some (mkTrack "a1")) AUDIO None None;
      mkTrackDescriptor (mkMediaStream [] [mkTrack "v1"] None)
        (Some (mkTrack "v1")) VIDEO (Some CAMERA) (Some "360") ].
Proof. reflexivity. Qed.


(** ** The device availability tracker *)

Section TrackerFacts.

Variable TrackError : Type.

(** The payloads of the change notifications in a trace, in order. *)
Fixpoint notifications (tr : list (Event TrackError)) : list DeviceAvailability :=
  match tr with
  | [] => []
  | EEmitAvailableDevicesChanged d :: r => d :: notifications r
  | _ :: r => notifications r
  end.

(** How many of the two flags differ. *)
Definition flips (d d' : DeviceAvailability) : nat :=
  (if Bool.eqb (audio_available d) (audio_available d') then 0 else 1)
  + (if Bool.eqb (video_available d) (video_available d') then 0 else 1).

(** A callback that does nothing. *)
Definition done {A} : A -> M (World TrackError) unit := fun _ => ret tt.

(** One capture attempt whose callbacks do nothing further. *)
Definition attempt (um : list string) (constraints : Constraints)
    (w : World TrackError) : World TrackError :=
  snd (getUM um constraints done (Some done) w).

Lemma notifications_app (t1 t2 : list (Event TrackError)) :
  notifications (t1 ++ t2) = notifications t1 ++ notifications t2.
Proof.
  induction t1 as [|e r IH]; [reflexivity|].
  destruct e; cbn; rewrite ?IH; reflexivity.
Qed.

End TrackerFacts.

Arguments done {TrackError A} _.
Arguments notifications {TrackError} tr.
Arguments attempt {TrackError} um constraints w.

(** C6, as the claim states it, fails in its last part: the notification is
    sent at the end of every attempt that called back, not once per flip. A
    successful video capture on a fresh tracker flips nothing and notifies
    once; a failed capture of both kinds flips two flags and notifies
    once. It also fails for a capture that fails by a throw of the backend
    call: the failure callback runs, but the video flag stays [true]. *)
Lemma notification_without_flip :
  let w0 := mkWorld initial_devices no_options (@Pending unit)
              [GSuccess (mkMediaStream [] [mkTrack "v1"] None);
               GError (GumError "PermissionDeniedError")] [] in
  let c := mkConstraints (CBool false) (CBool true) None in
  let w1 := attempt ["video"] c w0 in
  let w2 := attempt ["audio"; "video"] c w1 in
  let w3 := attempt ["video"] c
              (mkWorld initial_devices no_options (@Pending unit)
                 [GThrow (TypeError "Failed to execute 'webkitGetUserMedia'")]
                 []) in
  flips (devices w0) (devices w1) = 0%nat
  /\ length (notifications (trace w1)) = 1%nat
  /\ flips (devices w1) (devices w2) = 2%nat
  /\ length (notifications (trace w2)) = 2%nat
  /\ video_available (devices w3) = true.
Proof. cbv zeta. repeat split; reflexivity. Qed.

(** C6, amended. An attempt that ends through the error callback sets the
    flag of every kind it asked for to [false], one that ends through the
    success callback sets it to [true], and the other flag keeps its value;
    each such attempt sends exactly one change notification, whose payload
    is the snapshot after the update, whether or not a flag changed. An
    attempt whose backend call throws or never calls back changes no flag
    and notifies nobody. *)
Theorem tracker_follows_attempts (TrackError : Type) (um : list string)
    (constraints : Constraints) (d : DeviceAvailability) (o : Options)
    (p : PromiseState TrackError) (outcome : Outcome) (rest : list Outcome)
    (tr : list (Event TrackError)) :
  let w := mkWorld d o p (outcome :: rest) tr in
  let w' := attempt um constraints w in
  match outcome with
  | GSuccess _ =>
      video_available (devices w')
      = (if has um "video" then true else video_available d)
      /\ audio_available (devices w')
         = (if has um "audio" then true else audio_available d)
      /\ notifications (trace w') = notifications tr ++ [devices w']
  | GError _ =>
      video_available (devices w')
      = (if has um "video" then false else video_available d)
      /\ audio_available (devices w')
         = (if has um "audio" then false else audio_available d)
      /\ notifications (trace w') = notifications tr ++ [devices w']
  | GThrow _ | GNoCallback =>
      devices w' = d /\ notifications (trace w') = notifications tr
  end.
Proof.
  cbv zeta. unfold attempt.
  destruct outcome as [s|e|e|]; cbn;
    rewrite ?indexOf_neq_has, ?notifications_app; cbn;
    rewrite ?notifications_app; cbn; rewrite ?app_nil_r;
    try (split; reflexivity);
    destruct (has um "video"), (has um "audio"); cbn; auto.
Qed.

(** A failed video capture followed by a successful one: the flag goes to
    [false] and back to [true], with one notification each time. *)
Example video_fails_then_succeeds :
  let w0 := mkWorld initial_devices no_options (@Pending unit)
              [GError (GumError "NotFoundError");
               GSuccess (mkMediaStream [] [mkTrack "v1"] None)] [] in
  let c := mkConstraints (CBool false) (CBool true) None in
  let w1 := attempt ["video"] c w0 in
  let w2 := attempt ["video"] c w1 in
  video_available (devices w1) = false
  /\ video_available (devices w2) = true
  /\ notifications (trace w2) = [mkDevices true false; mkDevices true true].
Proof. cbv zeta. repeat split; reflexivity. Qed.

(** ** Effects of the primitives *)

Section WorldFacts.

Variable TrackError : Type.
Variable env : Env.

(** The world after more effects and nothing else. *)
Definition add_trace (t : list (Event TrackError)) (w : World TrackError) : World TrackError :=
  mkWorld (devices w) (w_options w) (promise w) (script w) (trace w ++ t).

Lemma add_trace_nil (w : World TrackError) : add_trace [] w = w.
Proof. destruct w. unfold add_trace. cbn. now rewrite app_nil_r. Qed.

Lemma add_trace_app (t1 t2 : list (Event TrackError)) (w : World TrackError) :
  add_trace t2 (add_trace t1 w) = add_trace (t1 ++ t2) w.
Proof. unfold add_trace. cbn. now rewrite app_assoc. Qed.

Lemma emit_add_trace (e : Event TrackError) (w : World TrackError) :
  emit e w = (Ok tt, add_trace [e] w).
Proof. reflexivity. Qed.

(** What [stopMediaStream] does on the tracks. *)
Definition track_stop_events (tracks : list Track) : list (Event TrackError) :=
  if negb (isTemasysPluginUsed (browser env)) && track_has_stop env
  then map (fun t => ETrackStop t) tracks
  else [].

(** Everything [stopMediaStream] does. *)
Definition stop_events (s : MediaStream) : list (Event TrackError) :=
  EStopMediaStream s :: track_stop_events (getTracks s)
  ++ (if stream_has_stop env then [EStreamStop s] else [])
  ++ match jitsiObjectURL s with
     | Some url => if truthy url then [ERevokeObjectURL url] else []
     | None => []
     end.

Lemma forEach_track_stop (tracks : list Track) (w : World TrackError) :
  forEach tracks (fun track =>
    when (negb (isTemasysPluginUsed (browser env)) && track_has_stop env)
      (emit (ETrackStop track))) w
  = (Ok tt, add_trace (track_stop_events tracks) w).
Proof.
  unfold track_stop_events.
  revert w. induction tracks as [|t r IH]; intros w.
  - cbn. destruct (negb _ && _); now rewrite add_trace_nil.
  - cbn [forEach]. unfold bind.
    destruct (negb (isTemasysPluginUsed (browser env)) && track_has_stop env)
      eqn:E; cbn [when].
    + rewrite emit_add_trace, IH. cbn [map]. now rewrite add_trace_app.
    + unfold ret. rewrite IH. reflexivity.
Qed.

Lemma stopMediaStream_add_trace (s : MediaStream) (w : World TrackError) :
  stopMediaStream env s w = (Ok tt, add_trace (stop_events s) w).
Proof.
  unfold stopMediaStream, stop_events, bind.
  rewrite emit_add_trace, forEach_track_stop, add_trace_app.
  destruct (stream_has_stop env); cbn [when];
    destruct (jitsiObjectURL s) as [url|]; try destruct (truthy url);
    cbn [when]; unfold ret; rewrite ?emit_add_trace, ?add_trace_app;
    cbn [app]; rewrite ?app_nil_r; try reflexivity;
    rewrite <- ?app_assoc; reflexivity.
Qed.

(** A stream release calls no backend and settles nothing. *)
Definition is_release (e : Event TrackError) : bool :=
  match e with
  | EStopMediaStream _ | ETrackStop _ | EStreamStop _ | ERevokeObjectURL _ => true
  | _ => false
  end.

Lemma stop_events_release (s : MediaStream) :
  forallb is_release (stop_events s) = true.
Proof.
  unfold stop_events, track_stop_events. cbn.
  rewrite !forallb_app.
  destruct (negb _ && _), (stream_has_stop env),
    (jitsiObjectURL s) as [url|]; try destruct (truthy url); cbn;
    rewrite ?andb_true_r; try reflexivity;
    induction (getTracks s); cbn; auto.
Qed.

Lemma reject_eq (r : Rejection TrackError) (w : World TrackError) :
  reject r w
  = (Ok tt,
     mkWorld (devices w) (w_options w)
       (match promise w with Pending => Rejected r | p => p end)
       (script w) (trace w ++ [EReject r])).
Proof.
  unfold reject, bind, gets, put_promise, modify, ret, emit. cbn.
  destruct (promise w); reflexivity.
Qed.

End WorldFacts.

Arguments add_trace {TrackError} t w.
Arguments stop_events {TrackError} env s.
Arguments track_stop_events {TrackError} env tracks.
Arguments is_release {TrackError} e.

(** ** The entry point on an empty list of kinds *)

Section EntryFacts.

Variable TrackError : Type.
Variable parseError : Exn -> list DeviceArg -> TrackError.
Variable env : Env.

(** On the per-device path an empty list resolves at once with no track
    descriptor, calls no backend and leaves the flags alone. *)
Lemma empty_request_sequential_resolves (w : World TrackError) :
  isFirefox (browser env) || isReactNative (browser env)
  || isTemasysPluginUsed (browser env) = true ->
  promise w = Pending ->
  let w' := obtainAudioAndVideoPermissions parseError env (Some []) w in
  promise w' = Resolved []
  /\ trace w' = trace w ++ [EResolve []]
  /\ devices w' = devices w
  /\ script w' = script w.
Proof.
  intros Hseq Hp. cbv zeta.
  unfold obtainAudioAndVideoPermissions, executor.
  rewrite Hseq. cbn.
  rewrite andb_false_r. cbn. rewrite Hp. cbn. auto.
Qed.

End EntryFacts.

(** C3. The claim says an empty list of kinds resolves with an empty
    sequence on both paths. On the combined path it does not: with no kind
    left and no desktop, neither branch of the executor runs, so the promise
    stays as it was (pending), nothing is called and nothing will call
    back. *)
Theorem empty_request_combined_never_settles (TrackError : Type)
    (parseError : Exn -> list DeviceArg -> TrackError) (env : Env)
    (w : World TrackError) :
  isFirefox (browser env) || isReactNative (browser env)
  || isTemasysPluginUsed (browser env) = false ->
  let w' := obtainAudioAndVideoPermissions parseError env (Some []) w in
  promise w' = promise w
  /\ trace w' = trace w
  /\ devices w' = devices w
  /\ script w' = script w.
Proof.
  intros Hcomb. cbv zeta.
  unfold obtainAudioAndVideoPermissions, executor.
  rewrite Hcomb. cbn. rewrite andb_false_r. cbn. auto.
Qed.

Lemma empty_request_combined_never_settles_witness :
  let w := mkWorld initial_devices no_options (@Pending unit)
             [GSuccess (mkMediaStream [mkTrack "a1"] [] None)] [] in
  let w' := obtainAudioAndVideoPermissions (fun _ _ => tt) (env_of chrome true)
              (Some []) w in
  promise w' = Pending
  /\ trace w' = []
  /\ devices w' = initial_devices
  /\ script w' = [GSuccess (mkMediaStream [mkTrack "a1"] [] None)].
Proof.
  exact (empty_request_combined_never_settles unit (fun _ _ => tt)
           (env_of chrome true)
           (mkWorld initial_devices no_options (@Pending unit)
              [GSuccess (mkMediaStream [mkTrack "a1"] [] None)] [])
           eq_refl).
Defined.

(** ** A settled promise stays settled *)

Section SteadyFacts.

Variable TrackError : Type.
Variable parseError : Exn -> list DeviceArg -> TrackError.
Variable env : Env.

(** A computation that only appends to the trace and never changes a
    promise that is already resolved or rejected. *)
Definition steady {A} (m : M (World TrackError) A) : Prop :=
  forall w,
    (exists t, trace (snd (m w)) = trace w ++ t)
    /\ (promise w <> Pending -> promise (snd (m w)) = promise w).

Lemma steady_ret {A} (a : A) : steady (ret a).
Proof. intros w. cbn. split; [exists []; now rewrite app_nil_r | auto]. Qed.

Lemma steady_throw {A} (e : Exn) : steady (@throw _ A e).
Proof. intros w. cbn. split; [exists []; now rewrite app_nil_r | auto]. Qed.

Lemma steady_bind {A B} (m : M (World TrackError) A)
    (k : A -> M (World TrackError) B) :
  steady m -> (forall a, steady (k a)) -> steady (bind m k).
Proof.
  intros Hm Hk w. unfold bind.
  destruct (Hm w) as ((t & Ht) & Hp).
  destruct (m w) as [[a|e] w1]; cbn in *.
  - destruct (Hk a w1) as ((t' & Ht') & Hp').
    split.
    + exists (t ++ t'). now rewrite Ht', Ht, app_assoc.
    + intros H. rewrite Hp' by (rewrite Hp; auto). auto.
  - split; [eauto | auto].
Qed.

Lemma steady_emit (e : Event TrackError) : steady (emit e).
Proof. intros w. cbn. split; [eauto | auto]. Qed.

Lemma steady_gets {A} (f : World TrackError -> A) : steady (gets f).
Proof. intros w. cbn. split; [exists []; now rewrite app_nil_r | auto]. Qed.

Lemma steady_put_devices (d : DeviceAvailability) : steady (put_devices d).
Proof. intros w. cbn. split; [exists []; now rewrite app_nil_r | auto]. Qed.

Lemma steady_put_w_options (o : Options) : steady (put_w_options o).
Proof. intros w. cbn. split; [exists []; now rewrite app_nil_r | auto]. Qed.

Lemma steady_next_outcome : steady (@next_outcome TrackError).
Proof.
  intros w. unfold next_outcome.
  destruct (script w); cbn; (split; [exists []; now rewrite app_nil_r | auto]).
Qed.

Lemma steady_when (b : bool) (m : M (World TrackError) unit) :
  steady m -> steady (when b m).
Proof. destruct b; cbn; auto using steady_ret. Qed.

Lemma steady_async (m : M (World TrackError) unit) : steady m -> steady (async m).
Proof.
  intros Hm w. unfold async.
  destruct (Hm w) as ((t & Ht) & Hp).
  destruct (m w) as [[a|e] w1]; cbn in *.
  - split; [eauto | auto].
  - split; [exists (t ++ [EUncaught e]); now rewrite Ht, app_assoc | auto].
Qed.

Lemma steady_forEach {A} (l : list A) (f : A -> M (World TrackError) unit) :
  (forall a, steady (f a)) -> steady (forEach l f).
Proof.
  intros Hf. induction l as [|a r IH]; cbn.
  - apply steady_ret.
  - apply steady_bind; auto.
Qed.

Lemma steady_resolve (tracks : list TrackDescriptor) :
  steady (@resolve TrackError tracks).
Proof.
  intros w. unfold resolve, bind, gets, emit, put_promise, modify, ret. cbn.
  destruct (promise w); cbn; (split; [eauto | congruence]).
Qed.

Lemma steady_reject (r : Rejection TrackError) : steady (reject r).
Proof.
  intros w. rewrite reject_eq. cbn.
  destruct (promise w); cbn; (split; [eauto | congruence]).
Qed.

Lemma steady_setAvailableDevices (um : list string) (available : bool) :
  steady (@setAvailableDevices TrackError um available).
Proof.
  unfold setAvailableDevices.
  apply steady_bind; [apply steady_gets | intros d].
  apply steady_bind; [apply steady_put_devices | intros _; apply steady_emit].
Qed.

Lemma steady_stopMediaStream (s : MediaStream) :
  steady (@stopMediaStream TrackError env s).
Proof.
  intros w. rewrite stopMediaStream_add_trace. cbn. split; [eauto | auto].
Qed.

Lemma steady_maybe_call (f : option (Exn -> M (World TrackError) unit)) (e : Exn) :
  (forall g e', f = Some g -> steady (g e')) -> steady (maybe_call f e).
Proof.
  intros H. destruct f as [g|]; cbn; [eapply H; reflexivity | apply steady_ret].
Qed.

(** What [getUM] does after it has called [this.getUserMedia]. *)
Definition after_getUserMedia (um : list string)
    (success_callback : MediaStream -> M (World TrackError) unit)
    (failure_callback : option (Exn -> M (World TrackError) unit))
    : M (World TrackError) unit :=
  outcome <- next_outcome ;;
  match outcome with
  | GSuccess stream =>
      async (emit (ELog "onUserMediaSuccess") ;;
             setAvailableDevices um true ;;
             success_callback stream)
  | GError error =>
      async (setAvailableDevices um false ;;
             emit (ELog "Failed to get access to local media. Error ") ;;
             maybe_call failure_callback error)
  | GThrow e =>
      emit (ELog "GUM failed: ") ;;
      maybe_call failure_callback e
  | GNoCallback => ret tt
  end.

Lemma getUM_after (um : list string) (constraints : Constraints)
    (success_callback : MediaStream -> M (World TrackError) unit)
    (failure_callback : option (Exn -> M (World TrackError) unit))
    (w : World TrackError) :
  getUM um constraints success_callback failure_callback w
  = after_getUserMedia um success_callback failure_callback
      (add_trace [EGetUserMedia constraints] w).
Proof. reflexivity. Qed.

Lemma steady_after_getUserMedia (um : list string)
    (success_callback : MediaStream -> M (World TrackError) unit)
    (failure_callback : option (Exn -> M (World TrackError) unit)) :
  (forall s, steady (success_callback s)) ->
  (forall g e, failure_callback = Some g -> steady (g e)) ->
  steady (after_getUserMedia um success_callback failure_callback).
Proof.
  intros Hs Hf. unfold after_getUserMedia.
  apply steady_bind; [apply steady_next_outcome | intros [s|e|e|]].
  - apply steady_async.
    repeat (apply steady_bind; [first [apply steady_emit | apply steady_setAvailableDevices] | intros _]).
    apply Hs.
  - apply steady_async.
    repeat (apply steady_bind; [first [apply steady_emit | apply steady_setAvailableDevices] | intros _]).
    now apply steady_maybe_call.
  - apply steady_bind; [apply steady_emit | intros _].
    now apply steady_maybe_call.
  - apply steady_ret.
Qed.

Lemma steady_obtainStream (onSuccess : MediaStream -> M (World TrackError) unit)
    (onFailure : Exn -> M (World TrackError) unit) :
  (forall s, steady (onSuccess s)) -> (forall e, steady (onFailure e)) ->
  steady (obtainStream onSuccess onFailure).
Proof.
  intros Hs Hf. unfold obtainStream.
  apply steady_bind; [apply steady_emit | intros _].
  apply steady_bind; [apply steady_next_outcome | intros [s|e|e|]];
    auto using steady_async, steady_throw, steady_ret.
Qed.

Lemma steady_successCallback (stream : StreamMap) :
  steady (@successCallback TrackError stream).
Proof.
  unfold successCallback.
  apply steady_bind; [apply steady_gets | intros o; apply steady_resolve].
Qed.

End SteadyFacts.

Arguments steady {TrackError A} m.

(** ** Desktop capture that the backend does not support *)

(** C2. The claim says that a request for desktop on a backend without
    desktop capture is rejected with no backend call. The rejection comes
    first, but the executor does not return after it: on the combined path
    it goes on to call [getUserMedia] for the other kinds, whatever the
    backend answers. *)
Theorem unsupported_desktop_still_captures (TrackError : Type)
    (parseError : Exn -> list DeviceArg -> TrackError)
    (d : DeviceAvailability) (answers : list Outcome) :
  let w := mkWorld d no_options (@Pending TrackError) answers [] in
  let w' := obtainAudioAndVideoPermissions parseError (env_of chrome false)
              (Some ["audio"; "desktop"]) w in
  promise w' = Rejected (RejExn (Error "Desktop sharing is not supported!"))
  /\ exists constraints rest,
       trace w'
       = EReject (RejExn (Error "Desktop sharing is not supported!"))
         :: EGetUserMedia constraints :: rest.
Proof.
  cbv zeta.
  unfold obtainAudioAndVideoPermissions, executor.
  cbn -[getUM]. change (Pos.to_nat 1) with 1%nat. cbn -[getUM].
  rewrite getUM_after.
  match goal with
  | |- context [after_getUserMedia _ ?um ?s ?f ?w] =>
      assert (St : steady (after_getUserMedia TrackError um s f));
      [ | destruct (St w) as ((t & Ht) & Hp);
          destruct (after_getUserMedia TrackError um s f w) as [r w'] ]
  end.
  { apply steady_after_getUserMedia.
    - intros s. destruct (negb (has_tracks_for ["audio"] s)).
      + apply steady_bind; [apply steady_stopMediaStream | intros _; apply steady_reject].
      + apply steady_obtainStream.
        * intros s'. apply steady_successCallback.
        * intros e. apply steady_bind;
            [apply steady_stopMediaStream | intros _; apply steady_reject].
    - intros g e [= <-]. apply steady_reject. }
  cbn [snd add_trace promise trace app] in Ht, Hp.
  assert (Hw' : promise w'
                = Rejected (RejExn (Error "Desktop sharing is not supported!")))
    by (apply Hp; discriminate).
  assert (E : match r with
              | Ok _ => w'
              | Throw e =>
                  match promise w' with
                  | Pending =>
                      mkWorld (devices w') (w_options w') (Rejected (RejExn e))
                        (script w') (trace w')
                  | _ => w'
                  end
              end = w')
    by (destruct r; [reflexivity | now rewrite Hw']).
  rewrite E. split; [exact Hw'|].
  rewrite Ht. eexists; eexists. reflexivity.
Qed.

(** On the per-device path the audio stream is captured after the rejection
    and never released: the lookup of the desktop primitive throws inside
    the success callback. *)
Example unsupported_desktop_leaks_audio :
  let s := mkMediaStream [mkTrack "a1"] [] None in
  let w := mkWorld initial_devices no_options (@Pending unit) [GSuccess s] [] in
  let w' := obtainAudioAndVideoPermissions (fun _ _ => tt) (env_of firefox false)
              (Some ["audio"; "desktop"]) w in
  trace w'
  = [ EReject (RejExn (Error "Desktop sharing is not supported!"));
      EGetUserMedia (mkConstraints (CBool true) (CBool false) None);
      ELog "onUserMediaSuccess";
      EEmitAvailableDevicesChanged (mkDevices true true);
      EUncaught (TypeError "options.deviceGUM[device] is not a function") ].
Proof. reflexivity. Qed.

(** ** Rollback of the per-device acquisition *)

Section RollbackFacts.

Variable TrackError : Type.
Variable parseError : Exn -> list DeviceArg -> TrackError.
Variable env : Env.

(** Backend capture calls in a trace. *)
Definition is_capture (e : Event TrackError) : bool :=
  match e with
  | EGetUserMedia _ | EObtainStream => true
  | _ => false
  end.

Definition capture_calls (tr : list (Event TrackError)) : nat :=
  length (filter is_capture tr).

(** Events by which the caller learns the result. *)
Definition is_settle (e : Event TrackError) : bool :=
  match e with
  | EResolve _ | EReject _ => true
  | _ => false
  end.

Definition unsettled (tr : list (Event TrackError)) : bool :=
  forallb (fun e => negb (is_settle e)) tr.

Lemma capture_calls_app (t1 t2 : list (Event TrackError)) :
  capture_calls (t1 ++ t2) = (capture_calls t1 + capture_calls t2)%nat.
Proof. unfold capture_calls. now rewrite filter_app, length_app. Qed.

Lemma unsettled_app (t1 t2 : list (Event TrackError)) :
  unsettled (t1 ++ t2) = unsettled t1 && unsettled t2.
Proof. apply forallb_app. Qed.

Lemma capture_calls_logs (l : list string) :
  capture_calls (map (fun m => @ELog TrackError m) l) = 0%nat.
Proof. induction l; cbn; auto. Qed.

Lemma unsettled_logs (l : list string) :
  unsettled (map (fun m => @ELog TrackError m) l) = true.
Proof. induction l; cbn; auto. Qed.

Lemma capture_calls_release (t : list (Event TrackError)) :
  forallb (@is_release TrackError) t = true -> capture_calls t = 0%nat.
Proof.
  induction t as [|e r IH]; [reflexivity|].
  cbn. intros H. apply andb_true_iff in H as [He Hr].
  destruct e; try discriminate; cbn; auto.
Qed.

(** The kinds for which [deviceGUM] has a capture primitive. *)
Definition capturable (kind : string) : Prop :=
  kind = "audio" \/ kind = "video"
  \/ (kind = "desktop" /\ screenObtainer_isSupported env = true).

(** The backend reports a failure of the capture of [kind]: through the
    error callback, or, for [getUserMedia], by throwing. *)
Definition reports_failure (kind : string) (outcome : Outcome) (cause : Exn)
    : Prop :=
  outcome = GError cause \/ (outcome = GThrow cause /\ kind <> "desktop").

(** The world [w1] in which a callback of a capture call starts: one
    backend answer consumed, one capture call made, nothing settled. *)
Definition after_capture (w w1 : World TrackError) (rest : list Outcome)
    (t1 : list (Event TrackError)) : Prop :=
  script w1 = rest /\ promise w1 = promise w
  /\ trace w1 = trace w ++ t1
  /\ capture_calls t1 = 1%nat /\ unsettled t1 = true.

Lemma async_never_throws (m : M (World TrackError) unit) (w : World TrackError) :
  exists w', async m w = (Ok tt, w').
Proof.
  unfold async. destruct (m w) as [[[]|e] w']; [eauto|].
  rewrite emit_add_trace. eauto.
Qed.

Lemma async_async (m : M (World TrackError) unit) (w : World TrackError) :
  async (async m) w = async m w.
Proof.
  destruct (async_never_throws m w) as (w' & E).
  unfold async at 1. now rewrite E.
Qed.

Lemma call_getConstraints_single (um : list string) (w : World TrackError) :
  has um "screen" = false -> has um "desktop" = false ->
  exists c o' lg,
    call_getConstraints env um w
    = (Ok c, mkWorld (devices w) o' (promise w) (script w)
               (trace w ++ map (fun m => ELog m) lg)).
Proof.
  intros Hs Hd. unfold call_getConstraints.
  destruct (build_camera_microphone_ok env um (w_options w) Hs Hd) as (c & b & E).
  unfold build in E. rewrite E. eauto.
Qed.

Lemma bind_ok {A B} (m : M (World TrackError) A)
    (k : A -> M (World TrackError) B) (w : World TrackError)
    {w1 : World TrackError} {a : A} :
  m w = (Ok a, w1) -> bind m k w = k a w1.
Proof. intros E. unfold bind. now rewrite E. Qed.

Lemma async_bind {A} (m : M (World TrackError) A)
    (k : A -> M (World TrackError) unit) (w : World TrackError)
    {w1 : World TrackError} {a : A} :
  m w = (Ok a, w1) -> async (bind m k) w = async (k a) w1.
Proof. intros E. unfold async. now rewrite (bind_ok m k w E). Qed.

Lemma async_eq (m k : M (World TrackError) unit) (w w1 : World TrackError) :
  m w = k w1 -> async m w = async k w1.
Proof. intros E. unfold async. now rewrite E. Qed.

Lemma setAvailableDevices_ok (um : list string) (available : bool)
    (w : World TrackError) :
  exists d,
    setAvailableDevices um available w
    = (Ok tt, mkWorld d (w_options w) (promise w) (script w)
                (trace w ++ [EEmitAvailableDevicesChanged d])).
Proof.
  unfold setAvailableDevices, bind, gets, put_devices, modify, emit. cbn.
  eexists. reflexivity.
Qed.

Lemma after_capture_intro (w w1 : World TrackError) (rest : list Outcome)
    (t1 : list (Event TrackError)) :
  script w1 = rest -> promise w1 = promise w -> trace w1 = trace w ++ t1 ->
  capture_calls t1 = 1%nat -> unsettled t1 = true ->
  after_capture w w1 rest t1.
Proof. unfold after_capture. auto. Qed.

(** [getUM], up to the callback that the backend's answer selects. *)
Lemma getUM_answer (um : list string) (c : Constraints)
    (s_cb : MediaStream -> M (World TrackError) unit)
    (e_cb : Exn -> M (World TrackError) unit)
    (w : World TrackError) (outcome : Outcome) (rest : list Outcome) :
  script w = outcome :: rest ->
  exists w1 t1,
    after_capture w w1 rest t1
    /\ getUM um c s_cb (Some e_cb) w
       = match outcome with
         | GSuccess s => async (s_cb s) w1
         | GError e => async (e_cb e) w1
         | GThrow e => e_cb e w1
         | GNoCallback => (Ok tt, w1)
         end.
Proof.
  intros Hscript. rewrite getUM_after. unfold after_getUserMedia.
  assert (Hn : next_outcome (add_trace [EGetUserMedia c] w)
               = (Ok outcome,
                  mkWorld (devices w) (w_options w) (promise w) rest
                    (trace w ++ [EGetUserMedia c]))).
  { unfold next_outcome. cbn. now rewrite Hscript. }
  rewrite (bind_ok _ _ _ Hn).
  destruct outcome as [s|e|e|].
  - rewrite (async_bind _ _ _ (emit_add_trace _ _ _)).
    match goal with |- context [async _ ?w0] =>
      destruct (setAvailableDevices_ok um true w0) as (d & Ed) end.
    rewrite (async_bind _ _ _ Ed).
    eexists; eexists. split; [|reflexivity].
    apply after_capture_intro; cbn;
      [reflexivity | reflexivity | rewrite <- !app_assoc; reflexivity
      | reflexivity | reflexivity].
  - match goal with |- context [async _ ?w0] =>
      destruct (setAvailableDevices_ok um false w0) as (d & Ed) end.
    rewrite (async_bind _ _ _ Ed).
    rewrite (async_bind _ _ _ (emit_add_trace _ _ _)).
    eexists; eexists. split; [|reflexivity].
    apply after_capture_intro; cbn;
      [reflexivity | reflexivity | rewrite <- !app_assoc; reflexivity
      | reflexivity | reflexivity].
  - rewrite (bind_ok _ _ _ (emit_add_trace _ _ _)).
    eexists; eexists. split; [|reflexivity].
    apply after_capture_intro; cbn;
      [reflexivity | reflexivity | rewrite <- !app_assoc; reflexivity
      | reflexivity | reflexivity].
  - eexists; eexists. split; [|reflexivity].
    apply after_capture_intro; cbn; reflexivity.
Qed.

Lemma after_capture_prefix (w w0 w1 : World TrackError) (rest : list Outcome)
    (t0 t1 : list (Event TrackError)) :
  promise w0 = promise w -> trace w0 = trace w ++ t0 ->
  capture_calls t0 = 0%nat -> unsettled t0 = true ->
  after_capture w0 w1 rest t1 ->
  after_capture w w1 rest (t0 ++ t1).
Proof.
  intros Hp Ht Hc Hu (A & B & C & D & E).
  apply after_capture_intro; auto.
  - congruence.
  - now rewrite C, Ht, app_assoc.
  - now rewrite capture_calls_app, Hc, D.
  - now rewrite unsettled_app, Hu, E.
Qed.

(** [getUserMediaWithConstraints] for audio or for video, up to the
    callback that the backend's answer selects. *)
Lemma GUM_answer (um : list string)
    (s_cb : MediaStream -> M (World TrackError) unit)
    (e_cb : Exn -> M (World TrackError) unit)
    (w : World TrackError) (outcome : Outcome) (rest : list Outcome) :
  has um "screen" = false -> has um "desktop" = false ->
  script w = outcome :: rest ->
  exists w1 t1,
    after_capture w w1 rest t1
    /\ match outcome with
       | GSuccess s => GUM env um s_cb e_cb w = async (s_cb s) w1
       | GError e => GUM env um s_cb e_cb w = async (e_cb e) w1
       | GThrow e => GUM env um s_cb e_cb w = async (e_cb e) w1
                     \/ GUM env um s_cb e_cb w = e_cb e w1
       | GNoCallback => GUM env um s_cb e_cb w = (Ok tt, w1)
       end.
Proof.
  intros Hs Hd Hscript.
  unfold GUM, getUserMediaWithConstraints.
  destruct (isReactNative (browser env)).
  - (* React Native: the call sits in the callback of getSources *)
    rewrite (bind_ok _ _ _ (emit_add_trace _ _ _)).
    rewrite (async_bind _ _ _ (emit_add_trace _ _ _)).
    rewrite add_trace_app.
    match goal with |- context [async (getUM um ?c s_cb (Some e_cb)) ?w0] =>
      destruct (getUM_answer um c s_cb e_cb w0 outcome rest Hscript)
        as (w1 & t1 & Hcap & E)
    end.
    exists w1. eexists.
    split.
    + eapply after_capture_prefix; [| | | |exact Hcap]; cbn; reflexivity.
    + destruct outcome as [s|e|e|].
      * rewrite (async_eq _ _ _ _ E). apply async_async.
      * rewrite (async_eq _ _ _ _ E). apply async_async.
      * left. apply async_eq. exact E.
      * unfold async. now rewrite E.
  - destruct (call_getConstraints_single um w Hs Hd) as (c & o' & lg & Ec).
    rewrite (bind_ok _ _ _ Ec).
    match goal with |- context [getUM um c s_cb (Some e_cb) ?w0] =>
      destruct (getUM_answer um c s_cb e_cb w0 outcome rest Hscript)
        as (w1 & t1 & Hcap & E)
    end.
    exists w1. eexists.
    split.
    + eapply after_capture_prefix; [| | | |exact Hcap]; cbn;
        auto using capture_calls_logs, unsettled_logs.
    + rewrite E. destruct outcome; auto.
Qed.

(** [screenObtainer.obtainStream], up to the callback that the backend's
    answer selects. *)
Lemma obtainStream_answer
    (s_cb : MediaStream -> M (World TrackError) unit)
    (e_cb : Exn -> M (World TrackError) unit)
    (w : World TrackError) (outcome : Outcome) (rest : list Outcome) :
  script w = outcome :: rest ->
  exists w1 t1,
    after_capture w w1 rest t1
    /\ obtainStream s_cb e_cb w
       = match outcome with
         | GSuccess s => async (s_cb s) w1
         | GError e => async (e_cb e) w1
         | GThrow e => (Throw e, w1)
         | GNoCallback => (Ok tt, w1)
         end.
Proof.
  intros Hscript. unfold obtainStream.
  rewrite (bind_ok _ _ _ (emit_add_trace _ _ _)).
  assert (Hn : next_outcome (add_trace [@EObtainStream TrackError] w)
               = (Ok outcome,
                  mkWorld (devices w) (w_options w) (promise w) rest
                    (trace w ++ [EObtainStream]))).
  { unfold next_outcome. cbn. now rewrite Hscript. }
  rewrite (bind_ok _ _ _ Hn).
  eexists; eexists. split; [|destruct outcome; reflexivity].
  apply after_capture_intro; cbn; reflexivity.
Qed.

(** Every capturable kind has a capture primitive, which runs the success
    callback on a success and the error callback on a reported failure. *)
Lemma capture_answer (kind : string)
    (s_cb : MediaStream -> M (World TrackError) unit)
    (e_cb : Exn -> M (World TrackError) unit)
    (w : World TrackError) (outcome : Outcome) (rest : list Outcome) :
  capturable kind ->
  script w = outcome :: rest ->
  exists capture w1 t1,
    deviceGUM env kind = Some capture
    /\ after_capture w w1 rest t1
    /\ (forall s, outcome = GSuccess s ->
                  capture s_cb e_cb w = async (s_cb s) w1)
    /\ (forall cause, reports_failure kind outcome cause ->
                      capture s_cb e_cb w = async (e_cb cause) w1
                      \/ capture s_cb e_cb w = e_cb cause w1).
Proof.
  intros Hk Hscript.
  assert (HG : forall um, has um "screen" = false -> has um "desktop" = false ->
             exists w1 t1,
               after_capture w w1 rest t1
               /\ (forall s, outcome = GSuccess s ->
                             GUM env um s_cb e_cb w = async (s_cb s) w1)
               /\ (forall cause,
                      outcome = GError cause \/ outcome = GThrow cause ->
                      GUM env um s_cb e_cb w = async (e_cb cause) w1
                      \/ GUM env um s_cb e_cb w = e_cb cause w1)).
  { intros um Hs Hd.
    destruct (GUM_answer um s_cb e_cb w outcome rest Hs Hd Hscript)
      as (w1 & t1 & Hcap & E).
    exists w1, t1. split; [exact Hcap|]. split.
    - intros s ->. exact E.
    - intros cause [-> | ->]; [left; exact E | exact E]. }
  destruct Hk as [-> | [-> | [-> Hsup]]].
  - destruct (HG ["audio"] eq_refl eq_refl) as (w1 & t1 & Hcap & Hs & Hf).
    exists (GUM env ["audio"]), w1, t1.
    split; [reflexivity|]. split; [exact Hcap|]. split; [exact Hs|].
    intros cause [H | [H _]]; apply Hf; auto.
  - destruct (HG ["video"] eq_refl eq_refl) as (w1 & t1 & Hcap & Hs & Hf).
    exists (GUM env ["video"]), w1, t1.
    split; [reflexivity|]. split; [exact Hcap|]. split; [exact Hs|].
    intros cause [H | [H _]]; apply Hf; auto.
  - destruct (obtainStream_answer s_cb e_cb w outcome rest Hscript)
      as (w1 & t1 & Hcap & E).
    exists (@obtainStream TrackError), w1, t1.
    split; [unfold deviceGUM; cbn; now rewrite Hsup|].
    split; [exact Hcap|]. split.
    + intros s ->. exact E.
    + intros cause [-> | [_ Hne]]; [left; exact E | congruence].
Qed.

(** The streams in the success map after the captures of [pre] succeeded
    with [ss], in this order. *)
Fixpoint record_streams (m : StreamMap) (pre : list string)
    (ss : list MediaStream) : StreamMap :=
  match pre, ss with
  | d :: pre', s :: ss' => record_streams (smap_set (array_key [d]) s m) pre' ss'
  | _, _ => m
  end.

(** The effects of releasing every stream of the success map, in the order
    of its keys. *)
Definition release_all (m : StreamMap) : list (Event TrackError) :=
  flat_map (fun key => match smap_get key m with
                       | Some s => stop_events env s
                       | None => []
                       end)
    (smap_keys m).

Lemma smap_get_key (m : StreamMap) (key : string) :
  In key (smap_keys m) <-> exists s, smap_get key m = Some s.
Proof.
  induction m as [|[k s] r IH]; cbn.
  - split; [tauto | intros (s & H); discriminate].
  - destruct (k =? key) eqn:E.
    + apply String.eqb_eq in E. split; [eauto | auto].
    + apply String.eqb_neq in E. rewrite <- IH. split; [intros [H|H]; tauto | auto].
Qed.

Lemma forEach_release (m : StreamMap) (keys : list string) (w : World TrackError) :
  (forall key, In key keys -> In key (smap_keys m)) ->
  forEach keys (fun device =>
    match smap_get device m with
    | Some s => stopMediaStream env s
    | None => throw (TypeError "mediaStream is undefined")
    end) w
  = (Ok tt,
     add_trace (flat_map (fun key => match smap_get key m with
                                     | Some s => stop_events env s
                                     | None => []
                                     end) keys) w).
Proof.
  revert w. induction keys as [|key r IH]; intros w Hin.
  - cbn. now rewrite add_trace_nil.
  - cbn [forEach flat_map].
    destruct (proj1 (smap_get_key m key) (Hin key (or_introl eq_refl))) as (s & Es).
    rewrite Es.
    rewrite (bind_ok _ _ _ (stopMediaStream_add_trace _ _ _ _)).
    rewrite IH by (intros k' Hk'; apply Hin; now right).
    now rewrite add_trace_app.
Qed.

Lemma release_all_release (m : StreamMap) :
  forallb (@is_release TrackError) (release_all m) = true.
Proof.
  unfold release_all. induction (smap_keys m) as [|key r IH]; [reflexivity|].
  cbn. rewrite forallb_app, IH, andb_true_r.
  destruct (smap_get key m); [apply stop_events_release | reflexivity].
Qed.

Lemma release_all_stops (m : StreamMap) (key : string) (s : MediaStream) :
  smap_get key m = Some s -> In (EStopMediaStream s) (release_all m).
Proof.
  intros H. unfold release_all. apply in_flat_map. exists key. split.
  - apply smap_get_key. eauto.
  - rewrite H. now left.
Qed.

End RollbackFacts.

Arguments capture_calls {TrackError} tr.
Arguments unsettled {TrackError} tr.
Arguments release_all {TrackError} env m.
Arguments bind_ok {TrackError A B} m k w {w1 a} _.
Arguments async_bind {TrackError A} m k w {w1 a} _.
Arguments after_capture {TrackError} w w1 rest t1.
Arguments is_capture {TrackError} e.
Arguments is_settle {TrackError} e.

(** C1. In the per-device acquisition of [pre ++ kind :: post], when the
    captures of [pre] succeed and the capture of [kind] is reported as
    failed, [obtainDevices] makes no capture call for [post] (it has made
    one call per kind of [pre] and one for [kind], and consumes no further
    backend answer), calls [stopMediaStream] on every stream of the success
    map, and only then rejects, with what [JitsiTrackErrors.parseError]
    returns for the backend's error and the failed kind (a promise that was
    settled before stays as it was). *)
Theorem obtainDevices_rollback (TrackError : Type)
    (parseError : Exn -> list DeviceArg -> TrackError) (env : Env)
    (pre : list string) (kind : string) (post : list string)
    (ss : list MediaStream) (failure : Outcome) (cause : Exn)
    (rest : list Outcome) (m : StreamMap) (w : World TrackError) :
  Forall (capturable env) (pre ++ [kind]) ->
  length ss = length pre ->
  script w = map GSuccess ss ++ failure :: rest ->
  reports_failure kind failure cause ->
  let streams := record_streams m pre ss in
  let rejection := RejTrackError (parseError cause [DevSplice [kind]]) in
  exists w' t_capture t_release,
    obtainDevices parseError env (pre ++ kind :: post) (Some m) (deviceGUM env)
      (@successCallback TrackError) (fun err => reject (RejTrackError err)) w
    = (Ok tt, w')
    /\ promise w' = match promise w with
                    | Pending => Rejected rejection
                    | settled => settled
                    end
    /\ script w' = rest
    /\ trace w'
       = trace w ++ t_capture ++ t_release
         ++ [ELog ("failed to obtain " ++ kind ++ " stream - stop");
             EReject rejection]
    /\ capture_calls t_capture = S (length pre)
    /\ unsettled t_capture = true
    /\ forallb is_release t_release = true
    /\ capture_calls t_release = 0%nat
    /\ (forall key s, smap_get key streams = Some s ->
                      In (EStopMediaStream s) t_release).
Proof.
  intros Hcap Hlen Hscript Hfail. cbv zeta.
  revert ss m w Hcap Hlen Hscript.
  induction pre as [|d pre' IH]; intros ss m w Hcap Hlen Hscript.
  - (* the first capture fails *)
    destruct ss; [|discriminate]. cbn in Hscript. cbn [app] in *.
    apply Forall_inv in Hcap.
    cbn [obtainDevices]. change (array_key [kind]) with kind.
    match goal with
    | |- context [match deviceGUM env _ with
                  | Some capture => capture ?s_cb ?e_cb
                  | None => _ end] =>
        destruct (capture_answer TrackError env kind s_cb e_cb w failure rest
                    Hcap Hscript)
          as (capture & w1 & t1 & Eg & (A & B & C & D & E) & _ & Hf)
    end.
    rewrite Eg.
    assert (Hroll :
      exists w', 
        (forEach (smap_keys m) (fun device =>
           match smap_get device m with
           | Some s => stopMediaStream env s
           | None => throw (TypeError "mediaStream is undefined")
           end) ;;
         emit (ELog ("failed to obtain " ++ kind ++ " stream - stop")) ;;
         reject (RejTrackError (parseError cause [DevSplice [kind]]))) w1
        = (Ok tt, w')
        /\ promise w'
           = match promise w with
             | Pending => Rejected (RejTrackError (parseError cause [DevSplice [kind]]))
             | settled => settled
             end
        /\ script w' = rest
        /\ trace w' = trace w ++ t1 ++ release_all env m
                      ++ [ELog ("failed to obtain " ++ kind ++ " stream - stop");
                          EReject (RejTrackError (parseError cause [DevSplice [kind]]))]).
    { rewrite (bind_ok _ _ _ (forEach_release TrackError env m (smap_keys m) w1
                                 (fun key H => H))).
      rewrite (bind_ok _ _ _ (emit_add_trace _ _ _)).
      rewrite reject_eq. cbn [add_trace promise script trace devices w_options].
      rewrite B. eexists. split; [reflexivity|]. cbn.
      split; [reflexivity|]. split; [exact A|].
      rewrite C, <- !app_assoc. reflexivity. }
    destruct Hroll as (w' & Er & P1 & P2 & P3).
    exists w', t1, (release_all env m).
    split.
    { destruct (Hf cause Hfail) as [E1 | E1]; rewrite E1.
      - unfold async. cbn [app] in Er. rewrite Er. reflexivity.
      - exact Er. }
    repeat split; auto using release_all_release.
    + apply capture_calls_release, release_all_release.
    + intros key s Hs. cbn in Hs. eapply release_all_stops; eauto.
  - (* the capture of [d] succeeds *)
    destruct ss as [|s ss']; [discriminate|].
    cbn in Hscript. injection Hlen as Hlen.
    cbn [app] in Hcap. pose proof (Forall_inv Hcap) as Hd.
    apply Forall_inv_tail in Hcap.
    cbn [app obtainDevices]. change (array_key [d]) with d.
    match goal with
    | |- context [match deviceGUM env _ with
                  | Some capture => capture ?s_cb ?e_cb
                  | None => _ end] =>
        destruct (capture_answer TrackError env d s_cb e_cb w (GSuccess s)
                    (map GSuccess ss' ++ failure :: rest) Hd Hscript)
          as (capture & w1 & t1 & Eg & (A & B & C & D & E) & Hs & _)
    end.
    rewrite Eg, (Hs s eq_refl).
    destruct (IH ss' (smap_set d s m) w1 Hcap Hlen A)
      as (w' & tc & tr & Ew & P1 & P2 & P3 & P4 & P5 & P6 & P7 & P8).
    rewrite B in P1.
    exists w', (t1 ++ tc), tr.
    split; [unfold async; now rewrite Ew|].
    split; [exact P1|]. split; [exact P2|].
    split; [rewrite P3, C, <- !app_assoc; reflexivity|].
    split; [rewrite capture_calls_app, D, P4; reflexivity|].
    split; [rewrite unsettled_app, E, P5; reflexivity|].
    split; [exact P6|]. split; [exact P7|].
    exact P8.
Qed.

Lemma obtainDevices_rollback_witness :
  let w := mkWorld initial_devices no_options (@Pending (Exn * list DeviceArg))
             [GSuccess (mkMediaStream [mkTrack "a1"] [] None);
              GSuccess (mkMediaStream [] [mkTrack "v1"] None);
              GError (GumError "PermissionDeniedError")] [] in
  let rejection :=
    RejTrackError (GumError "PermissionDeniedError", [DevSplice ["desktop"]]) in
  exists w' t_capture t_release,
    obtainDevices pair (env_of firefox true) (["audio"; "video"] ++ "desktop" :: [])
      (Some []) (deviceGUM (env_of firefox true))
      (@successCallback (Exn * list DeviceArg))
      (fun err => reject (RejTrackError err)) w
    = (Ok tt, w')
    /\ promise w' = Rejected rejection
    /\ script w' = []
    /\ trace w'
       = trace w ++ t_capture ++ t_release
         ++ [ELog "failed to obtain desktop stream - stop"; EReject rejection]
    /\ capture_calls t_capture = 3%nat
    /\ unsettled t_capture = true
    /\ forallb is_release t_release = true
    /\ capture_calls t_release = 0%nat
    /\ (forall key s,
          smap_get key
            [("audio", mkMediaStream [mkTrack "a1"] [] None);
             ("video", mkMediaStream [] [mkTrack "v1"] None)] = Some s ->
          In (EStopMediaStream s) t_release).
Proof.
  cbv zeta.
  apply (obtainDevices_rollback (Exn * list DeviceArg)%type pair
           (env_of firefox true) ["audio"; "video"] "desktop" []
           [mkMediaStream [mkTrack "a1"] [] None;
            mkMediaStream [] [mkTrack "v1"] None]
           (GError (GumError "PermissionDeniedError"))
           (GumError "PermissionDeniedError") [] []
           (mkWorld initial_devices no_options Pending
              [GSuccess (mkMediaStream [mkTrack "a1"] [] None);
               GSuccess (mkMediaStream [] [mkTrack "v1"] None);
               GError (GumError "PermissionDeniedError")] [])).
  - apply Forall_cons; [left; reflexivity|].
    apply Forall_cons; [right; left; reflexivity|].
    apply Forall_cons; [right; right; split; reflexivity|].
    apply Forall_nil.
  - reflexivity.
  - reflexivity.
  - left. reflexivity.
Defined.

(** The example of the specification, through the entry point on Firefox:
    audio and video are captured, desktop fails; both streams are stopped
    (tracks first, then the stream) before the promise is rejected. *)
Example audio_video_then_desktop_fails :
  let a := mkMediaStream [mkTrack "a1"] [] None in
  let v := mkMediaStream [] [mkTrack "v1"] None in
  let w := mkWorld initial_devices no_options (@Pending (Exn * list DeviceArg))
             [GSuccess a; GSuccess v; GError (GumError "PermissionDeniedError")]
             [] in
  let w' := obtainAudioAndVideoPermissions pair (env_of firefox true)
              (Some ["audio"; "video"; "desktop"]) w in
  promise w'
  = Rejected (RejTrackError (GumError "PermissionDeniedError",
                             [DevSplice ["desktop"]]))
  /\ trace w'
     = [ EGetUserMedia (mkConstraints (CBool true) (CBool false) None);
         ELog "onUserMediaSuccess";
         EEmitAvailableDevicesChanged (mkDevices true true);
         EGetUserMedia
           (mkConstraints (CBool false)
              (CObj (mkTrackConstraints (Some empty_mandatory)
                       (Some [opt_flag "googLeakyBucket" true]) None None None))
              None);
         ELog "onUserMediaSuccess";
         EEmitAvailableDevicesChanged (mkDevices true true);
         EObtainStream;
         EStopMediaStream a; ETrackStop (mkTrack "a1"); EStreamStop a;
         EStopMediaStream v; ETrackStop (mkTrack "v1"); EStreamStop v;
         ELog "failed to obtain desktop stream - stop";
         EReject (RejTrackError (GumError "PermissionDeniedError",
                                 [DevSplice ["desktop"]])) ].
Proof. cbv zeta. split; reflexivity. Qed.

(** On React Native [getUserMediaWithConstraints] does not call the builder:
    the constraints are fixed, with the last front-facing video source, and
    a preferred camera is not looked at. *)
Example react_native_ignores_camera_id :
  let w := mkWorld initial_devices
             (mkOptions None None None None None None (Some "cam-1") None None)
             (@Pending unit) [GNoCallback] [] in
  trace (snd (getUserMediaWithConstraints
                (mkEnv react_native Resolutions_sample 1920 1080 "" true
                   [mkSourceInfo "video" "back" "s0";
                    mkSourceInfo "video" "front" "s1"] true true)
                ["video"] done (Some done) w))
  = [ EGetSources;
      ELog "Get media constraints";
      EGetUserMedia
        (mkConstraints (CBool true)
           (CObj (mkTrackConstraints None (Some [opt_sourceId (Some "s1")])
                    None None None))
           None) ].
Proof. reflexivity. Qed.

(** * Further properties of the module *)

(** ** When the builder throws *)

Definition is_throw {A} (r : result A) : bool :=
  match r with
  | Ok _ => false
  | Throw _ => true
  end.

(** A frame-rate option is given. *)
Definition frame_rate_override (o : Options) : bool :=
  truthy (minFps o) || truthy (maxFps o) || truthy (fps o).

(** The requests on which the override blocks meet a screen object of the
    Temasys plugin (no [mandatory]) or of Firefox (neither [mandatory] nor
    [optional]). *)
Definition builder_throws (env : Env) (um : list string) (o : Options) : bool :=
  has um "screen" && negb (has um "desktop") && negb (isChrome (browser env))
  && (if isTemasysPluginUsed (browser env)
      then frame_rate_override o
      else isFirefox (browser env)
           && (truthy (bandwidth o) || frame_rate_override o)).

(** The two override blocks and the fake-device block, after the kinds. *)
Definition finish (env : Env) (o : Options) (c4 : Constraints) (b3 : Builder)
    : result Constraints * Builder :=
  match bandwidth_step o c4 with
  | Throw e => (Throw e, b3)
  | Ok c5 =>
      match fps_step c5 b3 with
      | (Throw e, b6) => (Throw e, b6)
      | (Ok c6, b6) => (Ok (fake_step env (b_options b6) c6), b6)
      end
  end.

Section ThrowFacts.

Variable env : Env.

Lemma build_finish (um : list string) (o : Options) :
  build env um o =
  match camera_step env um o (mkConstraints (CBool false) (CBool false) None) with
  | Throw e => (Throw e, mkBuilder o [])
  | Ok c1 =>
      match screen_step env um (microphone_step env um o c1) (mkBuilder o []) with
      | (Throw e, b3) => (Throw e, b3)
      | (Ok c3, b3) => finish env o (desktop_step env um o c3) b3
      end
  end.
Proof. rewrite build_blocks. reflexivity. Qed.

(** The camera block leaves a video field on which no override throws. *)
Lemma camera_step_overridable (um : list string) (o : Options) :
  exists c1,
    camera_step env um o (mkConstraints (CBool false) (CBool false) None) = Ok c1
    /\ overridable (video c1)
    /\ audio c1 = CBool false /\ fake c1 = None.
Proof.
  destruct (has um "video") eqn:Hv.
  - destruct (camera_step_video env um o
                (mkConstraints (CBool false) (CBool false) None) Hv)
      as (t & l & E & Hm & Hl & _).
    eexists. split; [exact E|]. split; [|split; reflexivity].
    right. exists t. eexists; eexists. cbn. eauto.
  - rewrite (camera_step_no_video env um o _ Hv). eexists.
    split; [reflexivity|]. split; [now left | split; reflexivity].
Qed.

Lemma finish_overridable (o : Options) (c4 : Constraints) (b3 : Builder) :
  overridable (video c4) ->
  exists c b, finish env o c4 b3 = (Ok c, b).
Proof.
  intros Ov. unfold finish.
  destruct (bandwidth_step_overridable o c4 Ov) as (c5 & E5 & Ov5 & _).
  rewrite E5.
  destruct (fps_step_overridable c5 b3 Ov5) as (c6 & b6 & E6 & _).
  rewrite E6. eauto.
Qed.

Lemma chrome_capture_overridable (source : string) (id : option string)
    (c : Constraints) :
  overridable (video (set_video (CObj (chrome_capture env source id)) c)).
Proof.
  right. eexists; eexists; eexists. cbn.
  split; [reflexivity|]. split; reflexivity.
Qed.

(** The frame-rate block on a video object without [mandatory]. *)
Lemma fps_step_no_mandatory (c : Constraints) (t : TrackConstraints)
    (o : Options) (lg : list string) :
  video c = CObj t -> mandatory t = None ->
  is_throw (fst (fps_step c (mkBuilder o lg))) = frame_rate_override o.
Proof.
  intros Hv Hm. rewrite fps_step_eq. unfold frame_rate_override.
  assert (He : ensure_video c = c) by (unfold ensure_video; now rewrite Hv).
  assert (Hthrow : forall f, on_video_mandatory c f
                   = Throw (TypeError "constraints.video.mandatory is undefined")).
  { intros f. unfold on_video_mandatory. now rewrite Hv, Hm. }
  destruct (truthy (minFps o)) eqn:E1, (truthy (maxFps o)) eqn:E2,
    (truthy (fps o)) eqn:E3; cbn [orb]; rewrite ?He, ?Hthrow; reflexivity.
Qed.

Lemma finish_temasys_screen (o : Options) (c : Constraints) (lg : list string) :
  is_throw
    (fst (finish env o
            (set_video
               (CObj (mkTrackConstraints None
                        (Some [opt_sourceId (Some (screensharingKey env))])
                        None None None)) c)
            (mkBuilder o lg)))
  = frame_rate_override o.
Proof.
  unfold finish, bandwidth_step.
  destruct (truthy (bandwidth o)).
  - cbn [ensure_video video_optional_push set_video video truthy
         Truthy_ConstraintValue negb optional].
    match goal with |- context [fps_step ?c5 _] =>
      pose proof (fps_step_no_mandatory c5 _ o lg eq_refl eq_refl) as H;
      destruct (fps_step c5 (mkBuilder o lg)) as [[c6|e] b6]
    end; exact H.
  - match goal with |- context [fps_step ?c5 _] =>
      pose proof (fps_step_no_mandatory c5 _ o lg eq_refl eq_refl) as H;
      destruct (fps_step c5 (mkBuilder o lg)) as [[c6|e] b6]
    end; exact H.
Qed.

Lemma finish_firefox_screen (o : Options) (c : Constraints) (lg : list string) :
  is_throw
    (fst (finish env o
            (set_video
               (CObj (mkTrackConstraints None None None
                        (Some "window") (Some "window"))) c)
            (mkBuilder o lg)))
  = truthy (bandwidth o) || frame_rate_override o.
Proof.
  unfold finish, bandwidth_step.
  destruct (truthy (bandwidth o)); [reflexivity|].
  cbn [orb].
  match goal with |- context [fps_step ?c5 _] =>
    pose proof (fps_step_no_mandatory c5 _ o lg eq_refl eq_refl) as H;
    destruct (fps_step c5 (mkBuilder o lg)) as [[c6|e] b6]
  end; exact H.
Qed.

End ThrowFacts.

(** X1. The builder throws on exactly these requests: a screen kind without
    a desktop kind, on a browser that is not Chrome, together with a
    frame-rate option on the Temasys plugin, or with a bandwidth or
    frame-rate option on Firefox. On every other request it returns a
    descriptor. *)
Theorem getConstraints_throws_exactly (env : Env) (um : list string)
    (o : Options) :
  is_throw (fst (build env um o)) = builder_throws env um o.
Proof.
  rewrite build_finish.
  destruct (camera_step_overridable env um o) as (c1 & E1 & Ov1 & _).
  rewrite E1.
  assert (Ov2 : overridable (video (microphone_step env um o c1)))
    by now rewrite (proj1 (microphone_step_video env um o c1)).
  set (c2 := microphone_step env um o c1) in *.
  assert (Hok : forall c4 b3, overridable (video c4) ->
                  is_throw (fst (finish env o c4 b3)) = false).
  { intros c4 b3 Ov. destruct (finish_overridable env o c4 b3 Ov) as (c & b & E).
    now rewrite E. }
  unfold builder_throws, screen_step, desktop_step, bind, logger_error, modify, ret.
  destruct (has um "screen"); cbn [andb].
  - destruct (isChrome (browser env)); cbn [andb negb].
    + rewrite andb_false_r. cbn [andb].
      destruct (has um "desktop");
        apply Hok, chrome_capture_overridable.
    + destruct (isTemasysPluginUsed (browser env)).
      * destruct (has um "desktop"); cbn [andb negb].
        -- apply Hok, chrome_capture_overridable.
        -- apply finish_temasys_screen.
      * destruct (isFirefox (browser env)).
        -- destruct (has um "desktop"); cbn [andb negb].
           ++ apply Hok, chrome_capture_overridable.
           ++ apply finish_firefox_screen.
        -- rewrite andb_false_r.
           destruct (has um "desktop"); cbn [andb negb fst snd].
           ++ apply Hok, chrome_capture_overridable.
           ++ apply Hok, Ov2.
  - destruct (has um "desktop").
    + apply Hok, chrome_capture_overridable.
    + apply Hok, Ov2.
Qed.

(** ** What the builder asks for *)

Section RequestFacts.

Variable env : Env.

Lemma finish_audio (o : Options) (c4 c : Constraints) (b3 b : Builder) :
  finish env o c4 b3 = (Ok c, b) -> audio c = audio c4.
Proof.
  unfold finish. intros H.
  destruct (bandwidth_step o c4) as [c5|e] eqn:E5; [|discriminate].
  destruct (fps_step c5 b3) as [[c6|e] b6] eqn:E6; [|discriminate].
  injection H as <- <-.
  rewrite (proj1 (fake_step_fields env _ _)),
    (proj1 (fps_step_fields _ _ _ _ E6)), (proj1 (bandwidth_step_fields _ _ _ E5)).
  reflexivity.
Qed.

(** The audio field of a returned descriptor is the one the microphone block
    wrote on an audio field that was [false]. *)
Lemma build_audio (um : list string) (o : Options) (c : Constraints)
    (b : Builder) :
  build env um o = (Ok c, b) ->
  audio c
  = audio (microphone_step env um o
             (mkConstraints (CBool false) (CBool false) None)).
Proof.
  rewrite build_finish. intros H.
  destruct (camera_step_overridable env um o) as (c1 & E1 & _ & Ha1 & Hf1).
  rewrite E1 in H.
  destruct (screen_step env um _ _) as [[c3|e] b3] eqn:E3; [|discriminate].
  rewrite (finish_audio _ _ _ _ _ H), desktop_step_audio,
    (screen_step_audio env _ _ _ _ _ E3).
  unfold microphone_step.
  destruct (has um "audio"), (isReactNative (browser env)),
    (isFirefox (browser env)), (truthy (micDeviceId o));
    cbn; auto.
Qed.

End RequestFacts.

(** X2. In every descriptor the builder returns, the audio field is [false]
    exactly when audio was not asked for; when it is an object, its
    [mandatory] is empty, so nothing about audio can make the capture fail;
    and on a browser that is neither React Native nor Firefox the object's
    [optional] array is the microphone [sourceId] (when one is given)
    followed by the seven quality hints. *)
Theorem audio_constraint_never_mandatory (env : Env) (um : list string)
    (o : Options) (c : Constraints) (b : Builder) :
  build env um o = (Ok c, b) ->
  (audio c = CBool false <-> has um "audio" = false)
  /\ (forall t, audio c = CObj t -> mandatory t = Some empty_mandatory)
  /\ (has um "audio" = true ->
      isReactNative (browser env) = false ->
      isFirefox (browser env) = false ->
      exists t,
        audio c = CObj t
        /\ optional t
           = Some ((if truthy (micDeviceId o)
                    then [opt_sourceId (micDeviceId o)] else [])
                   ++ audio_hints)).
Proof.
  intros H. rewrite (build_audio env um o c b H). unfold microphone_step.
  destruct (has um "audio"), (isReactNative (browser env)),
    (isFirefox (browser env)), (truthy (micDeviceId o));
    cbn; (split; [split; congruence|]);
    (split; [intros t [= <-]; reflexivity|]);
    intros; try discriminate; eexists; split; reflexivity.
Qed.

Lemma audio_constraint_never_mandatory_witness :
  exists c b t,
    build (env_of chrome true) ["audio"]
      (mkOptions None None None None None None None (Some "mic-1") None)
    = (Ok c, b)
    /\ audio c = CObj t
    /\ mandatory t = Some empty_mandatory
    /\ optional t = Some (opt_sourceId (Some "mic-1") :: audio_hints).
Proof.
  pose (o := mkOptions None None None None None None None (Some "mic-1") None).
  let r := eval vm_compute in (build (env_of chrome true) ["audio"] o) in
  match r with
  | (Ok ?c, ?b) =>
      destruct (audio_constraint_never_mandatory (env_of chrome true) ["audio"]
                  o c b eq_refl) as (_ & Hm & Ho);
      destruct (Ho eq_refl eq_refl eq_refl) as (t & Et & Eo);
      exists c, b, t; split; [reflexivity|]; split; [exact Et|];
      split; [exact (Hm t Et) | exact Eo]
  end.
Defined.

(** X3. A request with no video, screen or desktop kind always gets a
    descriptor, and its video field is [false] exactly when neither a
    bandwidth nor a frame-rate option is given: with one of them (say, for
    an audio-only request) the builder creates a video object, so the
    descriptor asks for a camera that was not requested. *)
Theorem override_requests_video (env : Env) (um : list string) (o : Options) :
  has um "video" = false ->
  has um "screen" = false ->
  has um "desktop" = false ->
  exists c b,
    build env um o = (Ok c, b)
    /\ (video c = CBool false
        <-> truthy (bandwidth o) || frame_rate_override o = false)
    /\ (truthy (bandwidth o) || frame_rate_override o = true ->
        exists t m, video c = CObj t /\ mandatory t = Some m
                    /\ minWidth m = None /\ minHeight m = None
                    /\ deviceId t = None).
Proof.
  intros Hv Hs Hd. rewrite build_finish.
  rewrite (camera_step_no_video env um o _ Hv),
    (screen_step_no_screen env um _ _ Hs), (desktop_step_no_desktop env um o _ Hd).
  set (c2 := microphone_step env um o _).
  assert (Hc2 : video c2 = CBool false).
  { unfold c2. now rewrite (proj1 (microphone_step_video env um o _)). }
  unfold finish, bandwidth_step, frame_rate_override.
  destruct (truthy (bandwidth o)) eqn:Eb; cbn [orb].
  - unfold ensure_video, video_optional_push. rewrite Hc2. cbn -[fps_step].
    match goal with |- context [fps_step ?c5 ?b3] =>
      destruct (fps_step_object c5 b3 _ empty_mandatory eq_refl eq_refl)
        as (m' & b' & E6 & W1 & _ & H1 & _)
    end.
    rewrite E6. eexists; eexists. split; [reflexivity|].
    rewrite (proj2 (fake_step_fields env _ _)). cbn.
    split; [split; discriminate|].
    intros _. eexists; exists m'. repeat split; auto.
  - rewrite fps_step_eq.
    unfold ensure_video. rewrite Hc2. cbn [truthy Truthy_ConstraintValue negb].
    destruct (truthy (minFps o)) eqn:E1, (truthy (maxFps o)) eqn:E2,
      (truthy (fps o)) eqn:E3; cbn;
      eexists; eexists; (split; [reflexivity|]);
      rewrite (proj2 (fake_step_fields env _ _)); cbn; rewrite ?Hc2;
      (split; [split; congruence|]);
      intros; try discriminate;
      eexists; eexists; repeat split; reflexivity.
Qed.

Lemma override_requests_video_witness :
  exists c b t,
    build (env_of chrome true) ["audio"]
      (mkOptions None (Some 512%Z) None None None None None None None)
    = (Ok c, b)
    /\ video c = CObj t
    /\ optional t = Some [opt_bandwidth (Some 512%Z)].
Proof.
  destruct (override_requests_video (env_of chrome true) ["audio"]
              (mkOptions None (Some 512%Z) None None None None None None None)
              eq_refl eq_refl eq_refl) as (c & b & E & _ & _).
  exists c, b. pose proof E as E'. vm_compute in E'. injection E' as Ec _.
  eexists. split; [exact E|]. rewrite <- Ec. split; reflexivity.
Defined.

(** X4. A request with a desktop kind always gets a descriptor, whatever
    else is asked for. Its video object is the desktop capture of the whole
    screen with the source of [options.desktopStream], no minimum size and
    no device identifier; the frame rate is capped at 3 unless
    [options.maxFps] is given, which replaces the cap; a minimum frame rate
    is present only with [options.minFps] or [options.fps]; [optional] holds
    the bandwidth and nothing else. *)
Theorem desktop_request_shape (env : Env) (um : list string) (o : Options) :
  has um "desktop" = true ->
  exists c b m,
    build env um o = (Ok c, b)
    /\ video c
       = CObj (mkTrackConstraints (Some m)
                 (Some (if truthy (bandwidth o)
                        then [opt_bandwidth (bandwidth o)] else []))
                 None None None)
    /\ m = mkMandatory None None
             (Some (screen_width env)) (Some (screen_height env))
             (if truthy (minFps o) || truthy (fps o)
              then js_or (minFps o) (fps o) else None)
             (if truthy (maxFps o) then maxFps o else Some 3%Z)
             (Some "desktop") (desktopStream o) (Some true).
Proof.
  intros Hd. rewrite build_finish.
  destruct (camera_step_overridable env um o) as (c1 & E1 & _).
  rewrite E1.
  destruct (screen_step_builder env um (microphone_step env um o c1))
    as (r3 & lg & E3 & _).
  rewrite (E3 o).
  assert (Hr3 : exists c3, r3 = Ok c3).
  { specialize (E3 o). revert E3.
    unfold screen_step, bind, logger_error, modify, ret.
    destruct (has um "screen"), (isChrome (browser env)),
      (isTemasysPluginUsed (browser env)), (isFirefox (browser env));
      intros E3; injection E3 as <- _; eauto. }
  destruct Hr3 as (c3 & ->).
  unfold desktop_step. rewrite Hd.
  unfold finish, bandwidth_step.
  destruct (truthy (bandwidth o)) eqn:Eb;
    cbn -[fps_step]; rewrite fps_step_eq;
    destruct (truthy (minFps o)) eqn:E1', (truthy (maxFps o)) eqn:E2',
      (truthy (fps o)) eqn:E3'; cbn;
    eexists; eexists; eexists;
    (split; [reflexivity|]);
    rewrite (proj2 (fake_step_fields env _ _)); cbn;
    split; reflexivity.
Qed.

Lemma desktop_request_shape_witness :
  exists c b,
    build (env_of chrome true) ["video"; "desktop"]
      (mkOptions (Some "720") None None None (Some 10%Z) (Some "window:7") None
         None None)
    = (Ok c, b)
    /\ video c
       = CObj (mkTrackConstraints
                 (Some (mkMandatory None None (Some 1920%Z) (Some 1080%Z) None
                          (Some 10%Z) (Some "desktop") (Some "window:7")
                          (Some true)))
                 (Some []) None None None).
Proof.
  destruct (desktop_request_shape (env_of chrome true) ["video"; "desktop"]
              (mkOptions (Some "720") None None None (Some 10%Z)
                 (Some "window:7") None None None) eq_refl)
    as (c & b & m & E & Ev & Em).
  exists c, b. split; [exact E|]. rewrite Ev, Em. reflexivity.
Defined.

(** ** The builder inside [getUserMediaWithConstraints] *)

(** X5. When the builder throws, [getUserMediaWithConstraints] (off React
    Native) throws the same error to its caller: it calls neither callback
    and no backend, and leaves the availability flags, the pending answers
    and the promise as they were. *)
Theorem getUserMediaWithConstraints_builder_throw (TrackError : Type)
    (env : Env) (um : list string)
    (success_callback : MediaStream -> M (World TrackError) unit)
    (failure_callback : option (Exn -> M (World TrackError) unit))
    (w : World TrackError) (e : Exn) :
  isReactNative (browser env) = false ->
  fst (build env um (w_options w)) = Throw e ->
  exists o' lg,
    getUserMediaWithConstraints env um success_callback failure_callback w
    = (Throw e,
       mkWorld (devices w) o' (promise w) (script w)
         (trace w ++ map (fun m => ELog m) lg)).
Proof.
  intros Hrn Hb. unfold getUserMediaWithConstraints. rewrite Hrn.
  unfold bind, call_getConstraints. unfold build in Hb.
  destruct (getConstraints env um (mkBuilder (w_options w) [])) as [r b].
  cbn in Hb. subst r. eauto.
Qed.

Lemma getUserMediaWithConstraints_builder_throw_witness :
  exists o' lg,
    getUserMediaWithConstraints (env_of firefox true) ["screen"]
      (fun _ => reject (RejExn (Error "success callback")))
      (Some (fun _ => reject (RejExn (Error "failure callback"))))
      (mkWorld initial_devices
         (mkOptions None (Some 1000%Z) None None None None None None None)
         (@Pending unit) [GSuccess (mkMediaStream [] [mkTrack "v"] None)] [])
    = (Throw (TypeError "constraints.video.optional is undefined"),
       mkWorld initial_devices o' Pending
         [GSuccess (mkMediaStream [] [mkTrack "v"] None)]
         ([] ++ map (fun m => ELog m) lg)).
Proof.
  apply (getUserMediaWithConstraints_builder_throw unit (env_of firefox true)
           ["screen"] _ _
           (mkWorld initial_devices
              (mkOptions None (Some 1000%Z) None None None None None None None)
              (@Pending unit) [GSuccess (mkMediaStream [] [mkTrack "v"] None)] []));
    reflexivity.
Defined.

(** ** The front camera on React Native *)

Definition is_front_video (sourceInfo : SourceInfo) : bool :=
  (si_kind sourceInfo =? "video") && (si_facing sourceInfo =? "front").

Lemma front_video_source_from (infos : list SourceInfo) (acc : option string) :
  fold_left (fun videoSourceId sourceInfo =>
               if (si_kind sourceInfo =? "video")
                  && (si_facing sourceInfo =? "front")
               then Some (si_id sourceInfo) else videoSourceId)
            infos acc
  = match front_video_source infos with
    | Some id => Some id
    | None => acc
    end.
Proof.
  unfold front_video_source.
  set (f := fun (videoSourceId : option string) (sourceInfo : SourceInfo) =>
              if (si_kind sourceInfo =? "video")
                 && (si_facing sourceInfo =? "front")
              then Some (si_id sourceInfo) else videoSourceId).
  revert acc.
  induction infos as [|s r IH]; intros acc; [reflexivity|].
  cbn [fold_left]. rewrite (IH (f acc s)), (IH (f None s)).
  destruct (fold_left f r None); [reflexivity|].
  unfold f. destruct ((si_kind s =? "video") && (si_facing s =? "front"));
    reflexivity.
Qed.

Lemma front_video_source_app (l1 l2 : list SourceInfo) :
  front_video_source (l1 ++ l2)
  = match front_video_source l2 with
    | Some id => Some id
    | None => front_video_source l1
    end.
Proof.
  unfold front_video_source at 1. rewrite fold_left_app.
  apply front_video_source_from.
Qed.

Lemma front_video_source_none (infos : list SourceInfo) :
  front_video_source infos = None
  <-> forallb (fun s => negb (is_front_video s)) infos = true.
Proof.
  induction infos as [|s r IH].
  - split; reflexivity.
  - change (s :: r) with ([s] ++ r). rewrite front_video_source_app.
    cbn [forallb app]. unfold is_front_video at 1.
    destruct (front_video_source r) as [id|] eqn:E.
    + split; [discriminate|]. intros H. apply andb_true_iff in H as [_ H].
      apply IH in H. discriminate.
    + unfold front_video_source. cbn.
      destruct ((si_kind s =? "video") && (si_facing s =? "front")); cbn.
      * split; discriminate.
      * split; [intros _; now apply IH | reflexivity].
Qed.

(** X6. On React Native the camera put into the constraints is the last
    front-facing video source that [MediaStreamTrack.getSources] reports:
    a source that no front-facing video source follows is the one chosen,
    and the identifier is undefined exactly when there is no such source. *)
Theorem front_video_source_last (infos : list SourceInfo) :
  (front_video_source infos = None
   <-> forallb (fun s => negb (is_front_video s)) infos = true)
  /\ (forall before s after,
        infos = before ++ s :: after ->
        is_front_video s = true ->
        forallb (fun s' => negb (is_front_video s')) after = true ->
        front_video_source infos = Some (si_id s)).
Proof.
  split; [apply front_video_source_none|].
  intros before s after -> Hs Hafter.
  change (s :: after) with ([s] ++ after).
  rewrite app_assoc, front_video_source_app.
  rewrite (proj2 (front_video_source_none after) Hafter).
  rewrite front_video_source_app.
  unfold front_video_source at 1. cbn. unfold is_front_video in Hs.
  now rewrite Hs.
Qed.

Lemma front_video_source_last_witness :
  front_video_source
    [mkSourceInfo "video" "front" "cam-a"; mkSourceInfo "audio" "" "mic";
     mkSourceInfo "video" "front" "cam-b"; mkSourceInfo "video" "back" "cam-c"]
  = Some "cam-b".
Proof.
  apply (proj2 (front_video_source_last _)
           [mkSourceInfo "video" "front" "cam-a"; mkSourceInfo "audio" "" "mic"]
           (mkSourceInfo "video" "front" "cam-b")
           [mkSourceInfo "video" "back" "cam-c"]);
    reflexivity.
Defined.

(** ** The promise of the entry point *)

Section PromiseFacts.

Variable TrackError : Type.
Variable parseError : Exn -> list DeviceArg -> TrackError.
Variable env : Env.

Lemma steady_call_getConstraints (um : list string) :
  steady (@call_getConstraints TrackError env um).
Proof.
  intros w. unfold call_getConstraints.
  destruct (getConstraints env um _) as [r b]. cbn.
  split; [eauto | auto].
Qed.

Lemma steady_getUM (um : list string) (c : Constraints)
    (s_cb : MediaStream -> M (World TrackError) unit)
    (f_cb : option (Exn -> M (World TrackError) unit)) :
  (forall s, steady (s_cb s)) ->
  (forall g e, f_cb = Some g -> steady (g e)) ->
  steady (getUM um c s_cb f_cb).
Proof.
  intros Hs Hf w. rewrite getUM_after.
  destruct (steady_after_getUserMedia TrackError um s_cb f_cb Hs Hf
              (add_trace [EGetUserMedia c] w)) as ((t & Ht) & Hp).
  cbn in Ht, Hp. split.
  - exists (EGetUserMedia c :: t). rewrite Ht, <- app_assoc. reflexivity.
  - exact Hp.
Qed.

Lemma steady_getUserMediaWithConstraints (um : list string)
    (s_cb : MediaStream -> M (World TrackError) unit)
    (f_cb : option (Exn -> M (World TrackError) unit)) :
  (forall s, steady (s_cb s)) ->
  (forall g e, f_cb = Some g -> steady (g e)) ->
  steady (getUserMediaWithConstraints env um s_cb f_cb).
Proof.
  intros Hs Hf. unfold getUserMediaWithConstraints.
  destruct (isReactNative (browser env)).
  - apply steady_bind; [apply steady_emit | intros _].
    apply steady_async.
    apply steady_bind; [apply steady_emit | intros _].
    now apply steady_getUM.
  - apply steady_bind; [apply steady_call_getConstraints | intros c].
    now apply steady_getUM.
Qed.

Lemma steady_deviceGUM (key : string) (capture : CapturePrimitive TrackError)
    (s_cb : MediaStream -> M (World TrackError) unit)
    (e_cb : Exn -> M (World TrackError) unit) :
  deviceGUM env key = Some capture ->
  (forall s, steady (s_cb s)) -> (forall e, steady (e_cb e)) ->
  steady (capture s_cb e_cb).
Proof.
  unfold deviceGUM. intros H Hs He.
  destruct (key =? "audio"); [injection H as <-|].
  { apply steady_getUserMediaWithConstraints; [exact Hs|].
    intros g e [= <-]. apply He. }
  destruct (key =? "video"); [injection H as <-|].
  { apply steady_getUserMediaWithConstraints; [exact Hs|].
    intros g e [= <-]. apply He. }
  destruct ((key =? "desktop") && screenObtainer_isSupported env);
    [injection H as <-; now apply steady_obtainStream|].
  destruct (Object_prototype key) as [[|]|]; try discriminate.
  injection H as <-. apply steady_ret.
Qed.

Lemma steady_obtainDevices (devs : list string) (streams : option StreamMap) :
  steady (obtainDevices parseError env devs streams (deviceGUM env)
            (@successCallback TrackError)
            (fun err => reject (RejTrackError err))).
Proof.
  revert streams. induction devs as [|d rest IH]; intros streams.
  - cbn. apply steady_successCallback.
  - cbn [obtainDevices].
    destruct (deviceGUM env (array_key [d])) as [capture|] eqn:E;
      [|apply steady_throw].
    apply (steady_deviceGUM _ _ _ _ E).
    + intros s. apply IH.
    + intros e. destruct streams as [m|]; [|apply steady_throw].
      apply steady_bind.
      * apply steady_forEach. intros key.
        destruct (smap_get key m);
          [apply steady_stopMediaStream | apply steady_throw].
      * intros _. apply steady_bind; [apply steady_emit | intros _].
        apply steady_reject.
Qed.

(** The executor after its test of the desktop support. *)
Definition after_support_check (devices : list string)
    : M (World TrackError) unit :=
  if isFirefox (browser env) || isReactNative (browser env)
     || isTemasysPluginUsed (browser env)
  then
    obtainDevices parseError env devices (Some []) (deviceGUM env)
      (@successCallback TrackError)
      (fun err => reject (RejTrackError err))
  else
    let hasDesktop := (indexOf devices "desktop" >? -1)%Z in
    let devices :=
      if hasDesktop then splice1 (Z.to_nat (indexOf devices "desktop")) devices
      else devices in
    options <- gets (@w_options TrackError) ;;
    put_w_options (set_resolution (js_or (resolution options) (Some "360")) options) ;;
    if (0 <? length devices)%nat then
      getUserMediaWithConstraints env devices
        (fun stream =>
           if negb (has_tracks_for devices stream) then
             stopMediaStream env stream ;;
             reject (RejTrackError
                       (parseError (Error "Unable to get the audio and video tracks.")
                          (map DevName devices)))
           else if hasDesktop then
             obtainStream
               (fun desktopStream =>
                  successCallback [("audioVideo", stream);
                                   ("desktopStream", desktopStream)])
               (fun error =>
                  stopMediaStream env stream ;;
                  reject (RejTrackError (parseError error (map DevName devices))))
           else successCallback [("audioVideo", stream)])
        (Some (fun error =>
                 reject (RejTrackError (parseError error (map DevName devices)))))
    else if hasDesktop then
      obtainStream
        (fun stream => successCallback [("desktopStream", stream)])
        (fun error =>
           reject (RejTrackError (parseError error [DevName "desktop"])))
    else ret tt.

Lemma executor_after_support_check (devices0 : option (list string)) :
  executor parseError env devices0
  = (let devices := match devices0 with
                    | Some l => l
                    | None => ["audio"; "video"]
                    end in
     when (negb (screenObtainer_isSupported env)
           && negb (indexOf devices "desktop" =? -1)%Z)
       (reject (RejExn (Error "Desktop sharing is not supported!"))) ;;
     after_support_check devices).
Proof. reflexivity. Qed.

Lemma steady_after_support_check (devices : list string) :
  steady (after_support_check devices).
Proof.
  unfold after_support_check.
  destruct (isFirefox (browser env) || isReactNative (browser env)
            || isTemasysPluginUsed (browser env)).
  - apply steady_obtainDevices.
  - cbv zeta.
    apply steady_bind; [apply steady_gets | intros o].
    apply steady_bind; [apply steady_put_w_options | intros _].
    destruct (0 <? length _)%nat.
    + apply steady_getUserMediaWithConstraints.
      * intros s. destruct (negb (has_tracks_for _ s)).
        -- apply steady_bind;
             [apply steady_stopMediaStream | intros _; apply steady_reject].
        -- destruct (indexOf devices "desktop" >? -1)%Z.
           ++ apply steady_obtainStream.
              ** intros s'. apply steady_successCallback.
              ** intros e. apply steady_bind;
                   [apply steady_stopMediaStream | intros _; apply steady_reject].
           ++ apply steady_successCallback.
      * intros g e [= <-]. apply steady_reject.
    + destruct (indexOf devices "desktop" >? -1)%Z.
      * apply steady_obtainStream.
        -- intros s. apply steady_successCallback.
        -- intros e. apply steady_reject.
      * apply steady_ret.
Qed.

(** The promise after [new Promise(executor)], from the executor's run. *)
Lemma obtainAudioAndVideoPermissions_settled (devices0 : option (list string))
    (w : World TrackError) :
  let w' := obtainAudioAndVideoPermissions parseError env devices0 w in
  match promise (snd (executor parseError env devices0 w)) with
  | Pending =>
      match fst (executor parseError env devices0 w) with
      | Ok _ => promise w' = Pending
      | Throw e => promise w' = Rejected (RejExn e)
      end
  | settled => promise w' = settled
  end
  /\ trace w' = trace (snd (executor parseError env devices0 w))
  /\ devices w' = devices (snd (executor parseError env devices0 w))
  /\ script w' = script (snd (executor parseError env devices0 w)).
Proof.
  cbv zeta. unfold obtainAudioAndVideoPermissions.
  destruct (executor parseError env devices0 w) as [[[]|e] w1]; cbn.
  - destruct (promise w1); auto.
  - destruct (promise w1) eqn:E; cbn; rewrite ?E; auto.
Qed.

End PromiseFacts.

(** X7. A request for desktop on a backend without desktop capture always
    ends rejected with "Desktop sharing is not supported!": whatever the
    other kinds, the options, the browser and the answers of the backend to
    the capture calls that still follow, no later [resolve] or [reject]
    changes what the caller gets. *)
Theorem unsupported_desktop_always_rejected (TrackError : Type)
    (parseError : Exn -> list DeviceArg -> TrackError) (env : Env)
    (kinds : list string) (w : World TrackError) :
  screenObtainer_isSupported env = false ->
  has kinds "desktop" = true ->
  promise w = Pending ->
  promise (obtainAudioAndVideoPermissions parseError env (Some kinds) w)
  = Rejected (RejExn (Error "Desktop sharing is not supported!")).
Proof.
  intros Hsup Hd Hp.
  pose proof (obtainAudioAndVideoPermissions_settled TrackError parseError env
                (Some kinds) w) as H.
  cbv zeta in H.
  rewrite executor_after_support_check in H. cbv zeta in H.
  rewrite Hsup, indexOf_neq_has, Hd in H. cbn [negb andb when] in H.
  unfold bind at 1 2 in H. rewrite reject_eq in H. rewrite Hp in H.
  match type of H with context [after_support_check _ _ _ _ ?w1] =>
    destruct (steady_after_support_check TrackError parseError env kinds w1)
      as (_ & Hs)
  end.
  cbn [promise] in Hs. rewrite Hs in H by discriminate.
  apply H.
Qed.

Lemma unsupported_desktop_always_rejected_witness :
  promise (obtainAudioAndVideoPermissions (fun _ _ => tt) (env_of firefox false)
             (Some ["audio"; "desktop"])
             (mkWorld initial_devices no_options (@Pending unit)
                [GSuccess (mkMediaStream [mkTrack "a1"] [] None)] []))
  = Rejected (RejExn (Error "Desktop sharing is not supported!")).
Proof.
  apply unsupported_desktop_always_rejected; reflexivity.
Defined.

(** ** The combined capture *)

(** The flags after [setAvailableDevices(um, available)]. *)
Definition set_flags (um : list string) (available : bool)
    (d : DeviceAvailability) : DeviceAvailability :=
  let d := if negb (indexOf um "video" =? -1)%Z
           then mkDevices (audio_available d) available else d in
  let d := if negb (indexOf um "audio" =? -1)%Z
           then mkDevices available (video_available d) else d in
  d.

(** The kinds of the combined call: the request without its first
    [desktop]. *)
Definition combined_kinds (kinds : list string) : list string :=
  if has kinds "desktop"
  then splice1 (Z.to_nat (indexOf kinds "desktop")) kinds
  else kinds.

Section CaptureRuns.

Variable TrackError : Type.

Lemma setAvailableDevices_eq (um : list string) (available : bool)
    (w : World TrackError) :
  setAvailableDevices um available w
  = (Ok tt,
     mkWorld (set_flags um available (devices w)) (w_options w) (promise w)
       (script w)
       (trace w ++ [EEmitAvailableDevicesChanged
                      (set_flags um available (devices w))])).
Proof. reflexivity. Qed.

Lemma resolve_eq (tracks : list TrackDescriptor) (w : World TrackError) :
  resolve tracks w
  = (Ok tt,
     mkWorld (devices w) (w_options w)
       (match promise w with Pending => Resolved tracks | p => p end)
       (script w) (trace w ++ [EResolve tracks])).
Proof.
  unfold resolve, bind, gets, put_promise, modify, ret, emit. cbn.
  destruct (promise w); reflexivity.
Qed.

(** [getUM] on each answer of the backend: the world in which the callback
    starts. *)
Lemma getUM_run (um : list string) (c : Constraints)
    (s_cb : MediaStream -> M (World TrackError) unit)
    (e_cb : Exn -> M (World TrackError) unit)
    (w : World TrackError) (outcome : Outcome) (rest : list Outcome) :
  script w = outcome :: rest ->
  getUM um c s_cb (Some e_cb) w
  = match outcome with
    | GSuccess s =>
        async (s_cb s)
          (mkWorld (set_flags um true (devices w)) (w_options w) (promise w)
             rest
             (trace w ++ [EGetUserMedia c; ELog "onUserMediaSuccess";
                          EEmitAvailableDevicesChanged
                            (set_flags um true (devices w))]))
    | GError e =>
        async (e_cb e)
          (mkWorld (set_flags um false (devices w)) (w_options w) (promise w)
             rest
             (trace w ++ [EGetUserMedia c;
                          EEmitAvailableDevicesChanged
                            (set_flags um false (devices w));
                          ELog "Failed to get access to local media. Error "]))
    | GThrow e =>
        e_cb e
          (mkWorld (devices w) (w_options w) (promise w) rest
             (trace w ++ [EGetUserMedia c; ELog "GUM failed: "]))
    | GNoCallback =>
        (Ok tt,
         mkWorld (devices w) (w_options w) (promise w) rest
           (trace w ++ [EGetUserMedia c]))
    end.
Proof.
  intros Hscript. rewrite getUM_after. unfold after_getUserMedia.
  assert (Hn : next_outcome (add_trace [EGetUserMedia c] w)
               = (Ok outcome,
                  mkWorld (devices w) (w_options w) (promise w) rest
                    (trace w ++ [EGetUserMedia c]))).
  { unfold next_outcome. cbn. now rewrite Hscript. }
  rewrite (bind_ok _ _ _ Hn).
  destruct outcome as [s|e|e|].
  - rewrite (async_bind _ _ _ (emit_add_trace _ _ _)).
    rewrite (async_bind _ _ _ (setAvailableDevices_eq _ _ _)).
    unfold add_trace. cbn. rewrite <- !app_assoc. reflexivity.
  - rewrite (async_bind _ _ _ (setAvailableDevices_eq _ _ _)).
    rewrite (async_bind _ _ _ (emit_add_trace _ _ _)).
    unfold add_trace. cbn. rewrite <- !app_assoc. reflexivity.
  - rewrite (bind_ok _ _ _ (emit_add_trace _ _ _)).
    unfold add_trace. cbn. rewrite <- !app_assoc. reflexivity.
  - reflexivity.
Qed.

End CaptureRuns.

Section CombinedFacts.

Variable TrackError : Type.
Variable parseError : Exn -> list DeviceArg -> TrackError.
Variable env : Env.

Hypothesis combined :
  isFirefox (browser env) || isReactNative (browser env)
  || isTemasysPluginUsed (browser env) = false.

Lemma combined_browser :
  isFirefox (browser env) = false /\ isReactNative (browser env) = false
  /\ isTemasysPluginUsed (browser env) = false.
Proof.
  destruct (isFirefox (browser env)), (isReactNative (browser env)),
    (isTemasysPluginUsed (browser env)); try discriminate; auto.
Qed.

(** On a browser of the combined path the builder always returns a
    descriptor, and [options.resolution] is not touched. *)
Lemma build_ok_combined (um : list string) (o : Options) :
  exists c o' lg,
    build env um o = (Ok c, mkBuilder o' lg)
    /\ resolution o' = resolution o.
Proof.
  destruct combined_browser as (Hf & _ & Ht).
  destruct (build_again env um o) as (r & o' & lg & E & _ & Ho & _).
  assert (Hok : exists c b, build env um o = (Ok c, b)).
  { rewrite build_finish.
    destruct (camera_step_overridable env um o) as (c1 & E1 & Ov1 & _).
    rewrite E1.
    assert (Ov2 : overridable (video (microphone_step env um o c1)))
      by now rewrite (proj1 (microphone_step_video env um o c1)).
    unfold screen_step, desktop_step, bind, logger_error, modify, ret.
    rewrite Hf, Ht.
    destruct (has um "screen"), (isChrome (browser env)), (has um "desktop");
      apply finish_overridable;
      first [apply chrome_capture_overridable | exact Ov2]. }
  destruct Hok as (c & b & E'). rewrite E in E'. injection E' as -> _.
  exists c, o', lg. split; [exact E|].
  destruct Ho as [-> | (_ & _ & ->)]; reflexivity.
Qed.

Lemma call_getConstraints_combined (um : list string) (w : World TrackError) :
  exists c o' lg,
    call_getConstraints env um w
    = (Ok c, mkWorld (devices w) o' (promise w) (script w)
               (trace w ++ map (fun m => ELog m) lg))
    /\ resolution o' = resolution (w_options w).
Proof.
  destruct (build_ok_combined um (w_options w)) as (c & o' & lg & E & Hr).
  unfold call_getConstraints. unfold build in E. rewrite E.
  exists c, o', lg. split; [reflexivity | exact Hr].
Qed.

(** The success callback of the combined call. *)
Definition combined_success (hasDesktop : bool) (devices : list string)
    : MediaStream -> M (World TrackError) unit :=
  fun stream =>
    if negb (has_tracks_for devices stream) then
      stopMediaStream env stream ;;
      reject (RejTrackError
                (parseError (Error "Unable to get the audio and video tracks.")
                   (map DevName devices)))
    else if hasDesktop then
      obtainStream
        (fun desktopStream =>
           successCallback [("audioVideo", stream);
                            ("desktopStream", desktopStream)])
        (fun error =>
           stopMediaStream env stream ;;
           reject (RejTrackError (parseError error (map DevName devices))))
    else successCallback [("audioVideo", stream)].

(** The failure callback of the combined call. *)
Definition combined_failure (devices : list string)
    : Exn -> M (World TrackError) unit :=
  fun error => reject (RejTrackError (parseError error (map DevName devices))).

(** The world when the combined branch starts: [options.resolution] has its
    default. *)
Definition with_default_resolution (w : World TrackError) : World TrackError :=
  mkWorld (devices w)
    (set_resolution (js_or (resolution (w_options w)) (Some "360")) (w_options w))
    (promise w) (script w) (trace w).

Lemma executor_combined_call (kinds : list string) (w : World TrackError) :
  negb (screenObtainer_isSupported env) && has kinds "desktop" = false ->
  (0 <? length (combined_kinds kinds))%nat = true ->
  executor parseError env (Some kinds) w
  = getUserMediaWithConstraints env (combined_kinds kinds)
      (combined_success (has kinds "desktop") (combined_kinds kinds))
      (Some (combined_failure (combined_kinds kinds)))
      (with_default_resolution w).
Proof.
  intros Hsup Hlen.
  rewrite executor_after_support_check. cbv zeta.
  rewrite indexOf_neq_has, Hsup. cbn [when].
  unfold after_support_check. rewrite combined. cbv zeta.
  rewrite !indexOf_gt_has. fold (combined_kinds kinds). rewrite Hlen.
  reflexivity.
Qed.

Lemma executor_desktop_only (kinds : list string) (w : World TrackError) :
  negb (screenObtainer_isSupported env) && has kinds "desktop" = false ->
  (0 <? length (combined_kinds kinds))%nat = false ->
  has kinds "desktop" = true ->
  executor parseError env (Some kinds) w
  = obtainStream
      (fun stream => successCallback [("desktopStream", stream)])
      (fun error => reject (RejTrackError (parseError error [DevName "desktop"])))
      (with_default_resolution w).
Proof.
  intros Hsup Hlen Hd.
  rewrite executor_after_support_check. cbv zeta.
  rewrite indexOf_neq_has, Hsup. cbn [when].
  unfold after_support_check. rewrite combined. cbv zeta.
  rewrite !indexOf_gt_has. fold (combined_kinds kinds). rewrite Hlen, Hd.
  reflexivity.
Qed.

(** The combined call up to the callback that the backend's answer
    selects. *)
Lemma combined_call_run (um : list string)
    (s_cb : MediaStream -> M (World TrackError) unit)
    (e_cb : Exn -> M (World TrackError) unit)
    (w : World TrackError) (outcome : Outcome) (rest : list Outcome) :
  script w = outcome :: rest ->
  exists c o' lg,
    resolution o' = resolution (w_options w)
    /\ getUserMediaWithConstraints env um s_cb (Some e_cb) w
       = getUM um c s_cb (Some e_cb)
           (mkWorld (devices w) o' (promise w) (outcome :: rest)
              (trace w ++ map (fun m => ELog m) lg)).
Proof.
  intros Hscript. destruct combined_browser as (_ & Hrn & _).
  unfold getUserMediaWithConstraints. rewrite Hrn.
  destruct (call_getConstraints_combined um w) as (c & o' & lg & E & Hr).
  rewrite (bind_ok _ _ _ E). rewrite Hscript.
  exists c, o', lg. split; [exact Hr | reflexivity].
Qed.

(** The executor of a combined request up to the capture call: the builder
    has run on the defaulted options and the backend is about to answer. *)
Lemma combined_start (kinds : list string) (w : World TrackError)
    (outcome : Outcome) (rest : list Outcome) :
  negb (screenObtainer_isSupported env) && has kinds "desktop" = false ->
  (0 <? length (combined_kinds kinds))%nat = true ->
  script w = outcome :: rest ->
  exists c o' lg,
    resolution o' = js_or (resolution (w_options w)) (Some "360")
    /\ executor parseError env (Some kinds) w
       = getUM (combined_kinds kinds) c
           (combined_success (has kinds "desktop") (combined_kinds kinds))
           (Some (combined_failure (combined_kinds kinds)))
           (mkWorld (devices w) o' (promise w) (outcome :: rest)
              (trace w ++ map (fun m => ELog m) lg)).
Proof.
  intros Hsup Hlen Hscript.
  rewrite (executor_combined_call kinds w Hsup Hlen).
  destruct (combined_call_run (combined_kinds kinds)
              (combined_success (has kinds "desktop") (combined_kinds kinds))
              (combined_failure (combined_kinds kinds))
              (with_default_resolution w) outcome rest Hscript)
    as (c & o' & lg & Hr & E).
  exists c, o', lg. split; [exact Hr | exact E].
Qed.

Lemma obtainStream_run
    (s_cb : MediaStream -> M (World TrackError) unit)
    (e_cb : Exn -> M (World TrackError) unit)
    (w : World TrackError) (outcome : Outcome) (rest : list Outcome) :
  script w = outcome :: rest ->
  obtainStream s_cb e_cb w
  = let w1 := mkWorld (devices w) (w_options w) (promise w) rest
                (trace w ++ [EObtainStream]) in
    match outcome with
    | GSuccess s => async (s_cb s) w1
    | GError e => async (e_cb e) w1
    | GThrow e => (Throw e, w1)
    | GNoCallback => (Ok tt, w1)
    end.
Proof.
  intros Hscript. unfold obtainStream.
  rewrite (bind_ok _ _ _ (emit_add_trace _ _ _)).
  assert (Hn : next_outcome (add_trace [@EObtainStream TrackError] w)
               = (Ok outcome,
                  mkWorld (devices w) (w_options w) (promise w) rest
                    (trace w ++ [EObtainStream]))).
  { unfold next_outcome. cbn. now rewrite Hscript. }
  rewrite (bind_ok _ _ _ Hn). destruct outcome; reflexivity.
Qed.

Lemma successCallback_eq (stream : StreamMap) (w : World TrackError) :
  successCallback stream w
  = (Ok tt,
     let tracks := handleLocalStream (Some stream) (resolution (w_options w)) in
     mkWorld (devices w) (w_options w)
       (match promise w with Pending => Resolved tracks | p => p end)
       (script w) (trace w ++ [EResolve tracks])).
Proof.
  unfold successCallback, bind, gets. cbv zeta. now rewrite resolve_eq.
Qed.

End CombinedFacts.

(** Runs the capture call in front of the goal on the answer at the head of
    the script. *)
Ltac run_getUM :=
  match goal with
  | |- context [getUM ?um ?c ?s (Some ?e)
                  (mkWorld ?d ?o ?p (?out :: ?rest) ?t)] =>
      rewrite (getUM_run _ um c s e (mkWorld d o p (out :: rest) t) out rest
                 eq_refl)
  end.

Ltac run_obtainStream :=
  match goal with
  | |- context [obtainStream ?s ?e (mkWorld ?d ?o ?p (?out :: ?rest) ?t)] =>
      rewrite (obtainStream_run _ s e (mkWorld d o p (out :: rest) t) out rest
                 eq_refl)
  end.

(** X8. On a browser of the combined path, a request of audio and video
    kinds without [desktop] whose capture succeeds with a stream carrying a
    track for every requested kind resolves the promise with the descriptors
    of that one stream, built with [options.resolution] defaulted to 360;
    the flags of the requested kinds are set, and exactly one backend answer
    is consumed. *)
Theorem combined_capture_resolves (TrackError : Type)
    (parseError : Exn -> list DeviceArg -> TrackError) (env : Env)
    (kinds : list string) (w : World TrackError) (s : MediaStream)
    (rest : list Outcome) :
  isFirefox (browser env) || isReactNative (browser env)
  || isTemasysPluginUsed (browser env) = false ->
  has kinds "desktop" = false ->
  kinds <> [] ->
  promise w = Pending ->
  script w = GSuccess s :: rest ->
  has_tracks_for kinds s = true ->
  let w' := obtainAudioAndVideoPermissions parseError env (Some kinds) w in
  promise w'
  = Resolved (handleLocalStream (Some [("audioVideo", s)])
                (js_or (resolution (w_options w)) (Some "360")))
  /\ devices w' = set_flags kinds true (devices w)
  /\ script w' = rest.
Proof.
  intros Hc Hd Hne Hp Hscript Ht w'. subst w'.
  assert (Hk : combined_kinds kinds = kinds)
    by (unfold combined_kinds; now rewrite Hd).
  assert (Hlen : (0 <? length (combined_kinds kinds))%nat = true).
  { rewrite Hk. destruct kinds; [congruence | reflexivity]. }
  assert (Hsup : negb (screenObtainer_isSupported env) && has kinds "desktop"
                 = false) by (rewrite Hd; apply andb_false_r).
  destruct (combined_start TrackError parseError env Hc kinds w _ _
              Hsup Hlen Hscript) as (c & o' & lg & Hr & E).
  unfold obtainAudioAndVideoPermissions. rewrite E.
  run_getUM. rewrite Hk, Hd. unfold combined_success. rewrite Ht. cbn [negb].
  unfold async. rewrite successCallback_eq. cbn.
  rewrite Hp, Hr. repeat split.
Qed.

Lemma combined_capture_resolves_witness :
  let s := mkMediaStream [mkTrack "a1"] [mkTrack "v1"] None in
  let w := mkWorld (mkDevices false false) no_options (@Pending unit)
             [GSuccess s] [] in
  let w' := obtainAudioAndVideoPermissions (fun _ _ => tt) (env_of chrome true)
              (Some ["audio"; "video"]) w in
  promise w'
  = Resolved (handleLocalStream (Some [("audioVideo", s)]) (Some "360"))
  /\ devices w' = mkDevices true true
  /\ script w' = [].
Proof.
  cbv zeta.
  apply (combined_capture_resolves unit (fun _ _ => tt) (env_of chrome true)
           ["audio"; "video"]
           (mkWorld (mkDevices false false) no_options (@Pending unit)
              [GSuccess (mkMediaStream [mkTrack "a1"] [mkTrack "v1"] None)] [])
           (mkMediaStream [mkTrack "a1"] [mkTrack "v1"] None) []);
    first [reflexivity | discriminate].
Defined.

(** X9. On a browser of the combined path with desktop capture, a request
    that also names [desktop] captures the other kinds in one call and the
    desktop after it; when both succeed the promise resolves with the
    descriptors of the two streams, the desktop stream last in the map, and
    the flags are those of the kinds without [desktop]. *)
Theorem combined_then_desktop_resolves (TrackError : Type)
    (parseError : Exn -> list DeviceArg -> TrackError) (env : Env)
    (kinds : list string) (w : World TrackError) (s d : MediaStream)
    (rest : list Outcome) :
  isFirefox (browser env) || isReactNative (browser env)
  || isTemasysPluginUsed (browser env) = false ->
  screenObtainer_isSupported env = true ->
  has kinds "desktop" = true ->
  combined_kinds kinds <> [] ->
  promise w = Pending ->
  script w = GSuccess s :: GSuccess d :: rest ->
  has_tracks_for (combined_kinds kinds) s = true ->
  let w' := obtainAudioAndVideoPermissions parseError env (Some kinds) w in
  promise w'
  = Resolved (handleLocalStream
                (Some [("audioVideo", s); ("desktopStream", d)])
                (js_or (resolution (w_options w)) (Some "360")))
  /\ devices w' = set_flags (combined_kinds kinds) true (devices w)
  /\ script w' = rest.
Proof.
  intros Hc Hs Hd Hne Hp Hscript Ht w'. subst w'.
  assert (Hlen : (0 <? length (combined_kinds kinds))%nat = true)
    by (destruct (combined_kinds kinds); [congruence | reflexivity]).
  assert (Hsup : negb (screenObtainer_isSupported env) && has kinds "desktop"
                 = false) by now rewrite Hs.
  destruct (combined_start TrackError parseError env Hc kinds w _ _
              Hsup Hlen Hscript) as (c & o' & lg & Hr & E).
  unfold obtainAudioAndVideoPermissions. rewrite E.
  run_getUM. rewrite Hd. unfold combined_success. rewrite Ht. cbn [negb].
  unfold async. run_obtainStream. cbv zeta.
  unfold async. rewrite successCallback_eq. cbn.
  rewrite Hp, Hr. repeat split.
Qed.

Lemma combined_then_desktop_resolves_witness :
  let s := mkMediaStream [mkTrack "a1"] [] None in
  let d := mkMediaStream [] [mkTrack "screen"] None in
  let w := mkWorld (mkDevices false false) no_options (@Pending unit)
             [GSuccess s; GSuccess d] [] in
  let w' := obtainAudioAndVideoPermissions (fun _ _ => tt) (env_of chrome true)
              (Some ["desktop"; "audio"]) w in
  promise w'
  = Resolved (handleLocalStream
                (Some [("audioVideo", s); ("desktopStream", d)]) (Some "360"))
  /\ devices w' = mkDevices true false
  /\ script w' = [].
Proof.
  cbv zeta.
  apply (combined_then_desktop_resolves unit (fun _ _ => tt)
           (env_of chrome true) ["desktop"; "audio"]
           (mkWorld (mkDevices false false) no_options (@Pending unit)
              [GSuccess (mkMediaStream [mkTrack "a1"] [] None);
               GSuccess (mkMediaStream [] [mkTrack "screen"] None)] [])
           (mkMediaStream [mkTrack "a1"] [] None)
           (mkMediaStream [] [mkTrack "screen"] None) []);
    first [reflexivity | discriminate].
Defined.

(** X10. On a browser of the combined path, when the captured stream lacks
    a track for a requested kind, the stream is released and the promise is
    rejected with the error that [parseError] makes of "Unable to get the
    audio and video tracks." and the kinds of the combined call; the flags
    of those kinds have been set to available all the same, and the desktop
    is never asked for. *)
Theorem combined_missing_tracks_rejected (TrackError : Type)
    (parseError : Exn -> list DeviceArg -> TrackError) (env : Env)
    (kinds : list string) (w : World TrackError) (s : MediaStream)
    (rest : list Outcome) :
  isFirefox (browser env) || isReactNative (browser env)
  || isTemasysPluginUsed (browser env) = false ->
  negb (screenObtainer_isSupported env) && has kinds "desktop" = false ->
  combined_kinds kinds <> [] ->
  promise w = Pending ->
  script w = GSuccess s :: rest ->
  has_tracks_for (combined_kinds kinds) s = false ->
  let w' := obtainAudioAndVideoPermissions parseError env (Some kinds) w in
  let err :=
    RejTrackError
      (parseError (Error "Unable to get the audio and video tracks.")
         (map DevName (combined_kinds kinds))) in
  promise w' = Rejected err
  /\ devices w' = set_flags (combined_kinds kinds) true (devices w)
  /\ script w' = rest
  /\ exists t,
       trace w' = trace w ++ t ++ stop_events env s ++ [EReject err]
       /\ capture_calls t = 1%nat /\ unsettled t = true.
Proof.
  intros Hc Hsup Hne Hp Hscript Ht w' err. subst w' err.
  assert (Hlen : (0 <? length (combined_kinds kinds))%nat = true)
    by (destruct (combined_kinds kinds); [congruence | reflexivity]).
  destruct (combined_start TrackError parseError env Hc kinds w _ _
              Hsup Hlen Hscript) as (c & o' & lg & Hr & E).
  unfold obtainAudioAndVideoPermissions. rewrite E.
  run_getUM. unfold combined_success. rewrite Ht. cbn [negb].
  unfold async.
  rewrite (bind_ok _ _ _ (stopMediaStream_add_trace _ _ _ _)).
  rewrite reject_eq. unfold add_trace. cbn -[stop_events]. rewrite Hp.
  repeat split.
  exists (map (fun m => ELog m) lg
          ++ [EGetUserMedia c; ELog "onUserMediaSuccess";
              EEmitAvailableDevicesChanged
                (set_flags (combined_kinds kinds) true (devices w))]).
  split.
  - rewrite <- !app_assoc. reflexivity.
  - rewrite capture_calls_app, unsettled_app, capture_calls_logs,
      unsettled_logs. split; reflexivity.
Qed.

Lemma combined_missing_tracks_rejected_witness :
  let s := mkMediaStream [mkTrack "a1"] [] None in
  let w := mkWorld (mkDevices false false) no_options
             (@Pending (Exn * list DeviceArg)) [GSuccess s] [] in
  let w' := obtainAudioAndVideoPermissions pair (env_of chrome true)
              (Some ["audio"; "video"]) w in
  let err :=
    RejTrackError (Error "Unable to get the audio and video tracks.",
                   [DevName "audio"; DevName "video"]) in
  promise w' = Rejected err
  /\ devices w' = mkDevices true true
  /\ script w' = []
  /\ exists t,
       trace w' = trace w ++ t ++ stop_events (env_of chrome true) s
                  ++ [EReject err]
       /\ capture_calls t = 1%nat /\ unsettled t = true.
Proof.
  cbv zeta.
  apply (combined_missing_tracks_rejected (Exn * list DeviceArg) pair
           (env_of chrome true) ["audio"; "video"]
           (mkWorld (mkDevices false false) no_options
              (@Pending (Exn * list DeviceArg))
              [GSuccess (mkMediaStream [mkTrack "a1"] [] None)] [])
           (mkMediaStream [mkTrack "a1"] [] None) []);
    first [reflexivity | discriminate].
Defined.

(** X11. On a browser of the combined path, when the combined capture has
    succeeded and the desktop capture then reports an error, the stream
    already obtained is released before the promise is rejected; the
    rejection is what [parseError] makes of the backend's error and the
    kinds of the combined call, which do not include [desktop]. *)
Theorem combined_desktop_failure_releases (TrackError : Type)
    (parseError : Exn -> list DeviceArg -> TrackError) (env : Env)
    (kinds : list string) (w : World TrackError) (s : MediaStream)
    (e : Exn) (rest : list Outcome) :
  isFirefox (browser env) || isReactNative (browser env)
  || isTemasysPluginUsed (browser env) = false ->
  screenObtainer_isSupported env = true ->
  has kinds "desktop" = true ->
  combined_kinds kinds <> [] ->
  promise w = Pending ->
  script w = GSuccess s :: GError e :: rest ->
  has_tracks_for (combined_kinds kinds) s = true ->
  let w' := obtainAudioAndVideoPermissions parseError env (Some kinds) w in
  let err :=
    RejTrackError (parseError e (map DevName (combined_kinds kinds))) in
  promise w' = Rejected err
  /\ script w' = rest
  /\ exists t,
       trace w' = trace w ++ t ++ stop_events env s ++ [EReject err]
       /\ capture_calls t = 2%nat /\ unsettled t = true.
Proof.
  intros Hc Hs Hd Hne Hp Hscript Ht w' err. subst w' err.
  assert (Hlen : (0 <? length (combined_kinds kinds))%nat = true)
    by (destruct (combined_kinds kinds); [congruence | reflexivity]).
  assert (Hsup : negb (screenObtainer_isSupported env) && has kinds "desktop"
                 = false) by now rewrite Hs.
  destruct (combined_start TrackError parseError env Hc kinds w _ _
              Hsup Hlen Hscript) as (c & o' & lg & Hr & E).
  unfold obtainAudioAndVideoPermissions. rewrite E.
  run_getUM. rewrite Hd. unfold combined_success. rewrite Ht. cbn [negb].
  unfold async. run_obtainStream. cbv zeta.
  unfold async.
  rewrite (bind_ok _ _ _ (stopMediaStream_add_trace _ _ _ _)).
  rewrite reject_eq. unfold add_trace. cbn -[stop_events]. rewrite Hp.
  repeat split.
  exists (map (fun m => ELog m) lg
          ++ [EGetUserMedia c; ELog "onUserMediaSuccess";
              EEmitAvailableDevicesChanged
                (set_flags (combined_kinds kinds) true (devices w));
              EObtainStream]).
  split.
  - rewrite <- !app_assoc. reflexivity.
  - rewrite capture_calls_app, unsettled_app, capture_calls_logs,
      unsettled_logs. split; reflexivity.
Qed.

Lemma combined_desktop_failure_releases_witness :
  let s := mkMediaStream [mkTrack "a1"] [mkTrack "v1"] None in
  let w := mkWorld initial_devices no_options
             (@Pending (Exn * list DeviceArg))
             [GSuccess s; GError (GumError "PermissionDeniedError")] [] in
  let w' := obtainAudioAndVideoPermissions pair (env_of chrome true)
              (Some ["audio"; "video"; "desktop"]) w in
  let err :=
    RejTrackError (GumError "PermissionDeniedError",
                   [DevName "audio"; DevName "video"]) in
  promise w' = Rejected err
  /\ script w' = []
  /\ exists t,
       trace w' = trace w ++ t ++ stop_events (env_of chrome true) s
                  ++ [EReject err]
       /\ capture_calls t = 2%nat /\ unsettled t = true.
Proof.
  cbv zeta.
  apply (combined_desktop_failure_releases (Exn * list DeviceArg) pair
           (env_of chrome true) ["audio"; "video"; "desktop"]
           (mkWorld initial_devices no_options
              (@Pending (Exn * list DeviceArg))
              [GSuccess (mkMediaStream [mkTrack "a1"] [mkTrack "v1"] None);
               GError (GumError "PermissionDeniedError")] [])
           (mkMediaStream [mkTrack "a1"] [mkTrack "v1"] None)
           (GumError "PermissionDeniedError") []);
    first [reflexivity | discriminate].
Defined.

(** X12. On a browser of the combined path, when the backend reports an
    error of the combined capture, or throws from the call, the promise is
    rejected with what [parseError] makes of that error and the kinds of the
    combined call, and a requested desktop is never asked for: only one
    backend answer is consumed. A reported error clears the flags of the
    kinds; an exception of the call leaves the flags as they were. *)
Theorem combined_backend_failure_rejected (TrackError : Type)
    (parseError : Exn -> list DeviceArg -> TrackError) (env : Env)
    (kinds : list string) (w : World TrackError) (outcome : Outcome)
    (e : Exn) (rest : list Outcome) :
  isFirefox (browser env) || isReactNative (browser env)
  || isTemasysPluginUsed (browser env) = false ->
  negb (screenObtainer_isSupported env) && has kinds "desktop" = false ->
  combined_kinds kinds <> [] ->
  promise w = Pending ->
  script w = outcome :: rest ->
  outcome = GError e \/ outcome = GThrow e ->
  let w' := obtainAudioAndVideoPermissions parseError env (Some kinds) w in
  promise w'
  = Rejected (RejTrackError (parseError e (map DevName (combined_kinds kinds))))
  /\ script w' = rest
  /\ capture_calls (trace w') = S (capture_calls (trace w))
  /\ devices w'
     = match outcome with
       | GError _ => set_flags (combined_kinds kinds) false (devices w)
       | _ => devices w
       end.
Proof.
  intros Hc Hsup Hne Hp Hscript Ho w'. subst w'.
  assert (Hlen : (0 <? length (combined_kinds kinds))%nat = true)
    by (destruct (combined_kinds kinds); [congruence | reflexivity]).
  destruct (combined_start TrackError parseError env Hc kinds w _ _
              Hsup Hlen Hscript) as (c & o' & lg & Hr & E).
  unfold obtainAudioAndVideoPermissions. rewrite E.
  run_getUM. unfold combined_failure.
  destruct Ho as [-> | ->]; unfold async; rewrite reject_eq;
    cbn -[capture_calls]; rewrite Hp; repeat split;
    rewrite !capture_calls_app, capture_calls_logs; cbn; lia.
Qed.

Lemma combined_backend_failure_rejected_witness :
  let w := mkWorld initial_devices no_options
             (@Pending (Exn * list DeviceArg))
             [GError (GumError "NotFoundError");
              GSuccess (mkMediaStream [] [mkTrack "screen"] None)] [] in
  let w' := obtainAudioAndVideoPermissions pair (env_of chrome true)
              (Some ["audio"; "desktop"]) w in
  promise w'
  = Rejected (RejTrackError (GumError "NotFoundError", [DevName "audio"]))
  /\ script w' = [GSuccess (mkMediaStream [] [mkTrack "screen"] None)]
  /\ capture_calls (trace w') = 1%nat
  /\ devices w' = mkDevices false true.
Proof.
  cbv zeta.
  apply (combined_backend_failure_rejected (Exn * list DeviceArg) pair
           (env_of chrome true) ["audio"; "desktop"]
           (mkWorld initial_devices no_options
              (@Pending (Exn * list DeviceArg))
              [GError (GumError "NotFoundError");
               GSuccess (mkMediaStream [] [mkTrack "screen"] None)] [])
           (GError (GumError "NotFoundError")) (GumError "NotFoundError")
           [GSuccess (mkMediaStream [] [mkTrack "screen"] None)]);
    first [reflexivity | discriminate | left; reflexivity].
Defined.

(** X13. On a browser of the combined path with desktop capture, a request
    whose only kind is [desktop] makes no [getUserMedia] call: the desktop
    stream alone settles the promise, resolved with its descriptors on a
    success and rejected with what [parseError] makes of the error and
    [desktop] on a reported error, and the availability flags are never
    touched. *)
Theorem desktop_only_request (TrackError : Type)
    (parseError : Exn -> list DeviceArg -> TrackError) (env : Env)
    (kinds : list string) (w : World TrackError) (outcome : Outcome)
    (rest : list Outcome) :
  isFirefox (browser env) || isReactNative (browser env)
  || isTemasysPluginUsed (browser env) = false ->
  screenObtainer_isSupported env = true ->
  has kinds "desktop" = true ->
  combined_kinds kinds = [] ->
  promise w = Pending ->
  script w = outcome :: rest ->
  let w' := obtainAudioAndVideoPermissions parseError env (Some kinds) w in
  devices w' = devices w
  /\ script w' = rest
  /\ match outcome with
     | GSuccess s =>
         promise w'
         = Resolved (handleLocalStream (Some [("desktopStream", s)])
                       (js_or (resolution (w_options w)) (Some "360")))
         /\ trace w' = trace w ++ [EObtainStream;
                                   EResolve (handleLocalStream
                                     (Some [("desktopStream", s)])
                                     (js_or (resolution (w_options w))
                                        (Some "360")))]
     | GError e =>
         promise w'
         = Rejected (RejTrackError (parseError e [DevName "desktop"]))
         /\ trace w' = trace w ++ [EObtainStream;
                                   EReject (RejTrackError
                                     (parseError e [DevName "desktop"]))]
     | GThrow e =>
         promise w' = Rejected (RejExn e)
     | GNoCallback => promise w' = Pending
     end.
Proof.
  intros Hc Hs Hd Hk Hp Hscript w'. subst w'.
  assert (Hlen : (0 <? length (combined_kinds kinds))%nat = false)
    by now rewrite Hk.
  assert (Hsup : negb (screenObtainer_isSupported env) && has kinds "desktop"
                 = false) by now rewrite Hs.
  unfold obtainAudioAndVideoPermissions.
  rewrite (executor_desktop_only TrackError parseError env Hc kinds w
             Hsup Hlen Hd).
  unfold with_default_resolution. rewrite Hscript. run_obtainStream.
  cbv zeta. destruct outcome as [s|e|e|]; unfold async;
    rewrite ?successCallback_eq, ?reject_eq; cbn; rewrite ?Hp;
    rewrite <- ?app_assoc; repeat split.
Qed.

Lemma desktop_only_request_witness :
  let s := mkMediaStream [] [mkTrack "screen"] None in
  let w := mkWorld (mkDevices false false) no_options (@Pending unit)
             [GSuccess s] [] in
  let w' := obtainAudioAndVideoPermissions (fun _ _ => tt) (env_of chrome true)
              (Some ["desktop"]) w in
  devices w' = mkDevices false false
  /\ script w' = []
  /\ promise w'
     = Resolved (handleLocalStream (Some [("desktopStream", s)]) (Some "360"))
  /\ trace w' = [EObtainStream;
                 EResolve (handleLocalStream (Some [("desktopStream", s)])
                             (Some "360"))].
Proof.
  cbv zeta.
  apply (desktop_only_request unit (fun _ _ => tt) (env_of chrome true)
           ["desktop"]
           (mkWorld (mkDevices false false) no_options (@Pending unit)
              [GSuccess (mkMediaStream [] [mkTrack "screen"] None)] [])
           (GSuccess (mkMediaStream [] [mkTrack "screen"] None)) []);
    reflexivity.
Defined.

(** ** The sequential capture *)

(** No stream is released in a trace. *)
Definition no_release {TrackError} (t : list (Event TrackError)) : bool :=
  forallb (fun e => negb (is_release e)) t.

Lemma no_release_app {TrackError} (t1 t2 : list (Event TrackError)) :
  no_release (t1 ++ t2) = no_release t1 && no_release t2.
Proof. apply forallb_app. Qed.

Lemma no_release_logs {TrackError} (l : list string) :
  no_release (map (fun m => @ELog TrackError m) l) = true.
Proof. induction l; cbn; auto. Qed.

(** The flags after one successful capture per kind: a [getUserMedia]
    success sets the flag of its kind, the desktop capture sets none. *)
Fixpoint flags_after (kinds : list string) (d : DeviceAvailability)
    : DeviceAvailability :=
  match kinds with
  | [] => d
  | k :: r =>
      flags_after r (if k =? "desktop" then d else set_flags [k] true d)
  end.

Section SequentialFacts.

Variable TrackError : Type.
Variable parseError : Exn -> list DeviceArg -> TrackError.
Variable env : Env.

Lemma call_getConstraints_single_run (um : list string) (w : World TrackError) :
  has um "screen" = false -> has um "desktop" = false ->
  exists c o' lg,
    call_getConstraints env um w
    = (Ok c, mkWorld (devices w) o' (promise w) (script w)
               (trace w ++ map (fun m => ELog m) lg))
    /\ resolution o' = resolution (w_options w).
Proof.
  intros Hs Hd.
  destruct (build_camera_microphone_ok env um (w_options w) Hs Hd)
    as (c & b & E).
  destruct (build_again env um (w_options w)) as (r & o' & lg & E' & _ & Ho & _).
  rewrite E in E'. injection E' as <- ->.
  unfold call_getConstraints. unfold build in E. rewrite E.
  exists c, o', lg. split; [reflexivity|].
  destruct Ho as [-> | (_ & _ & ->)]; reflexivity.
Qed.

(** A successful [getUserMedia] for audio or video kinds: the world in
    which the success callback starts. *)
Lemma GUM_success_run (um : list string)
    (s_cb : MediaStream -> M (World TrackError) unit)
    (e_cb : Exn -> M (World TrackError) unit)
    (w : World TrackError) (s : MediaStream) (rest : list Outcome) :
  has um "screen" = false -> has um "desktop" = false ->
  script w = GSuccess s :: rest ->
  exists o' t1,
    resolution o' = resolution (w_options w)
    /\ capture_calls t1 = 1%nat /\ unsettled t1 = true
    /\ no_release t1 = true
    /\ GUM env um s_cb e_cb w
       = async (s_cb s)
           (mkWorld (set_flags um true (devices w)) o' (promise w) rest
              (trace w ++ t1)).
Proof.
  intros Hs Hd Hscript.
  unfold GUM, getUserMediaWithConstraints.
  destruct (isReactNative (browser env)).
  - rewrite (bind_ok _ _ _ (emit_add_trace _ _ _)).
    rewrite (async_bind _ _ _ (emit_add_trace _ _ _)).
    rewrite add_trace_app.
    match goal with |- context [async (getUM um ?c s_cb (Some e_cb)) ?w0] =>
      rewrite (async_eq _ _ _ _ _
                 (getUM_run TrackError um c s_cb e_cb w0 (GSuccess s) rest
                    Hscript));
      exists (w_options w),
        [EGetSources; ELog "Get media constraints"; EGetUserMedia c;
         ELog "onUserMediaSuccess";
         EEmitAvailableDevicesChanged (set_flags um true (devices w))]
    end.
    split; [reflexivity|]. split; [reflexivity|]. split; [reflexivity|].
    split; [reflexivity|].
    rewrite async_async. unfold add_trace. cbn.
    rewrite <- !app_assoc. reflexivity.
  - destruct (call_getConstraints_single_run um w Hs Hd)
      as (c & o' & lg & Ec & Hr).
    rewrite (bind_ok _ _ _ Ec).
    match goal with |- context [getUM um c s_cb (Some e_cb) ?w0] =>
      rewrite (getUM_run TrackError um c s_cb e_cb w0 (GSuccess s) rest Hscript)
    end.
    exists o',
      (map (fun m => ELog m) lg
       ++ [EGetUserMedia c; ELog "onUserMediaSuccess";
           EEmitAvailableDevicesChanged (set_flags um true (devices w))]).
    split; [exact Hr|].
    split; [now rewrite capture_calls_app, capture_calls_logs|].
    split; [now rewrite unsettled_app, unsettled_logs|].
    split; [now rewrite no_release_app, no_release_logs|].
    cbn. rewrite <- !app_assoc. reflexivity.
Qed.

(** A successful capture of one capturable kind. *)
Lemma capture_success_run (kind : string)
    (s_cb : MediaStream -> M (World TrackError) unit)
    (e_cb : Exn -> M (World TrackError) unit)
    (w : World TrackError) (s : MediaStream) (rest : list Outcome) :
  capturable env kind ->
  script w = GSuccess s :: rest ->
  exists capture o' t1,
    deviceGUM env kind = Some capture
    /\ resolution o' = resolution (w_options w)
    /\ capture_calls t1 = 1%nat /\ unsettled t1 = true
    /\ no_release t1 = true
    /\ capture s_cb e_cb w
       = async (s_cb s)
           (mkWorld (if kind =? "desktop" then devices w
                     else set_flags [kind] true (devices w))
              o' (promise w) rest (trace w ++ t1)).
Proof.
  intros Hk Hscript.
  destruct Hk as [-> | [-> | [-> Hsup]]].
  - destruct (GUM_success_run ["audio"] s_cb e_cb w s rest eq_refl eq_refl
                Hscript) as (o' & t1 & Hr & Hc & Hu & Hn & E).
    exists (GUM env ["audio"]), o', t1. auto 7.
  - destruct (GUM_success_run ["video"] s_cb e_cb w s rest eq_refl eq_refl
                Hscript) as (o' & t1 & Hr & Hc & Hu & Hn & E).
    exists (GUM env ["video"]), o', t1. auto 7.
  - exists (@obtainStream TrackError), (w_options w), [EObtainStream].
    split; [unfold deviceGUM; cbn; now rewrite Hsup|].
    split; [reflexivity|]. split; [reflexivity|]. split; [reflexivity|].
    split; [reflexivity|].
    rewrite (obtainStream_run TrackError s_cb e_cb w (GSuccess s) rest Hscript).
    reflexivity.
Qed.

(** [obtainDevices] when every capture succeeds. *)
Lemma obtainDevices_success (kinds : list string) (ss : list MediaStream)
    (m : StreamMap) (w : World TrackError) (rest : list Outcome) :
  Forall (capturable env) kinds ->
  length ss = length kinds ->
  script w = map GSuccess ss ++ rest ->
  exists o' t,
    resolution o' = resolution (w_options w)
    /\ capture_calls t = length kinds /\ unsettled t = true
    /\ obtainDevices parseError env kinds (Some m) (deviceGUM env)
         (@successCallback TrackError) (fun err => reject (RejTrackError err)) w
       = (Ok tt,
          mkWorld (flags_after kinds (devices w)) o'
            (match promise w with
             | Pending =>
                 Resolved (handleLocalStream
                             (Some (record_streams m kinds ss))
                             (resolution (w_options w)))
             | p => p
             end)
            rest
            (trace w ++ t
             ++ [EResolve (handleLocalStream
                             (Some (record_streams m kinds ss))
                             (resolution (w_options w)))])).
Proof.
  revert ss m w.
  induction kinds as [|d kinds' IH]; intros ss m w Hcap Hlen Hscript.
  - destruct ss; [|discriminate]. cbn in Hscript.
    exists (w_options w), []. split; [reflexivity|].
    split; [reflexivity|]. split; [reflexivity|].
    cbn [obtainDevices]. rewrite successCallback_eq. cbn.
    now rewrite Hscript.
  - destruct ss as [|s ss']; [discriminate|].
    cbn in Hscript. injection Hlen as Hlen.
    pose proof (Forall_inv Hcap) as Hd. apply Forall_inv_tail in Hcap.
    cbn [obtainDevices]. change (array_key [d]) with d.
    match goal with
    | |- context [match deviceGUM env _ with
                  | Some capture => capture ?s_cb ?e_cb
                  | None => _ end] =>
        destruct (capture_success_run d s_cb e_cb w s
                    (map GSuccess ss' ++ rest) Hd Hscript)
          as (capture & o1 & t1 & Eg & Hr1 & Hc1 & Hu1 & _ & E1)
    end.
    rewrite Eg, E1.
    match goal with |- context [async _ ?w1] =>
      destruct (IH ss' (smap_set d s m) w1 Hcap Hlen eq_refl)
        as (o2 & t2 & Hr2 & Hc2 & Hu2 & E2)
    end.
    cbn [w_options devices promise trace] in Hr2, E2.
    exists o2, (t1 ++ t2).
    split; [congruence|].
    split; [rewrite capture_calls_app, Hc1, Hc2; reflexivity|].
    split; [rewrite unsettled_app, Hu1, Hu2; reflexivity|].
    unfold async. cbv beta zeta. rewrite E2.
    cbn [flags_after record_streams]. change (array_key [d]) with d.
    rewrite Hr1, <- !app_assoc. reflexivity.
Qed.

(** A kind without a capture primitive at the head of the list: the call
    of [options.deviceGUM[device]] throws. *)
Lemma obtainDevices_no_primitive (k : string) (post : list string)
    (m : StreamMap) (w : World TrackError) :
  deviceGUM env k = @None (CapturePrimitive TrackError) ->
  obtainDevices parseError env (k :: post) (Some m) (deviceGUM env)
    (@successCallback TrackError) (fun err => reject (RejTrackError err)) w
  = (Throw (TypeError "options.deviceGUM[device] is not a function"), w).
Proof.
  intros Hk. cbn [obtainDevices]. change (array_key [k]) with k.
  now rewrite Hk.
Qed.

(** The same kind after captures that succeeded: the exception leaves the
    success callback of the last capture, where nobody catches it. *)
Lemma obtainDevices_unknown_later (k : string) (post : list string)
    (rest : list Outcome) (pre : list string) :
  deviceGUM env k = @None (CapturePrimitive TrackError) ->
  forall (d : string) (ss : list MediaStream) (m : StreamMap)
         (w : World TrackError),
  Forall (capturable env) (d :: pre) ->
  length ss = S (length pre) ->
  script w = map GSuccess ss ++ rest ->
  exists o' t,
    capture_calls t = S (length pre) /\ unsettled t = true
    /\ no_release t = true
    /\ obtainDevices parseError env (d :: pre ++ k :: post) (Some m)
         (deviceGUM env) (@successCallback TrackError)
         (fun err => reject (RejTrackError err)) w
       = (Ok tt,
          mkWorld (flags_after (d :: pre) (devices w)) o' (promise w) rest
            (trace w ++ t
             ++ [EUncaught
                   (TypeError "options.deviceGUM[device] is not a function")])).
Proof.
  intros Hk.
  induction pre as [|d' pre' IH]; intros d ss m w Hcap Hlen Hscript;
    (destruct ss as [|s ss']; [discriminate|]);
    cbn in Hscript; injection Hlen as Hlen;
    pose proof (Forall_inv Hcap) as Hd; apply Forall_inv_tail in Hcap;
    cbn [obtainDevices]; change (array_key [d]) with d;
    match goal with
    | |- context [match deviceGUM env _ with
                  | Some capture => capture ?s_cb ?e_cb
                  | None => _ end] =>
        destruct (capture_success_run d s_cb e_cb w s
                    (map GSuccess ss' ++ rest) Hd Hscript)
          as (capture & o1 & t1 & Eg & Hr1 & Hc1 & Hu1 & Hn1 & E1)
    end;
    rewrite Eg, E1.
  - destruct ss'; [|discriminate]. cbn [app map].
    exists o1, t1. split; [exact Hc1|]. split; [exact Hu1|].
    split; [exact Hn1|].
    unfold async. cbv beta zeta. rewrite obtainDevices_no_primitive by exact Hk.
    rewrite emit_add_trace. unfold add_trace. cbn.
    rewrite <- !app_assoc. reflexivity.
  - match goal with |- context [async _ ?w1] =>
      destruct (IH d' ss' (smap_set d s m) w1 Hcap Hlen eq_refl)
        as (o2 & t2 & Hc2 & Hu2 & Hn2 & E2)
    end.
    cbn [w_options devices promise trace] in E2.
    exists o2, (t1 ++ t2).
    split; [rewrite capture_calls_app, Hc1, Hc2; reflexivity|].
    split; [rewrite unsettled_app, Hu1, Hu2; reflexivity|].
    split; [rewrite no_release_app, Hn1, Hn2; reflexivity|].
    unfold async. cbv beta zeta. cbn [app] in E2 |- *. rewrite E2.
    cbn [flags_after]. rewrite <- !app_assoc. reflexivity.
Qed.

Lemma capturable_desktop_supported (kinds : list string) :
  Forall (capturable env) kinds ->
  negb (screenObtainer_isSupported env) && has kinds "desktop" = false.
Proof.
  intros Hcap. destruct (has kinds "desktop") eqn:Hd;
    [|apply andb_false_r].
  rewrite has_existsb in Hd. apply existsb_exists in Hd as (k & Hin & Hk).
  apply String.eqb_eq in Hk. subst k.
  rewrite Forall_forall in Hcap.
  destruct (Hcap _ Hin) as [H | [H | [_ ->]]]; try discriminate.
  reflexivity.
Qed.

End SequentialFacts.

(** X14. On a browser of the sequential path (Firefox, React Native, the
    Temasys plugin), when every requested kind has a capture primitive and
    every capture succeeds, the promise resolves with the descriptors of the
    streams keyed by kind, built with [options.resolution] as the caller
    gave it (no default is filled in); one capture call is made per kind,
    one backend answer is consumed per kind, and the flag of every audio or
    video kind is set. *)
Theorem sequential_capture_resolves (TrackError : Type)
    (parseError : Exn -> list DeviceArg -> TrackError) (env : Env)
    (kinds : list string) (ss : list MediaStream) (w : World TrackError)
    (rest : list Outcome) :
  isFirefox (browser env) || isReactNative (browser env)
  || isTemasysPluginUsed (browser env) = true ->
  Forall (capturable env) kinds ->
  length ss = length kinds ->
  promise w = Pending ->
  script w = map GSuccess ss ++ rest ->
  let w' := obtainAudioAndVideoPermissions parseError env (Some kinds) w in
  promise w'
  = Resolved (handleLocalStream (Some (record_streams [] kinds ss))
                (resolution (w_options w)))
  /\ script w' = rest
  /\ devices w' = flags_after kinds (devices w)
  /\ capture_calls (trace w') = (capture_calls (trace w) + length kinds)%nat.
Proof.
  intros Hb Hcap Hlen Hp Hscript w'. subst w'.
  unfold obtainAudioAndVideoPermissions.
  rewrite executor_after_support_check. cbv zeta.
  rewrite indexOf_neq_has,
    (capturable_desktop_supported env kinds Hcap). cbn [when].
  unfold after_support_check. rewrite Hb. unfold bind, ret.
  destruct (obtainDevices_success TrackError parseError env kinds ss [] w rest
              Hcap Hlen Hscript) as (o' & t & Hr & Hc & Hu & E).
  unfold StreamMap in E. rewrite E. cbn -[capture_calls]. rewrite Hp.
  repeat split.
  rewrite !capture_calls_app, Hc. cbn. lia.
Qed.

Lemma sequential_capture_resolves_witness :
  let a := mkMediaStream [mkTrack "a1"] [] None in
  let d := mkMediaStream [] [mkTrack "screen"] None in
  let w := mkWorld (mkDevices false false) no_options (@Pending unit)
             [GSuccess a; GSuccess d] [] in
  let w' := obtainAudioAndVideoPermissions (fun _ _ => tt) (env_of firefox true)
              (Some ["audio"; "desktop"]) w in
  promise w'
  = Resolved (handleLocalStream (Some [("audio", a); ("desktop", d)]) None)
  /\ script w' = []
  /\ devices w' = mkDevices true false
  /\ capture_calls (trace w') = 2%nat.
Proof.
  cbv zeta.
  apply (sequential_capture_resolves unit (fun _ _ => tt) (env_of firefox true)
           ["audio"; "desktop"]
           [mkMediaStream [mkTrack "a1"] [] None;
            mkMediaStream [] [mkTrack "screen"] None]
           (mkWorld (mkDevices false false) no_options (@Pending unit)
              [GSuccess (mkMediaStream [mkTrack "a1"] [] None);
               GSuccess (mkMediaStream [] [mkTrack "screen"] None)] [])
           []); try reflexivity.
  apply Forall_cons; [left; reflexivity|].
  apply Forall_cons; [|apply Forall_nil].
  right; right. split; reflexivity.
Defined.

(** ** The track check and the normalizer together *)

(** X15. A combined stream that passes the track check of the entry point
    yields, for every requested audio or video kind, a descriptor with a
    defined track: the audio descriptor holds the stream's first audio track
    in a stream of the audio tracks only, the camera descriptor the first
    video track in a stream of the video tracks only. *)
Theorem checked_stream_has_descriptors (kinds : list string) (s : MediaStream)
    (resolution : option string) :
  has_tracks_for kinds s = true ->
  let tracks := handleLocalStream (Some [("audioVideo", s)]) resolution in
  (has kinds "audio" = true ->
   exists t,
     hd_error (getAudioTracks s) = Some t
     /\ In (mkTrackDescriptor (new_audio_stream (getAudioTracks s)) (Some t)
              AUDIO None None) tracks)
  /\ (has kinds "video" = true ->
      exists t,
        hd_error (getVideoTracks s) = Some t
        /\ In (mkTrackDescriptor (new_video_stream (getVideoTracks s)) (Some t)
                 VIDEO (Some CAMERA) resolution) tracks).
Proof.
  intros Ht tracks. subst tracks.
  unfold has_tracks_for in Ht. rewrite !indexOf_neq_has in Ht.
  apply negb_true_iff, orb_false_elim in Ht as [Ha Hv].
  unfold handleLocalStream. cbn.
  split; intros Hk; rewrite Hk in *; cbn in Ha, Hv.
  - destruct (getAudioTracks s) as [|a la]; [discriminate|].
    exists a. split; [reflexivity|]. cbn.
    destruct (getVideoTracks s); cbn; auto.
  - destruct (getVideoTracks s) as [|v lv]; [discriminate|].
    exists v. split; [reflexivity|]. cbn.
    destruct (getAudioTracks s); cbn; auto.
Qed.

Lemma checked_stream_has_descriptors_witness :
  let s := mkMediaStream [mkTrack "a1"; mkTrack "a2"] [mkTrack "v1"] None in
  let tracks := handleLocalStream (Some [("audioVideo", s)]) (Some "720") in
  (has ["audio"; "video"] "audio" = true ->
   exists t,
     hd_error (getAudioTracks s) = Some t
     /\ In (mkTrackDescriptor (new_audio_stream (getAudioTracks s)) (Some t)
              AUDIO None None) tracks)
  /\ (has ["audio"; "video"] "video" = true ->
      exists t,
        hd_error (getVideoTracks s) = Some t
        /\ In (mkTrackDescriptor (new_video_stream (getVideoTracks s)) (Some t)
                 VIDEO (Some CAMERA) (Some "720")) tracks).
Proof.
  cbv zeta.
  apply (checked_stream_has_descriptors ["audio"; "video"]
           (mkMediaStream [mkTrack "a1"; mkTrack "a2"] [mkTrack "v1"] None)
           (Some "720")).
  reflexivity.
Defined.

(** ** A camera without a known resolution *)

Lemma resolution_update_unknown (env : Env) (label : option string) :
  (forall r, Resolutions_at env label <> Some (TableEntry r)) ->
  isAndroid (browser env) = false ->
  resolution_update env label empty_mandatory = empty_mandatory.
Proof.
  intros Hr Ha. unfold resolution_update.
  destruct (Resolutions_at env label) as [[r|i]|].
  - now destruct (Hr r).
  - reflexivity.
  - now rewrite Ha.
Qed.

(** X16. Off Android, a camera request (no screen, no desktop) whose
    resolution label is missing or has no entry in the [Resolutions] table
    (it finds nothing, or a member that the table inherits) gets a
    descriptor whose video object constrains no size at all: no minimum and
    no maximum width or height; the only frame-rate cap is
    [options.maxFps]. *)
Theorem unknown_label_unconstrained (env : Env) (um : list string)
    (o : Options) :
  has um "video" = true ->
  has um "screen" = false ->
  has um "desktop" = false ->
  (forall r, Resolutions_at env (resolution o) <> Some (TableEntry r)) ->
  isAndroid (browser env) = false ->
  exists c b t m,
    build env um o = (Ok c, b)
    /\ video c = CObj t /\ mandatory t = Some m
    /\ minWidth m = None /\ maxWidth m = None
    /\ minHeight m = None /\ maxHeight m = None
    /\ maxFrameRate m = (if truthy (maxFps o) then maxFps o else None).
Proof.
  intros Hv Hs Hd Hr Ha. rewrite build_blocks.
  destruct (camera_step_video env um o
              (mkConstraints (CBool false) (CBool false) None) Hv)
    as (t & l & E & Hm & Hl & _).
  rewrite E, (screen_step_no_screen env um _ _ Hs),
    (desktop_step_no_desktop env um o _ Hd).
  rewrite microphone_step_set_video.
  set (c2 := microphone_step env um o _).
  destruct (bandwidth_step_object o (set_video (CObj t) c2) t _ l eq_refl Hm Hl)
    as (l' & E5).
  rewrite E5. cbn [set_video audio video fake].
  match goal with |- context [fps_step ?c ?b] =>
    destruct (fps_step_object c b (set_optional (Some (l ++ l')) t)
                (resolution_update env (resolution o) empty_mandatory)
                eq_refl Hm)
      as (m' & b' & E6 & W1 & W2 & H1 & H2 & F)
  end.
  rewrite E6. cbn [b_options] in F.
  rewrite (resolution_update_unknown env (resolution o) Hr Ha) in W1, W2, H1, H2, F.
  eexists; eexists; eexists; exists m'.
  split; [reflexivity|].
  split; [rewrite (proj2 (fake_step_fields env _ _)); reflexivity|].
  split; [reflexivity|].
  rewrite W1, W2, H1, H2, F. cbn. auto.
Qed.

Lemma unknown_label_unconstrained_witness :
  exists c b t m,
    build (env_of firefox true) ["video"] no_options = (Ok c, b)
    /\ video c = CObj t /\ mandatory t = Some m
    /\ minWidth m = None /\ maxWidth m = None
    /\ minHeight m = None /\ maxHeight m = None
    /\ maxFrameRate m = None.
Proof.
  apply (unknown_label_unconstrained (env_of firefox true) ["video"] no_options);
    first [reflexivity | intros r H; vm_compute in H; discriminate H].
Defined.

(** ** A budget of capture calls *)

Lemma splice1_length (n : nat) (l : list string) :
  (n < length l)%nat -> length l = S (length (splice1 n l)).
Proof.
  revert n. induction l as [|x r IH]; intros n Hn; [cbn in Hn; lia|].
  destruct n as [|n]; [reflexivity|].
  cbn in *. rewrite <- IH by lia. reflexivity.
Qed.

Lemma indexOf_from_found (um : list string) (x : string) (i : Z) :
  (0 <= i)%Z -> indexOf_from i um x <> (-1)%Z ->
  (Z.to_nat (indexOf_from i um x - i) < length um)%nat.
Proof.
  revert i. induction um as [|y r IH]; intros i Hi Hne; [cbn in Hne; congruence|].
  cbn in *. destruct (y =? x).
  - replace (i - i)%Z with 0%Z by lia. cbn. lia.
  - specialize (IH (i + 1)%Z ltac:(lia) Hne).
    destruct (indexOf_from_range r x (i + 1)%Z ltac:(lia)) as [H|H];
      [congruence|].
    replace (indexOf_from (i + 1) r x - i)%Z
      with (Z.succ (indexOf_from (i + 1) r x - (i + 1)))%Z by lia.
    rewrite Z2Nat.inj_succ by lia. lia.
Qed.

Lemma combined_kinds_length (kinds : list string) :
  has kinds "desktop" = true ->
  length kinds = S (length (combined_kinds kinds)).
Proof.
  intros Hd. unfold combined_kinds. rewrite Hd.
  apply splice1_length.
  pose proof (indexOf_from_found kinds "desktop" 0%Z ltac:(lia)) as H.
  rewrite Z.sub_0_r in H. apply H.
  rewrite <- indexOf_neq_has in Hd. unfold indexOf in Hd.
  apply negb_true_iff, Z.eqb_neq in Hd. exact Hd.
Qed.

Section BudgetFacts.

Variable TrackError : Type.
Variable parseError : Exn -> list DeviceArg -> TrackError.
Variable env : Env.

(** A computation that makes at most [n] capture calls. *)
Definition within (n : nat) {A} (m : M (World TrackError) A) : Prop :=
  forall w,
    (capture_calls (trace (snd (m w))) <= capture_calls (trace w) + n)%nat.

Lemma within_weaken {A} (n n' : nat) (m : M (World TrackError) A) :
  (n <= n')%nat -> within n m -> within n' m.
Proof. intros Hn Hm w. specialize (Hm w). lia. Qed.

Lemma within_ret {A} (a : A) : within 0 (ret a).
Proof. intros w. cbn -[capture_calls]. lia. Qed.

Lemma within_throw {A} (e : Exn) : within 0 (@throw _ A e).
Proof. intros w. cbn -[capture_calls]. lia. Qed.

Lemma within_bind {A B} (n1 n2 : nat) (m : M (World TrackError) A)
    (k : A -> M (World TrackError) B) :
  within n1 m -> (forall a, within n2 (k a)) -> within (n1 + n2) (bind m k).
Proof.
  intros Hm Hk w. unfold bind. specialize (Hm w).
  destruct (m w) as [[a|e] w1]; cbn -[capture_calls] in *.
  - specialize (Hk a w1). lia.
  - lia.
Qed.

Lemma within_emit (e : Event TrackError) :
  is_capture e = false -> within 0 (emit e).
Proof.
  intros He w. cbn -[capture_calls]. rewrite capture_calls_app. cbn. rewrite He. cbn. lia.
Qed.

Lemma within_emit_capture (e : Event TrackError) : within 1 (emit e).
Proof.
  intros w. cbn -[capture_calls]. rewrite capture_calls_app. cbn.
  destruct (is_capture e); cbn; lia.
Qed.

Lemma within_gets {A} (f : World TrackError -> A) : within 0 (gets f).
Proof. intros w. cbn -[capture_calls]. lia. Qed.

Lemma within_put_w_options (o : Options) : within 0 (put_w_options o).
Proof. intros w. cbn -[capture_calls]. lia. Qed.

Lemma within_next_outcome : within 0 (@next_outcome TrackError).
Proof. intros w. unfold next_outcome. destruct (script w); cbn -[capture_calls]; lia. Qed.

Lemma within_async (n : nat) (m : M (World TrackError) unit) :
  within n m -> within n (async m).
Proof.
  intros Hm w. unfold async. specialize (Hm w).
  destruct (m w) as [[a|e] w1]; cbn -[capture_calls] in *; [lia|].
  rewrite capture_calls_app. cbn. lia.
Qed.

Lemma within_resolve (tracks : list TrackDescriptor) :
  within 0 (@resolve TrackError tracks).
Proof.
  intros w. rewrite resolve_eq. cbn -[capture_calls]. rewrite capture_calls_app. cbn. lia.
Qed.

Lemma within_reject (r : Rejection TrackError) : within 0 (reject r).
Proof.
  intros w. rewrite reject_eq. cbn -[capture_calls]. rewrite capture_calls_app. cbn. lia.
Qed.

Lemma within_successCallback (stream : StreamMap) :
  within 0 (@successCallback TrackError stream).
Proof.
  intros w. rewrite successCallback_eq. cbn -[capture_calls]. rewrite capture_calls_app. cbn. lia.
Qed.

Lemma within_setAvailableDevices (um : list string) (available : bool) :
  within 0 (@setAvailableDevices TrackError um available).
Proof.
  intros w. rewrite setAvailableDevices_eq. cbn -[capture_calls].
  rewrite capture_calls_app. cbn. lia.
Qed.

Lemma within_stopMediaStream (s : MediaStream) :
  within 0 (@stopMediaStream TrackError env s).
Proof.
  intros w. rewrite stopMediaStream_add_trace. cbn -[capture_calls].
  rewrite capture_calls_app,
    (capture_calls_release TrackError _ (stop_events_release TrackError env s)).
  lia.
Qed.

Lemma within_forEach {A} (l : list A) (f : A -> M (World TrackError) unit) :
  (forall a, within 0 (f a)) -> within 0 (forEach l f).
Proof.
  intros Hf. induction l as [|a r IH]; cbn.
  - apply within_ret.
  - apply (within_bind 0 0); auto.
Qed.

Lemma within_call_getConstraints (um : list string) :
  within 0 (@call_getConstraints TrackError env um).
Proof.
  intros w. unfold call_getConstraints.
  destruct (getConstraints env um _) as [r b]. cbn -[capture_calls].
  rewrite capture_calls_app, capture_calls_logs. lia.
Qed.

Lemma within_getUM (n : nat) (um : list string) (c : Constraints)
    (s_cb : MediaStream -> M (World TrackError) unit)
    (e_cb : Exn -> M (World TrackError) unit) :
  (forall s, within n (s_cb s)) -> (forall e, within n (e_cb e)) ->
  within (S n) (getUM um c s_cb (Some e_cb)).
Proof.
  intros Hs He. unfold getUM.
  apply (within_bind 1 n); [apply within_emit_capture | intros _].
  apply (within_bind 0 n); [apply within_next_outcome | intros [s|e|e|]].
  - apply within_async.
    apply (within_bind 0 n); [now apply within_emit | intros _].
    apply (within_bind 0 n); [apply within_setAvailableDevices | intros _].
    apply Hs.
  - apply within_async.
    apply (within_bind 0 n); [apply within_setAvailableDevices | intros _].
    apply (within_bind 0 n); [now apply within_emit | intros _].
    apply He.
  - apply (within_bind 0 n); [now apply within_emit | intros _]. apply He.
  - apply (within_weaken 0); [lia | apply within_ret].
Qed.

Lemma within_getUserMediaWithConstraints (n : nat) (um : list string)
    (s_cb : MediaStream -> M (World TrackError) unit)
    (e_cb : Exn -> M (World TrackError) unit) :
  (forall s, within n (s_cb s)) -> (forall e, within n (e_cb e)) ->
  within (S n) (getUserMediaWithConstraints env um s_cb (Some e_cb)).
Proof.
  intros Hs He. unfold getUserMediaWithConstraints.
  destruct (isReactNative (browser env)).
  - apply (within_bind 0 (S n)); [now apply within_emit | intros _].
    apply within_async.
    apply (within_bind 0 (S n)); [now apply within_emit | intros _].
    now apply within_getUM.
  - apply (within_bind 0 (S n)); [apply within_call_getConstraints | intros c].
    now apply within_getUM.
Qed.

Lemma within_obtainStream (n : nat)
    (onSuccess : MediaStream -> M (World TrackError) unit)
    (onFailure : Exn -> M (World TrackError) unit) :
  (forall s, within n (onSuccess s)) -> (forall e, within n (onFailure e)) ->
  within (S n) (obtainStream onSuccess onFailure).
Proof.
  intros Hs Hf. unfold obtainStream.
  apply (within_bind 1 n); [apply within_emit_capture | intros _].
  apply (within_bind 0 n); [apply within_next_outcome | intros [s|e|e|]];
    auto using within_async.
  - apply (within_weaken 0); [lia | apply within_throw].
  - apply (within_weaken 0); [lia | apply within_ret].
Qed.

Lemma within_deviceGUM (n : nat) (key : string)
    (capture : CapturePrimitive TrackError)
    (s_cb : MediaStream -> M (World TrackError) unit)
    (e_cb : Exn -> M (World TrackError) unit) :
  deviceGUM env key = Some capture ->
  (forall s, within n (s_cb s)) -> (forall e, within n (e_cb e)) ->
  within (S n) (capture s_cb e_cb).
Proof.
  unfold deviceGUM. intros H Hs He.
  destruct (key =? "audio"); [injection H as <-|].
  { now apply within_getUserMediaWithConstraints. }
  destruct (key =? "video"); [injection H as <-|].
  { now apply within_getUserMediaWithConstraints. }
  destruct ((key =? "desktop") && screenObtainer_isSupported env);
    [injection H as <-; now apply within_obtainStream|].
  destruct (Object_prototype key) as [[|]|]; try discriminate.
  injection H as <-. apply (within_weaken 0); [lia | apply within_ret].
Qed.

Lemma within_obtainDevices (devs : list string) (streams : option StreamMap) :
  within (length devs)
    (obtainDevices parseError env devs streams (deviceGUM env)
       (@successCallback TrackError)
       (fun err => reject (RejTrackError err))).
Proof.
  revert streams. induction devs as [|d rest IH]; intros streams.
  - cbn. apply within_successCallback.
  - cbn [obtainDevices length].
    destruct (deviceGUM env (array_key [d])) as [capture|] eqn:E;
      [|apply (within_weaken 0); [lia | apply within_throw]].
    apply (within_deviceGUM _ _ _ _ _ E).
    + intros s. apply IH.
    + intros e. apply (within_weaken 0); [lia|].
      destruct streams as [m|]; [|apply within_throw].
      apply (within_bind 0 0).
      * apply within_forEach. intros key.
        destruct (smap_get key m);
          [apply within_stopMediaStream | apply within_throw].
      * intros _. apply (within_bind 0 0); [now apply within_emit | intros _].
        apply within_reject.
Qed.

Lemma within_after_support_check (kinds : list string) :
  within (length kinds) (after_support_check TrackError parseError env kinds).
Proof.
  unfold after_support_check.
  destruct (isFirefox (browser env) || isReactNative (browser env)
            || isTemasysPluginUsed (browser env)).
  - apply within_obtainDevices.
  - cbv zeta. rewrite !indexOf_gt_has. fold (combined_kinds kinds).
    apply (within_bind 0 (length kinds)); [apply within_gets | intros o].
    apply (within_bind 0 (length kinds));
      [apply within_put_w_options | intros _].
    destruct (has kinds "desktop") eqn:Hd.
    + rewrite (combined_kinds_length kinds Hd).
      destruct (combined_kinds kinds) as [|k ks] eqn:Ek.
      * cbn. apply within_obtainStream.
        -- intros s. apply within_successCallback.
        -- intros e. apply within_reject.
      * cbn [length Nat.ltb Nat.leb].
        apply (within_weaken 2); [lia|].
        apply within_getUserMediaWithConstraints.
        -- intros s. destruct (negb (has_tracks_for _ s)).
           ++ apply (within_weaken 0); [lia|].
              apply (within_bind 0 0);
                [apply within_stopMediaStream | intros _; apply within_reject].
           ++ apply within_obtainStream.
              ** intros s'. apply within_successCallback.
              ** intros e. apply (within_bind 0 0);
                   [apply within_stopMediaStream | intros _; apply within_reject].
        -- intros e. apply (within_weaken 0); [lia | apply within_reject].
    + assert (Hk : combined_kinds kinds = kinds)
        by (unfold combined_kinds; now rewrite Hd).
      rewrite Hk.
      destruct kinds as [|k ks].
      * cbn. apply within_ret.
      * cbn [length Nat.ltb Nat.leb].
        apply (within_weaken 1); [lia|].
        apply within_getUserMediaWithConstraints.
        -- intros s. destruct (negb (has_tracks_for _ s)).
           ++ apply (within_bind 0 0);
                [apply within_stopMediaStream | intros _; apply within_reject].
           ++ apply within_successCallback.
        -- intros e. apply within_reject.
Qed.

Lemma within_executor (devices0 : option (list string)) :
  within (length (match devices0 with
                  | Some l => l
                  | None => ["audio"; "video"]
                  end))
    (executor parseError env devices0).
Proof.
  rewrite executor_after_support_check. cbv zeta.
  apply (within_bind 0 _); [|intros _; apply within_after_support_check].
  destruct (negb _ && negb _); cbn [when];
    [apply within_reject | apply within_ret].
Qed.

End BudgetFacts.

(** X17. Whatever the browser, the options and the answers of the backend,
    the entry point never makes more capture calls ([getUserMedia] and
    desktop capture together) than kinds were requested: at most two for the
    default request. *)
Theorem capture_calls_bounded (TrackError : Type)
    (parseError : Exn -> list DeviceArg -> TrackError) (env : Env)
    (devices0 : option (list string)) (w : World TrackError) :
  (capture_calls
     (trace (obtainAudioAndVideoPermissions parseError env devices0 w))
   <= capture_calls (trace w)
      + length (match devices0 with
                | Some kinds => kinds
                | None => ["audio"; "video"]
                end))%nat.
Proof.
  pose proof (within_executor TrackError parseError env devices0 w) as H.
  destruct (obtainAudioAndVideoPermissions_settled TrackError parseError env
              devices0 w) as (_ & Ht & _).
  rewrite Ht. exact H.
Qed.

(** ** A kind without a capture primitive *)

(** X18. On a browser of the sequential path, a requested kind under which
    the [deviceGUM] object holds no function, neither its own nor an
    inherited one (such as [screen], or [desktop] spelled otherwise), makes
    the call of [options.deviceGUM[device]] throw. When it is the
    first kind, the exception leaves the executor and the promise is
    rejected with it. When captures before it have succeeded, the exception
    is raised in the success callback of the last of them: the promise stays
    pending for ever, the streams already captured are not released, and no
    further backend answer is consumed. *)
Theorem sequential_unknown_kind (TrackError : Type)
    (parseError : Exn -> list DeviceArg -> TrackError) (env : Env)
    (pre : list string) (k : string) (post : list string)
    (ss : list MediaStream) (w : World TrackError) (rest : list Outcome) :
  isFirefox (browser env) || isReactNative (browser env)
  || isTemasysPluginUsed (browser env) = true ->
  negb (screenObtainer_isSupported env) && has (pre ++ k :: post) "desktop"
  = false ->
  Forall (capturable env) pre ->
  deviceGUM env k = @None (CapturePrimitive TrackError) ->
  length ss = length pre ->
  promise w = Pending ->
  script w = map GSuccess ss ++ rest ->
  let w' := obtainAudioAndVideoPermissions parseError env
              (Some (pre ++ k :: post)) w in
  let e := TypeError "options.deviceGUM[device] is not a function" in
  script w' = rest
  /\ (pre = [] -> promise w' = Rejected (RejExn e) /\ trace w' = trace w)
  /\ (pre <> [] ->
      promise w' = Pending
      /\ exists t,
           trace w' = trace w ++ t ++ [EUncaught e]
           /\ capture_calls t = length pre
           /\ unsettled t = true /\ no_release t = true).
Proof.
  intros Hb Hsup Hcap Hk Hlen Hp Hscript w' e. subst w' e.
  unfold obtainAudioAndVideoPermissions.
  rewrite executor_after_support_check. cbv zeta.
  rewrite indexOf_neq_has, Hsup. cbn [when].
  unfold after_support_check. rewrite Hb. unfold bind, ret.
  destruct pre as [|d pre'].
  - destruct ss; [|discriminate]. cbn in Hscript. cbn [app].
    pose proof (obtainDevices_no_primitive TrackError parseError env k post
                  [] w Hk) as E.
    unfold StreamMap in E. rewrite E. rewrite Hp. cbn.
    split; [exact Hscript|]. split; [auto | congruence].
  - destruct (obtainDevices_unknown_later TrackError parseError env k post rest
                pre' Hk d ss [] w Hcap Hlen Hscript)
      as (o' & t & Hc & Hu & Hn & E).
    unfold StreamMap in E. cbn [app]. rewrite E. cbn -[capture_calls].
    split; [reflexivity|]. split; [discriminate|].
    intros _. split; [exact Hp|]. exists t. auto.
Qed.

Lemma sequential_unknown_kind_witness :
  let a := mkMediaStream [mkTrack "a1"] [] None in
  let w := mkWorld initial_devices no_options (@Pending unit)
             [GSuccess a; GSuccess (mkMediaStream [] [mkTrack "s"] None)] [] in
  let w' := obtainAudioAndVideoPermissions (fun _ _ => tt) (env_of firefox true)
              (Some (["audio"] ++ "screen" :: [])) w in
  let e := TypeError "options.deviceGUM[device] is not a function" in
  script w' = [GSuccess (mkMediaStream [] [mkTrack "s"] None)]
  /\ (["audio"] = [] -> promise w' = Rejected (RejExn e) /\ trace w' = trace w)
  /\ (["audio"] <> [] ->
      promise w' = Pending
      /\ exists t,
           trace w' = trace w ++ t ++ [EUncaught e]
           /\ capture_calls t = 1%nat
           /\ unsettled t = true /\ no_release t = true).
Proof.
  cbv zeta.
  apply (sequential_unknown_kind unit (fun _ _ => tt) (env_of firefox true)
           ["audio"] "screen" []
           [mkMediaStream [mkTrack "a1"] [] None]
           (mkWorld initial_devices no_options (@Pending unit)
              [GSuccess (mkMediaStream [mkTrack "a1"] [] None);
               GSuccess (mkMediaStream [] [mkTrack "s"] None)] [])
           [GSuccess (mkMediaStream [] [mkTrack "s"] None)]);
    try reflexivity.
  apply Forall_cons; [left; reflexivity | apply Forall_nil].
Defined.

(** A kind that names a method the [deviceGUM] object inherits, such as
    [toString], throws nothing: the method returns without calling back, so
    the promise stays pending, no capture call is made and the kinds after
    it are never captured. *)
Example sequential_inherited_kind :
  let w := mkWorld initial_devices no_options (@Pending unit)
             [GSuccess (mkMediaStream [mkTrack "a1"] [] None)] [] in
  obtainAudioAndVideoPermissions (fun _ _ => tt) (env_of firefox true)
    (Some ["toString"; "audio"]) w
  = w.
Proof. reflexivity. Qed.

(** * Waiting for the first capture *)

(** ** [getUserMediaStatus], [wrapGetUserMedia] and
    [afterUserMediaInitialized] *)

(** A function queued by [afterUserMediaInitialized]. The module calls it
    without arguments; the call is seen as a notice with the function's
    name, after which the function returns or throws. It does not call back
    into the module. *)
Record Callback : Type := mkCallback {
  cb_name : string;
  cb_throws : option Exn
}.

Inductive Notice : Type :=
| NCalled (name : string).

(** The object [getUserMediaStatus], with the calls of queued functions
    made so far. *)
Record GetUserMediaStatus : Type := mkStatus {
  initialized : bool;
  callbacks : list Callback;
  notices : list Notice
}.

Definition getUserMediaStatus : GetUserMediaStatus := mkStatus false [] [].

(** [callback()] *)
Definition call_callback (callback : Callback) : M GetUserMediaStatus unit :=
  modify (fun st => mkStatus (initialized st) (callbacks st)
                      (notices st ++ [NCalled (cb_name callback)])) ;;
  match cb_throws callback with
  | Some e => throw e
  | None => ret tt
  end.

(** [callbacks.forEach(function (callback) { callback(); })] *)
Fixpoint forEach_callback (l : list Callback) : M GetUserMediaStatus unit :=
  match l with
  | [] => ret tt
  | callback :: r => call_callback callback ;; forEach_callback r
  end.

(** [maybeApply(fn, [arg])] *)
Definition maybeApply {A} (fn : option (A -> M GetUserMediaStatus unit))
    (arg : A) : M GetUserMediaStatus unit :=
  match fn with
  | Some f => f arg
  | None => ret tt
  end.

(** A native [getUserMedia]: constraints, success callback, error
    callback. *)
Definition NativeGetUserMedia : Type :=
  Constraints ->
  (MediaStream -> M GetUserMediaStatus unit) ->
  (Exn -> M GetUserMediaStatus unit) ->
  M GetUserMediaStatus unit.

(** The function that [wrapGetUserMedia(getUserMedia)] returns. *)
Definition wrapGetUserMedia (getUserMedia : NativeGetUserMedia)
    (constraints : Constraints)
    (successCallback : option (MediaStream -> M GetUserMediaStatus unit))
    (errorCallback : option (Exn -> M GetUserMediaStatus unit))
    : M GetUserMediaStatus unit :=
  getUserMedia constraints
    (fun stream =>
       maybeApply successCallback stream ;;
       i <- gets initialized ;;
       if negb i then
         modify (fun st => mkStatus true (callbacks st) (notices st)) ;;
         cbs <- gets callbacks ;;
         forEach_callback cbs ;;
         modify (fun st => mkStatus (initialized st) [] (notices st))
       else ret tt)
    (fun error => maybeApply errorCallback error).

Definition afterUserMediaInitialized (callback : Callback)
    : M GetUserMediaStatus unit :=
  i <- gets initialized ;;
  if i then call_callback callback
  else modify (fun st => mkStatus (initialized st)
                           (callbacks st ++ [callback]) (notices st)).

(** A native [getUserMedia] that answers with [outcome], running the
    callback it selects. *)
Definition native (outcome : Outcome) : NativeGetUserMedia :=
  fun _ onSuccess onError =>
    match outcome with
    | GSuccess stream => onSuccess stream
    | GError error => onError error
    | GThrow e => throw e
    | GNoCallback => ret tt
    end.

(** A callback that the caller hands to the wrapped [getUserMedia], as the
    status object sees it: it may queue functions with
    [afterUserMediaInitialized], and it returns or throws. A capture call
    that it makes is answered later and is a step of its own. *)
Record CallerCallback : Type := mkCallerCallback {
  cc_queues : list Callback;
  cc_throws : option Exn
}.

Fixpoint queue_all (l : list Callback) : M GetUserMediaStatus unit :=
  match l with
  | [] => ret tt
  | callback :: r => afterUserMediaInitialized callback ;; queue_all r
  end.

Definition caller_callback {A} (cc : CallerCallback)
    : A -> M GetUserMediaStatus unit :=
  fun _ =>
    queue_all (cc_queues cc) ;;
    match cc_throws cc with
    | Some e => throw e
    | None => ret tt
    end.

(** What the rest of the program does with the status: it queues a
    function, or it makes a capture call, with or without callbacks of its
    own, that the backend answers. *)
Inductive Step : Type :=
| Register (callback : Callback)
| Capture (constraints : Constraints) (outcome : Outcome)
    (successCallback errorCallback : option CallerCallback).

(** The status after one step; the caller goes on whatever the step
    returned or threw. *)
Definition step (st : GetUserMediaStatus) (s : Step) : GetUserMediaStatus :=
  match s with
  | Register callback => snd (afterUserMediaInitialized callback st)
  | Capture constraints outcome successCallback errorCallback =>
      snd (wrapGetUserMedia (native outcome) constraints
             (option_map caller_callback successCallback)
             (option_map caller_callback errorCallback) st)
  end.

Definition run (steps : list Step) (st : GetUserMediaStatus)
    : GetUserMediaStatus :=
  fold_left step steps st.

(** The functions that a step queues: the one it registers, or those that
    the callback queues which the backend's answer selects. *)
Definition queued_by (s : Step) : list Callback :=
  match s with
  | Register callback => [callback]
  | Capture _ (GSuccess _) (Some cc) _ => cc_queues cc
  | Capture _ (GError _) _ (Some cc) => cc_queues cc
  | Capture _ _ _ _ => []
  end.

(** The capture of the step succeeds and the caller's success callback, if
    there is one, returns. *)
Definition opens (s : Step) : bool :=
  match s with
  | Capture _ (GSuccess _) (Some cc) _ =>
      match cc_throws cc with None => true | Some _ => false end
  | Capture _ (GSuccess _) None _ => true
  | _ => false
  end.

(** The functions queued by the steps, in order. *)
Definition registered (steps : list Step) : list Callback :=
  flat_map queued_by steps.

(** Some capture of the steps succeeded with a success callback that
    returned. *)
Definition succeeded (steps : list Step) : bool := existsb opens steps.

Definition returns (callback : Callback) : Prop := cb_throws callback = None.

Definition called (l : list Callback) : list Notice :=
  map (fun callback => NCalled (cb_name callback)) l.

Section QueueFacts.

Lemma forEach_callback_returns (l : list Callback) (st : GetUserMediaStatus) :
  Forall returns l ->
  forEach_callback l st
  = (Ok tt, mkStatus (initialized st) (callbacks st) (notices st ++ called l)).
Proof.
  revert st. induction l as [|c r IH]; intros st Hl.
  - cbn. rewrite app_nil_r. now destruct st.
  - pose proof (Forall_inv Hl) as Hc. apply Forall_inv_tail in Hl.
    cbn [forEach_callback]. unfold bind, call_callback, modify, ret.
    unfold returns in Hc. rewrite Hc. cbn. rewrite (IH _ Hl). cbn.
    rewrite <- app_assoc. reflexivity.
Qed.

Lemma forEach_callback_throws (pre : list Callback) (c : Callback)
    (post : list Callback) (e : Exn) (st : GetUserMediaStatus) :
  Forall returns pre -> cb_throws c = Some e ->
  forEach_callback (pre ++ c :: post) st
  = (Throw e, mkStatus (initialized st) (callbacks st)
                (notices st ++ called (pre ++ [c]))).
Proof.
  revert st. induction pre as [|p r IH]; intros st Hl Hc.
  - cbn. unfold bind, call_callback, modify, throw. cbn. now rewrite Hc.
  - pose proof (Forall_inv Hl) as Hp. apply Forall_inv_tail in Hl.
    cbn [forEach_callback app]. unfold bind at 1, call_callback, modify, ret.
    unfold returns in Hp. rewrite Hp. cbn -[forEach_callback].
    rewrite (IH _ Hl Hc). cbn. rewrite <- app_assoc. reflexivity.
Qed.

(** The status after functions were queued, or called at once. *)
Definition after_queueing (l : list Callback) (st : GetUserMediaStatus)
    : GetUserMediaStatus :=
  if initialized st
  then mkStatus true (callbacks st) (notices st ++ called l)
  else mkStatus false (callbacks st ++ l) (notices st).

Lemma afterUserMediaInitialized_run (c : Callback) (st : GetUserMediaStatus) :
  returns c ->
  afterUserMediaInitialized c st = (Ok tt, after_queueing [c] st).
Proof.
  intros Hc. unfold returns in Hc.
  unfold afterUserMediaInitialized, after_queueing, bind, gets, call_callback,
    modify, ret.
  destruct st as [[|] q n]; cbn; rewrite ?Hc; reflexivity.
Qed.

Lemma after_queueing_app (l1 l2 : list Callback) (st : GetUserMediaStatus) :
  after_queueing l2 (after_queueing l1 st) = after_queueing (l1 ++ l2) st.
Proof.
  unfold after_queueing, called. destruct (initialized st); cbn;
    now rewrite ?map_app, <- ?app_assoc.
Qed.

Lemma after_queueing_nil (st : GetUserMediaStatus) : after_queueing [] st = st.
Proof.
  unfold after_queueing. destruct st as [[|] q n]; cbn;
    now rewrite app_nil_r.
Qed.

Lemma queue_all_run (l : list Callback) (st : GetUserMediaStatus) :
  Forall returns l ->
  queue_all l st = (Ok tt, after_queueing l st).
Proof.
  revert st. induction l as [|c r IH]; intros st Hl.
  - cbn. now rewrite after_queueing_nil.
  - pose proof (Forall_inv Hl) as Hc. apply Forall_inv_tail in Hl.
    cbn [queue_all]. unfold bind.
    rewrite (afterUserMediaInitialized_run c st Hc), (IH _ Hl).
    now rewrite after_queueing_app.
Qed.

(** The status after the wrapper's own part of a success. *)
Definition after_opening (st : GetUserMediaStatus) : GetUserMediaStatus :=
  if initialized st then st
  else mkStatus true [] (notices st ++ called (callbacks st)).

Lemma step_run (s : Step) (st : GetUserMediaStatus) :
  Forall returns (callbacks st) ->
  Forall returns (queued_by s) ->
  step st s
  = if opens s then after_opening (after_queueing (queued_by s) st)
    else after_queueing (queued_by s) st.
Proof.
  intros Hq Hs.
  assert (Hopen : forall st1, Forall returns (callbacks st1) ->
            snd ((i <- gets initialized ;;
                  if negb i then
                    modify (fun st => mkStatus true (callbacks st) (notices st)) ;;
                    cbs <- gets callbacks ;;
                    forEach_callback cbs ;;
                    modify (fun st => mkStatus (initialized st) [] (notices st))
                  else ret tt) st1)
            = after_opening st1).
  { intros st1 H1. unfold after_opening, bind, gets, modify, ret. cbn.
    destruct st1 as [[|] q n]; cbn; [reflexivity|].
    cbn in H1. rewrite (forEach_callback_returns q _ H1). reflexivity. }
  destruct s as [c | cs o sc ec].
  - cbn [step queued_by opens].
    rewrite (afterUserMediaInitialized_run c st); [reflexivity|].
    now apply Forall_inv in Hs.
  - cbn [step]. unfold wrapGetUserMedia, native.
    destruct o as [m|e|e|]; cbn [queued_by opens].
    + destruct sc as [[q t]|]; cbn [option_map maybeApply queued_by opens
                                    cc_queues cc_throws] in *.
      * unfold caller_callback. cbn [cc_queues cc_throws].
        unfold bind at 1 2. rewrite (queue_all_run q st Hs).
        destruct t as [e|]; [reflexivity|]. unfold ret at 1.
        apply Hopen. unfold after_queueing.
        destruct (initialized st); cbn; [exact Hq | now apply Forall_app].
      * unfold bind at 1, ret at 1. rewrite after_queueing_nil.
        now apply Hopen.
    + destruct ec as [[q t]|]; cbn [option_map maybeApply queued_by
                                    cc_queues cc_throws] in *.
      * unfold caller_callback. cbn [cc_queues cc_throws].
        unfold bind. rewrite (queue_all_run q st Hs).
        destruct t; reflexivity.
      * destruct sc as [[q t]|]; cbn; now rewrite after_queueing_nil.
    + destruct sc as [[q t]|]; cbn; now rewrite after_queueing_nil.
    + destruct sc as [[q t]|]; cbn; now rewrite after_queueing_nil.
Qed.

(** The status after any steps, from any status. *)
Lemma run_from (steps : list Step) (st : GetUserMediaStatus) :
  Forall returns (callbacks st) ->
  Forall returns (registered steps) ->
  run steps st
  = if initialized st
    then mkStatus true (callbacks st) (notices st ++ called (registered steps))
    else if succeeded steps
         then mkStatus true []
                (notices st ++ called (callbacks st ++ registered steps))
         else mkStatus false (callbacks st ++ registered steps) (notices st).
Proof.
  revert st. induction steps as [|s r IH]; intros st Hq Hr.
  - cbn. rewrite !app_nil_r. now destruct st as [[|] q n].
  - unfold run. cbn [fold_left]. fold (run r (step st s)).
    cbn [registered flat_map] in Hr. fold (registered r) in Hr.
    apply Forall_app in Hr as [Hs Hr].
    rewrite (step_run s st Hq Hs).
    cbn [registered flat_map succeeded existsb].
    fold (registered r). fold (succeeded r).
    unfold after_opening, after_queueing.
    destruct (initialized st) eqn:Hi.
    + cbn [initialized]. destruct (opens s);
        rewrite IH by (cbn; auto); cbn; unfold called;
        now rewrite map_app, <- app_assoc.
    + cbn [initialized callbacks notices]. destruct (opens s); cbn [orb].
      * rewrite IH by (cbn; auto). cbn. unfold called.
        now rewrite !map_app, <- !app_assoc.
      * rewrite IH by (cbn; auto using Forall_app; apply Forall_app; auto).
        cbn. now rewrite <- !app_assoc.
Qed.

End QueueFacts.

(** X19. Queued functions that return are each called exactly once, in the
    order in which they were queued, and none before the first capture that
    succeeds and whose success callback (if the caller gave one) returns.
    After any sequence of registrations and capture calls, whatever the
    backend answers and whether the callers' callbacks return or throw, and
    whether they queue functions of their own: if such a capture has
    happened, every queued function has been called once, in the order of
    queueing, and the queue is empty; otherwise none has been called and
    all of them wait in the queue. Captures that fail, and captures whose
    success callback throws, call none. *)
Theorem callbacks_run_once_in_order (steps : list Step) :
  Forall returns (registered steps) ->
  run steps getUserMediaStatus
  = if succeeded steps
    then mkStatus true [] (called (registered steps))
    else mkStatus false (registered steps) [].
Proof.
  intros Hr.
  rewrite (run_from steps getUserMediaStatus (Forall_nil _) Hr). reflexivity.
Qed.

Lemma callbacks_run_once_in_order_witness :
  let c := mkConstraints (CBool true) (CBool false) None in
  let s := mkMediaStream [mkTrack "a1"] [] None in
  run [Register (mkCallback "first" None);
       Capture c (GError (GumError "NotFoundError")) None None;
       Capture c (GSuccess s)
         (Some (mkCallerCallback [mkCallback "second" None]
                  (Some (TypeError "not a function")))) None;
       Capture c (GSuccess s)
         (Some (mkCallerCallback [mkCallback "third" None] None)) None;
       Register (mkCallback "fourth" None);
       Capture c (GSuccess s) None None]
    getUserMediaStatus
  = mkStatus true []
      [NCalled "first"; NCalled "second"; NCalled "third"; NCalled "fourth"].
Proof.
  cbv zeta.
  apply (callbacks_run_once_in_order
           [Register (mkCallback "first" None);
            Capture (mkConstraints (CBool true) (CBool false) None)
              (GError (GumError "NotFoundError")) None None;
            Capture (mkConstraints (CBool true) (CBool false) None)
              (GSuccess (mkMediaStream [mkTrack "a1"] [] None))
              (Some (mkCallerCallback [mkCallback "second" None]
                       (Some (TypeError "not a function")))) None;
            Capture (mkConstraints (CBool true) (CBool false) None)
              (GSuccess (mkMediaStream [mkTrack "a1"] [] None))
              (Some (mkCallerCallback [mkCallback "third" None] None)) None;
            Register (mkCallback "fourth" None);
            Capture (mkConstraints (CBool true) (CBool false) None)
              (GSuccess (mkMediaStream [mkTrack "a1"] [] None)) None None]).
  repeat constructor.
Defined.

(** A capture that succeeds while the caller's success callback throws
    calls no queued function; the next capture whose callback returns
    does. *)
Example throwing_success_callback_then_success :
  let c := mkConstraints (CBool true) (CBool false) None in
  let s := mkMediaStream [mkTrack "a1"] [] None in
  let failing := Some (mkCallerCallback [] (Some (TypeError "not a function"))) in
  run [Register (mkCallback "enumerate" None); Capture c (GSuccess s) failing None]
    getUserMediaStatus
  = mkStatus false [mkCallback "enumerate" None] []
  /\ run [Register (mkCallback "enumerate" None);
          Capture c (GSuccess s) failing None;
          Capture c (GSuccess s) None None]
       getUserMediaStatus
     = mkStatus true [] [NCalled "enumerate"].
Proof. split; reflexivity. Qed.

(** X20. A queued function that throws strands the functions queued after
    it: at the first successful capture the functions before it and the
    function itself are called, the exception leaves the wrapper's success
    callback, the flag is already set and the queue is not emptied; no later
    capture calls the functions that remain in the queue. *)
Theorem throwing_callback_strands_queue (pre : list Callback) (c : Callback)
    (post : list Callback) (e : Exn) (cs : Constraints) (s : MediaStream)
    (seen : list Notice) :
  Forall returns pre ->
  cb_throws c = Some e ->
  let st := mkStatus false (pre ++ c :: post) seen in
  let st' := mkStatus true (pre ++ c :: post) (seen ++ called (pre ++ [c])) in
  wrapGetUserMedia (native (GSuccess s)) cs None None st = (Throw e, st')
  /\ forall (later : list (Constraints * Outcome)),
       run (map (fun a => Capture (fst a) (snd a) None None) later) st' = st'.
Proof.
  intros Hpre Hc st st'. subst st st'. split.
  - unfold wrapGetUserMedia, native. cbn.
    unfold bind, gets, modify, ret. cbn -[forEach_callback].
    rewrite (forEach_callback_throws pre c post e _ Hpre Hc). reflexivity.
  - intros later. induction later as [|[cs' o] r IH]; [reflexivity|].
    cbn [map fst snd]. unfold run. cbn [fold_left].
    replace (step _ (Capture cs' o None None))
      with (mkStatus true (pre ++ c :: post) (seen ++ called (pre ++ [c])));
      [exact IH|].
    cbn. unfold wrapGetUserMedia, native.
    destruct o; reflexivity.
Qed.

Lemma throwing_callback_strands_queue_witness :
  let q := [mkCallback "first" None;
            mkCallback "second" (Some (Error "boom"));
            mkCallback "third" None] in
  let cs := mkConstraints (CBool true) (CBool false) None in
  let s := mkMediaStream [mkTrack "a1"] [] None in
  let st' := mkStatus true q [NCalled "first"; NCalled "second"] in
  wrapGetUserMedia (native (GSuccess s)) cs None None (mkStatus false q [])
  = (Throw (Error "boom"), st')
  /\ forall (later : list (Constraints * Outcome)),
       run (map (fun a => Capture (fst a) (snd a) None None) later) st' = st'.
Proof.
  cbv zeta.
  apply (throwing_callback_strands_queue [mkCallback "first" None]
           (mkCallback "second" (Some (Error "boom")))
           [mkCallback "third" None] (Error "boom")
           (mkConstraints (CBool true) (CBool false) None)
           (mkMediaStream [mkTrack "a1"] [] None) []).
  - repeat constructor.
  - reflexivity.
Defined.

(** X21. When the caller's success callback throws, the queue keeps waiting:
    the wrapper's success callback ends with that exception before it looks
    at the flag, so the flag is not set and no queued function is called by
    this capture. *)
Theorem throwing_success_callback_keeps_queue (cs : Constraints)
    (s : MediaStream)
    (successCallback : MediaStream -> M GetUserMediaStatus unit)
    (errorCallback : option (Exn -> M GetUserMediaStatus unit))
    (e : Exn) (st st1 : GetUserMediaStatus) :
  successCallback s st = (Throw e, st1) ->
  wrapGetUserMedia (native (GSuccess s)) cs (Some successCallback)
    errorCallback st
  = (Throw e, st1).
Proof.
  intros Hs. unfold wrapGetUserMedia, native, maybeApply, bind.
  now rewrite Hs.
Qed.

Lemma throwing_success_callback_keeps_queue_witness :
  let q := [mkCallback "enumerate" None] in
  wrapGetUserMedia
    (native (GSuccess (mkMediaStream [mkTrack "a1"] [] None)))
    (mkConstraints (CBool true) (CBool false) None)
    (Some (fun _ => throw (TypeError "not a function"))) None
    (mkStatus false q [])
  = (Throw (TypeError "not a function"), mkStatus false q []).
Proof.
  cbv zeta.
  apply (throwing_success_callback_keeps_queue
           (mkConstraints (CBool true) (CBool false) None)
           (mkMediaStream [mkTrack "a1"] [] None)
           (fun _ => throw (TypeError "not a function")) None
           (TypeError "not a function")).
  reflexivity.
Defined.

(** * Initialisation *)

(** ** [RTCUtils.init] *)

(** What [RTCUtils.init] asks of the browser: the tests of
    [RTCBrowserType], the Firefox version, whether [navigator.mediaDevices]
    is defined (then with its [enumerateDevices]), and whether the Temasys
    plugin ever calls the function handed to [AdapterJS.webRTCReady]. The
    prefixed [getUserMedia] of the branch taken is there. *)
Record Navigator : Type := mkNavigator {
  nav_browser : RTCBrowserType;
  isOpera : bool;
  isNWJS : bool;
  getFirefoxVersion : Z;
  mediaDevices : bool;
  plugin_ready : bool
}.

(** The [options] of [init]; only [useIPv6] is read here. *)
Record InitOptions : Type := mkInitOptions {
  useIPv6 : option bool
}.

Inductive PeerConnection : Type :=
| mozRTCPeerConnection
| webkitRTCPeerConnection
| RTCPeerConnection.

Inductive GetUserMedia : Type :=
| wrapped_mozGetUserMedia
| wrapped_webkitGetUserMedia
| webkitGetUserMedia
| window_getUserMedia.

Inductive EnumerateDevices : Type :=
| wrapped_enumerateDevices
| enumerateDevicesThroughMediaStreamTrack.

(** An entry of [pc_constraints.optional]. *)
Inductive PcOption : Type :=
| DtlsSrtpKeyAgreement (value : string)
| googIPv6 (value : bool).

(** [pc_constraints]: [{}] has no [optional]. *)
Record PcConstraints : Type := mkPcConstraints {
  pc_optional : option (list PcOption)
}.

(** What the promise of [init] is rejected with: the [Error] with the text
    "Firefox version too old: " + FFversion + ". Required >= 40.", the
    string 'Browser does not appear to be WebRTC-capable', or an exception
    that left the executor. *)
Inductive InitRejection : Type :=
| FirefoxTooOld (FFversion : Z)
| NotWebRTCCapable
| Thrown (e : Exn).

Inductive InitPromise : Type :=
| InitPending
| InitResolved
| InitRejected (reason : InitRejection).

Inductive InitEvent : Type :=
| ILogError (what : InitRejection)
| IEmitRtcReady
| IScreenObtainerInit (options : option InitOptions).

(** The fields of [RTCUtils] that [init] assigns, [rtcReady], the promise
    and the effects. The element helpers ([attachMediaStream],
    [getStreamID], [getVideoSrc], [setVideoSrc]) are assigned beside
    [getUserMedia] and are not part of this state. *)
Record RTCUtilsState : Type := mkRTCUtilsState {
  rtcReady : bool;
  peerconnection : option PeerConnection;
  getUserMedia : option GetUserMedia;
  enumerateDevices : option EnumerateDevices;
  pc_constraints : option PcConstraints;
  init_promise : InitPromise;
  init_trace : list InitEvent
}.

Definition RTCUtils_initial : RTCUtilsState :=
  mkRTCUtilsState false None None None None InitPending [].

Definition set_rtcReady (v : bool) : M RTCUtilsState unit :=
  modify (fun s => mkRTCUtilsState v (peerconnection s) (getUserMedia s)
                     (enumerateDevices s) (pc_constraints s) (init_promise s)
                     (init_trace s)).

Definition set_peerconnection (v : PeerConnection) : M RTCUtilsState unit :=
  modify (fun s => mkRTCUtilsState (rtcReady s) (Some v) (getUserMedia s)
                     (enumerateDevices s) (pc_constraints s) (init_promise s)
                     (init_trace s)).

Definition set_getUserMedia (v : GetUserMedia) : M RTCUtilsState unit :=
  modify (fun s => mkRTCUtilsState (rtcReady s) (peerconnection s) (Some v)
                     (enumerateDevices s) (pc_constraints s) (init_promise s)
                     (init_trace s)).

Definition set_enumerateDevices (v : EnumerateDevices) : M RTCUtilsState unit :=
  modify (fun s => mkRTCUtilsState (rtcReady s) (peerconnection s)
                     (getUserMedia s) (Some v) (pc_constraints s)
                     (init_promise s) (init_trace s)).

Definition set_pc_constraints (v : PcConstraints) : M RTCUtilsState unit :=
  modify (fun s => mkRTCUtilsState (rtcReady s) (peerconnection s)
                     (getUserMedia s) (enumerateDevices s) (Some v)
                     (init_promise s) (init_trace s)).

(** [this.pc_constraints.optional.push(e)] *)
Definition pc_constraints_push (e : PcOption) : M RTCUtilsState unit :=
  c <- gets pc_constraints ;;
  match c with
  | Some (mkPcConstraints (Some l)) =>
      set_pc_constraints (mkPcConstraints (Some (l ++ [e])))
  | _ => throw (TypeError "this.pc_constraints.optional is undefined")
  end.

Definition init_emit (e : InitEvent) : M RTCUtilsState unit :=
  modify (fun s => mkRTCUtilsState (rtcReady s) (peerconnection s)
                     (getUserMedia s) (enumerateDevices s) (pc_constraints s)
                     (init_promise s) (init_trace s ++ [e])).

Definition init_settle (p : InitPromise) : M RTCUtilsState unit :=
  modify (fun s => mkRTCUtilsState (rtcReady s) (peerconnection s)
                     (getUserMedia s) (enumerateDevices s) (pc_constraints s)
                     (match init_promise s with
                      | InitPending => p
                      | settled => settled
                      end)
                     (init_trace s)).

Definition onReady (options : option InitOptions) : M RTCUtilsState unit :=
  set_rtcReady true ;;
  init_emit IEmitRtcReady ;;
  init_emit (IScreenObtainerInit options).

(** The executor of the promise of [init]. It returns [false] where the
    source leaves the function with [return]. The function handed to
    [AdapterJS.webRTCReady] runs when the plugin is ready; nothing else of
    the executor runs on that branch, so its place in the order does not
    matter. *)
Definition init_branches (nav : Navigator) (options : option InitOptions)
    : M RTCUtilsState bool :=
  let b := nav_browser nav in
  if isFirefox b then
    let FFversion := getFirefoxVersion nav in
    if (FFversion <? 40)%Z then
      init_emit (ILogError (FirefoxTooOld FFversion)) ;;
      init_settle (InitRejected (FirefoxTooOld FFversion)) ;;
      ret false
    else
      set_peerconnection mozRTCPeerConnection ;;
      set_getUserMedia wrapped_mozGetUserMedia ;;
      (if mediaDevices nav
       then set_enumerateDevices wrapped_enumerateDevices
       else throw (TypeError "navigator.mediaDevices is undefined")) ;;
      set_pc_constraints (mkPcConstraints None) ;;
      ret true
  else if isChrome b || isOpera nav || isNWJS nav || isReactNative b then
    set_peerconnection webkitRTCPeerConnection ;;
    (if mediaDevices nav then
       set_getUserMedia wrapped_webkitGetUserMedia ;;
       set_enumerateDevices wrapped_enumerateDevices
     else
       set_getUserMedia webkitGetUserMedia ;;
       set_enumerateDevices enumerateDevicesThroughMediaStreamTrack) ;;
    set_pc_constraints
      (mkPcConstraints (Some [DtlsSrtpKeyAgreement "true"])) ;;
    o <- match options with
         | Some o => ret o
         | None => throw (TypeError "options is undefined")
         end ;;
    when (truthy (useIPv6 o)) (pc_constraints_push (googIPv6 true)) ;;
    when (isAndroid b) (set_pc_constraints (mkPcConstraints None)) ;;
    ret true
  else if isTemasysPluginUsed b then
    when (plugin_ready nav)
      (set_peerconnection RTCPeerConnection ;;
       set_getUserMedia window_getUserMedia ;;
       set_enumerateDevices enumerateDevicesThroughMediaStreamTrack ;;
       onReady options ;;
       init_settle InitResolved) ;;
    ret true
  else
    init_emit (ILogError NotWebRTCCapable) ;;
    init_settle (InitRejected NotWebRTCCapable) ;;
    ret false.

Definition init_executor (nav : Navigator) (options : option InitOptions)
    : M RTCUtilsState unit :=
  go_on <- init_branches nav options ;;
  if go_on then
    when (negb (isTemasysPluginUsed (nav_browser nav)))
      (onReady options ;; init_settle InitResolved)
  else ret tt.

(** [RTCUtils.init(options)]: the state when the promise's executor has
    run; an exception that leaves the executor rejects the promise. *)
Definition RTCUtils_init (nav : Navigator) (options : option InitOptions)
    : RTCUtilsState :=
  match init_executor nav options RTCUtils_initial with
  | (Ok _, s) => s
  | (Throw e, s) => snd (init_settle (InitRejected (Thrown e)) s)
  end.

(** The browsers of the [webkit] branch. *)
Definition webkit_family (nav : Navigator) : bool :=
  isChrome (nav_browser nav) || isOpera nav || isNWJS nav
  || isReactNative (nav_browser nav).

Definition ready_events (t : list InitEvent) : nat :=
  length (filter (fun e => match e with IEmitRtcReady => true | _ => false end) t).

Definition is_rejected (p : InitPromise) : bool :=
  match p with InitRejected _ => true | _ => false end.

Definition pc_optional_entries (s : RTCUtilsState) : list PcOption :=
  match pc_constraints s with
  | Some (mkPcConstraints (Some l)) => l
  | _ => []
  end.

(** Runs [init], deciding each browser test when the run reaches it. *)
Ltac init_case :=
  match goal with
  | |- context [(?v <? 40)%Z] => destruct (v <? 40)%Z
  | |- context [if ?b then _ else _] => is_var b; destruct b
  | |- context [orb ?b _] => is_var b; destruct b
  | |- context [andb ?b _] => is_var b; destruct b
  | |- context [negb ?b] => is_var b; destruct b
  | |- context [when ?b _] => is_var b; destruct b
  | |- context [truthy ?b] => is_var b; destruct b
  | |- context [match ?o with Some _ => _ | None => _ end] =>
      is_var o; destruct o
  end.

Ltac init_run :=
  cbv beta iota zeta delta
    [bind ret throw when modify gets fst snd
     set_rtcReady set_peerconnection set_getUserMedia set_enumerateDevices
     set_pc_constraints pc_constraints_push init_emit init_settle onReady
     rtcReady peerconnection getUserMedia enumerateDevices pc_constraints
     init_promise init_trace RTCUtils_initial useIPv6
     nav_browser isAndroid isReactNative isFirefox isChrome
     isTemasysPluginUsed isOpera isNWJS getFirefoxVersion mediaDevices
     plugin_ready orb andb negb app
     truthy Truthy_option Truthy_bool is_rejected pc_optional_entries
     ready_events filter length].

Ltac init_cases nav :=
  destruct nav as [[android rn ff chrome temasys] opera nwjs v md ready];
  unfold RTCUtils_init, init_executor, init_branches, webkit_family;
  init_run; repeat (init_case; init_run).

(** X22. [init] sets [rtcReady] exactly when its promise resolves, and
    then it has emitted RTC_READY exactly once and has installed the peer
    connection, [getUserMedia] and [enumerateDevices]; when the promise is
    rejected or stays pending, the flag is not set and RTC_READY is not
    emitted. *)
Theorem init_ready_iff_resolved (nav : Navigator)
    (options : option InitOptions) :
  let s := RTCUtils_init nav options in
  (rtcReady s = true <-> init_promise s = InitResolved)
  /\ ready_events (init_trace s) = (if rtcReady s then 1%nat else 0%nat)
  /\ (init_promise s = InitResolved ->
      peerconnection s <> None /\ getUserMedia s <> None
      /\ enumerateDevices s <> None).
Proof.
  cbv zeta. destruct options as [[ipv6]|]; init_cases nav;
    (split; [split; congruence|]);
    (split; [reflexivity|]);
    intros H; try discriminate H; repeat split; discriminate.
Qed.

(** X23. The promise of [init] is rejected in exactly four cases: Firefox
    older than 40; Firefox without [navigator.mediaDevices]; a browser of
    the webkit branch when [options] is undefined; and a browser that is
    neither Firefox, nor of the webkit branch, nor one with the Temasys
    plugin. *)
Theorem init_rejected_exactly (nav : Navigator)
    (options : option InitOptions) :
  is_rejected (init_promise (RTCUtils_init nav options))
  = (isFirefox (nav_browser nav)
     && ((getFirefoxVersion nav <? 40)%Z || negb (mediaDevices nav)))
    || (negb (isFirefox (nav_browser nav)) && webkit_family nav
        && match options with Some _ => false | None => true end)
    || (negb (isFirefox (nav_browser nav)) && negb (webkit_family nav)
        && negb (isTemasysPluginUsed (nav_browser nav))).
Proof.
  destruct options as [[ipv6]|]; init_cases nav; reflexivity.
Qed.

(** X24. With [options] given, [pc_constraints] asks for DTLS-SRTP key
    agreement exactly on a browser of the webkit branch that is not
    Android, and for IPv6 exactly when, in addition, [options.useIPv6] is
    set: on Android [useIPv6] has no effect, and on Firefox and with the
    Temasys plugin neither entry is ever present. *)
Theorem init_pc_constraints (nav : Navigator) (o : InitOptions) :
  let s := RTCUtils_init nav (Some o) in
  let webkit :=
    negb (isFirefox (nav_browser nav)) && webkit_family nav
    && negb (isAndroid (nav_browser nav)) in
  pc_optional_entries s
  = (if webkit
     then DtlsSrtpKeyAgreement "true"
          :: (if truthy (useIPv6 o) then [googIPv6 true] else [])
     else []).
Proof.
  cbv zeta. destruct o as [ipv6]. init_cases nav; reflexivity.
Qed.

(** * The library object *)

(** ** [LibJitsiMeet.init] and [getGlobalOnErrorHandler] *)

(** The options that [LibJitsiMeet.init] reads itself. *)
Record LibOptions : Type := mkLibOptions {
  disableAudioLevels : option bool;
  enableWindowOnErrorHandler : option bool
}.

(** The arguments of [window.onerror]. *)
Record ErrorArgs : Type := mkErrorArgs {
  ea_message : option string;
  ea_source : option string;
  ea_lineno : option Z;
  ea_colno : option Z;
  ea_error : Exn
}.

(** A value of [window.onerror] or [window.onunhandledrejection]: nothing,
    a handler of the page, or the function that [init] installs, which
    keeps the handler it replaced. *)
Inductive WindowHandler : Type :=
| NoHandler
| PageHandler (name : string)
| LibHandler (old : WindowHandler).

Inductive ReportEvent : Type :=
| RConsoleError (args : ErrorArgs)
| RHandler (name : string) (error : Exn)
| RSendUnhandledError (error : Exn)
| RPageHandler (name : string) (args : ErrorArgs).

(** [window] and [Statistics] as [init] touches them. *)
Record Page : Type := mkPage {
  onerror : WindowHandler;
  onunhandledrejection : WindowHandler;
  audioLevelsEnabled : option bool
}.

(** [getGlobalOnErrorHandler(message, source, lineno, colno, error)] with
    the handlers of [_globalOnErrorHandler], each of which returns. *)
Definition getGlobalOnErrorHandler (handlers : list string) (args : ErrorArgs)
    : list ReportEvent :=
  RConsoleError args
  :: (if (0 <? length handlers)%nat
      then map (fun handler => RHandler handler (ea_error args)) handlers
      else [RSendUnhandledError (ea_error args)]).

(** A call of [window.onerror]. *)
Fixpoint call_onerror (h : WindowHandler) (handlers : list string)
    (args : ErrorArgs) : list ReportEvent :=
  match h with
  | NoHandler => []
  | PageHandler name => [RPageHandler name args]
  | LibHandler oldOnErrorHandler =>
      getGlobalOnErrorHandler handlers args
      ++ call_onerror oldOnErrorHandler handlers args
  end.

(** A call of [window.onunhandledrejection] with an event whose [reason]
    is [reason]; a handler of the page gets the event. *)
Fixpoint call_onunhandledrejection (h : WindowHandler) (handlers : list string)
    (reason : Exn) : list ReportEvent :=
  match h with
  | NoHandler => []
  | PageHandler name =>
      [RPageHandler name (mkErrorArgs None None None None reason)]
  | LibHandler oldOnUnhandledRejection =>
      getGlobalOnErrorHandler handlers (mkErrorArgs None None None None reason)
      ++ call_onunhandledrejection oldOnUnhandledRejection handlers reason
  end.

(** [LibJitsiMeet.init(options)] up to its last line, [return
    RTC.init(options || {})], which is outside this file. *)
Definition LibJitsiMeet_init (options : option LibOptions) : M Page unit :=
  match options with
  | None => throw (TypeError "options is undefined")
  | Some options =>
      modify (fun p => mkPage (onerror p) (onunhandledrejection p)
                         (Some (negb (truthy (disableAudioLevels options))
                                || true))) ;;
      when (truthy (enableWindowOnErrorHandler options))
        (modify (fun p => mkPage (LibHandler (onerror p))
                            (onunhandledrejection p) (audioLevelsEnabled p)) ;;
         modify (fun p => mkPage (onerror p)
                            (LibHandler (onunhandledrejection p))
                            (audioLevelsEnabled p)))
  end.

(** [n] calls of [init], each with [options]. *)
Fixpoint init_times (n : nat) (options : option LibOptions) (p : Page) : Page :=
  match n with
  | O => p
  | S n' => init_times n' options (snd (LibJitsiMeet_init options p))
  end.

(** The reports of [n] calls of [getGlobalOnErrorHandler]. *)
Fixpoint reports (n : nat) (handlers : list string) (args : ErrorArgs)
    : list ReportEvent :=
  match n with
  | O => []
  | S n' => getGlobalOnErrorHandler handlers args ++ reports n' handlers args
  end.

(** X25. [init] never switches the audio levels off: whatever
    [options.disableAudioLevels] is, [Statistics.audioLevelsEnabled] is
    [true] after the call. And a call without options throws before
    anything is assigned, although the last line provides for missing
    options. *)
Theorem init_audio_levels_always_enabled (options : option LibOptions)
    (p : Page) :
  match options with
  | Some o =>
      fst (LibJitsiMeet_init options p) = Ok tt
      /\ audioLevelsEnabled (snd (LibJitsiMeet_init options p)) = Some true
  | None =>
      LibJitsiMeet_init options p
      = (Throw (TypeError "options is undefined"), p)
  end.
Proof.
  destruct options as [[d e]|]; [|reflexivity].
  unfold LibJitsiMeet_init, bind, modify, when, ret. cbn.
  rewrite orb_true_r. destruct (truthy e); cbn; auto.
Qed.

Lemma init_window_handlers (o : LibOptions) (p : Page) :
  truthy (enableWindowOnErrorHandler o) = true ->
  onerror (snd (LibJitsiMeet_init (Some o) p)) = LibHandler (onerror p)
  /\ onunhandledrejection (snd (LibJitsiMeet_init (Some o) p))
     = LibHandler (onunhandledrejection p).
Proof.
  intros He. unfold LibJitsiMeet_init, bind, modify, when, ret. cbn.
  rewrite He. cbn. auto.
Qed.

Lemma reports_snoc (n : nat) (handlers : list string) (args : ErrorArgs) :
  reports n handlers args ++ getGlobalOnErrorHandler handlers args
  = getGlobalOnErrorHandler handlers args ++ reports n handlers args.
Proof.
  induction n as [|n IH]; cbn [reports].
  - now rewrite app_nil_r.
  - now rewrite <- app_assoc, IH.
Qed.

Lemma init_times_handlers (n : nat) (o : LibOptions) (p : Page)
    (handlers : list string) (args : ErrorArgs) (reason : Exn) :
  truthy (enableWindowOnErrorHandler o) = true ->
  call_onerror (onerror (init_times n (Some o) p)) handlers args
  = reports n handlers args ++ call_onerror (onerror p) handlers args
  /\ call_onunhandledrejection
       (onunhandledrejection (init_times n (Some o) p)) handlers reason
     = reports n handlers (mkErrorArgs None None None None reason)
       ++ call_onunhandledrejection (onunhandledrejection p) handlers reason.
Proof.
  intros He. revert p. induction n as [|n IH]; intros p; [split; reflexivity|].
  cbn [init_times].
  destruct (init_window_handlers o p He) as [E1 E2].
  destruct (IH (snd (LibJitsiMeet_init (Some o) p))) as [H1 H2].
  rewrite H1, H2, E1, E2. cbn [call_onerror call_onunhandledrejection reports].
  rewrite !app_assoc, !reports_snoc. split; reflexivity.
Qed.

(** X26. Every call of [init] with [enableWindowOnErrorHandler] wraps the
    window's handlers once more: after [n] such calls an error reaches
    [getGlobalOnErrorHandler] [n] times (so every registered handler, or
    [Statistics] when none is registered, gets it [n] times) before the
    handler that the page had installed is called, once; the same holds for
    unhandled rejections, which are reported with their reason and no
    message, source, line or column. *)
Theorem init_wraps_window_handlers (n : nat) (o : LibOptions) (p : Page)
    (handlers : list string) (args : ErrorArgs) (reason : Exn) :
  truthy (enableWindowOnErrorHandler o) = true ->
  call_onerror (onerror (init_times n (Some o) p)) handlers args
  = reports n handlers args ++ call_onerror (onerror p) handlers args
  /\ call_onunhandledrejection
       (onunhandledrejection (init_times n (Some o) p)) handlers reason
     = reports n handlers (mkErrorArgs None None None None reason)
       ++ call_onunhandledrejection (onunhandledrejection p) handlers reason
  /\ length (filter (fun e => match e with
                              | RSendUnhandledError _ => true
                              | _ => false
                              end)
               (reports n handlers args))
     = (if (0 <? length handlers)%nat then 0%nat else n).
Proof.
  intros He.
  destruct (init_times_handlers n o p handlers args reason He) as [H1 H2].
  split; [exact H1|]. split; [exact H2|].
  clear. induction n as [|n IH]; [now destruct (0 <? _)%nat|].
  cbn [reports]. rewrite filter_app, length_app, IH.
  unfold getGlobalOnErrorHandler. destruct handlers as [|h r]; [reflexivity|].
  cbn. f_equal.
  assert (H : forall l : list string,
            filter (fun e => match e with
                             | RSendUnhandledError _ => true
                             | _ => false
                             end)
              (map (fun handler => RHandler handler (ea_error args)) l) = []).
  { induction l; cbn; auto. }
  now rewrite H.
Qed.

Lemma init_wraps_window_handlers_witness :
  let o := mkLibOptions (Some true) (Some true) in
  let p := mkPage (PageHandler "page") NoHandler None in
  let args := mkErrorArgs (Some "boom") (Some "app.js") (Some 10%Z) (Some 2%Z)
                (Error "boom") in
  call_onerror (onerror (init_times 2 (Some o) p)) [] args
  = [RConsoleError args; RSendUnhandledError (Error "boom");
     RConsoleError args; RSendUnhandledError (Error "boom");
     RPageHandler "page" args]
  /\ call_onunhandledrejection
       (onunhandledrejection (init_times 2 (Some o) p)) [] (Error "late")
     = reports 2 [] (mkErrorArgs None None None None (Error "late"))
  /\ length (filter (fun e => match e with
                              | RSendUnhandledError _ => true
                              | _ => false
                              end)
               (reports 2 [] args))
     = 2%nat.
Proof.
  cbv zeta.
  apply (init_wraps_window_handlers 2 (mkLibOptions (Some true) (Some true))
           (mkPage (PageHandler "page") NoHandler None) []
           (mkErrorArgs (Some "boom") (Some "app.js") (Some 10%Z) (Some 2%Z)
              (Error "boom"))
           (Error "late")).
  reflexivity.
Defined.

(** * The builder and the list of kinds *)

(** X27. The builder looks at the list of kinds only through the presence
    of [video], [audio], [screen] and [desktop]: two requests that agree on
    these four give the same descriptor (or the same exception), the same
    [options] and the same log. So the order of the kinds, repetitions and
    kinds the builder does not know change nothing. *)
Theorem build_depends_on_presence (env : Env) (um um' : list string)
    (o : Options) :
  has um "video" = has um' "video" ->
  has um "audio" = has um' "audio" ->
  has um "screen" = has um' "screen" ->
  has um "desktop" = has um' "desktop" ->
  build env um o = build env um' o.
Proof.
  intros Hv Ha Hs Hd.
  unfold build, getConstraints, camera_step, microphone_step, screen_step,
    desktop_step.
  rewrite Hv, Ha, Hs, Hd. reflexivity.
Qed.

Lemma build_depends_on_presence_witness :
  build (env_of chrome true) ["audio"; "video"; "audio"; "speaker"]
    (mkOptions (Some "720") None None None (Some 30%Z) None None None None)
  = build (env_of chrome true) ["video"; "audio"]
      (mkOptions (Some "720") None None None (Some 30%Z) None None None None).
Proof.
  apply (build_depends_on_presence (env_of chrome true)
           ["audio"; "video"; "audio"; "speaker"] ["video"; "audio"]);
    reflexivity.
Defined.
